(** * gmail-cli: token lifecycle, label resolution, message codec,
      MIME composition and reply threading

    A shallow embedding of [src/lib/auth.js], [src/lib/gmail.js] and
    [src/lib/email-sender.js].

    Conventions of the embedding.
    - A JavaScript string is a [string]; a non-ASCII character stands for
      its UTF-8 bytes, so the length of a string is its byte length.
    - A value that may be [null] or [undefined] is an [option].
    - A thrown exception is the [Throw] outcome of a computation in the
      monad [M], which threads the state of the process and of the
      services it talks to ([World]). Effects that happened before a throw
      stay in the world, as they do in JavaScript.
    - [async]/[await] is sequential composition: the program never starts
      two calls at once. *)

From Stdlib Require Import ZArith String Ascii List Bool Lia DecimalString.
From stdpp Require Import base option list strings gmap.

Local Open Scope string_scope.
Local Open Scope list_scope.
Local Open Scope Z_scope.

(** ** JavaScript values *)

(** The line feed, the carriage return and the double quote, for the
    messages that carry them. *)
Definition LF : ascii := ascii_of_nat 10.
Definition CR : ascii := ascii_of_nat 13.
Definition dq : string := String (ascii_of_nat 34) EmptyString.
Definition nl : string := String LF EmptyString.

(** Truthiness of a string and of a number. *)
Definition truthy_string (s : string) : bool :=
  match s with EmptyString => false | String _ _ => true end.

Definition truthy_number (n : Z) : bool := negb (n =? 0).

(** [`${v}`]: a template literal prints [null] for a null value. *)
Definition interpolate (v : option string) : string :=
  match v with Some s => s | None => "null" end.

(** [v || ''] *)
Definition or_empty (v : option string) : string :=
  match v with
  | Some s => if truthy_string s then s else EmptyString
  | None => EmptyString
  end.

(** [Array.prototype.join] on strings. *)
Fixpoint join (sep : string) (l : list string) : string :=
  match l with
  | [] => EmptyString
  | [s] => s
  | s :: rest => s +:+ sep +:+ join sep rest
  end.

(** [String.prototype.startsWith] *)
Fixpoint startsWith (s pre : string) : bool :=
  match pre, s with
  | EmptyString, _ => true
  | String p pre', String c s' => if Ascii.eqb c p then startsWith s' pre' else false
  | String _ _, EmptyString => false
  end.

(** [String.prototype.toLowerCase], on the ASCII letters. The program
    lowers header names only, to compare them with those of Message-ID,
    References, Subject, From, To and Date; no character outside ASCII
    lowers to a letter of these. *)
Definition lower_char (c : ascii) : ascii :=
  let n := nat_of_ascii c in
  if (Nat.leb 65 n && Nat.leb n 90)%bool then ascii_of_nat (n + 32) else c.

Fixpoint toLowerCase (s : string) : string :=
  match s with
  | EmptyString => EmptyString
  | String c s' => String (lower_char c) (toLowerCase s')
  end.

(** [String.prototype.split] with a one-character separator: [cur] holds,
    reversed, the characters read since the last separator. *)
Fixpoint split_go (sep : ascii) (cur : string) (s : string) : list string :=
  match s with
  | EmptyString => [String.rev cur]
  | String c s' =>
      if Ascii.eqb c sep then String.rev cur :: split_go sep EmptyString s'
      else split_go sep (String c cur) s'
  end.

Definition split_on (sep : ascii) (s : string) : list string :=
  split_go sep EmptyString s.

(** A character occurs in a string. *)
Fixpoint has_char (c : ascii) (s : string) : bool :=
  match s with
  | EmptyString => false
  | String a s' => Ascii.eqb a c || has_char c s'
  end.

(** An ASCII letter, and two characters that are the same letter in
    either case, or the same character. *)
Definition is_letter (c : ascii) : bool :=
  let n := nat_of_ascii c in
  ((Nat.leb 65 n && Nat.leb n 90) || (Nat.leb 97 n && Nat.leb n 122))%bool.

Definition same_char_ignoring_case (c d : ascii) : bool :=
  Ascii.eqb c d ||
  (is_letter c && is_letter d &&
   (Nat.eqb (nat_of_ascii c + 32) (nat_of_ascii d) ||
    Nat.eqb (nat_of_ascii d + 32) (nat_of_ascii c)))%bool.

Fixpoint same_ignoring_case (a b : string) : bool :=
  match a, b with
  | EmptyString, EmptyString => true
  | String c a', String d b' => same_char_ignoring_case c d && same_ignoring_case a' b'
  | _, _ => false
  end.

(** Every character is in ASCII. *)
Fixpoint is_ascii (s : string) : bool :=
  match s with
  | EmptyString => true
  | String c s' => Nat.ltb (nat_of_ascii c) 128 && is_ascii s'
  end.

(** ** Exceptions and outcomes *)

Inductive exn : Type :=
| Error (message : string)
| TypeError (message : string).

Inductive outcome (A : Type) : Type :=
| Return (a : A)
| Throw (e : exn).
Arguments Return {A} a.
Arguments Throw {A} e.

(** ** Data of the token store and of the mail provider *)

(** An OAuth token as google-auth-library stores it. *)
Record Credentials := {
  access_token : option string;
  refresh_token : option string;
  expiry_date : option Z;
  scope : option string
}.

(** The [installed] or [web] object of the provider-issued file. *)
Record AppCredentials := {
  client_id : option string;
  client_secret : option string
}.

Record OAuth2Client := {
  app_id : option string;
  app_secret : option string;
  redirect_uri : string;
  credentials : option Credentials
}.

Record Label := { label_id : string; label_name : string }.

Record Header := { name : string; value : string }.

Record Body := { data : option string }.

(** A node of the MIME tree of a provider message: [body] and [parts] may be
    missing, and so may [data] inside a body. *)
#[warnings="-register-all"]
Inductive Part : Type :=
| MkPart (mimeType : string) (headers : list Header)
         (body : option Body) (parts : option (list Part)).

Definition mimeType (p : Part) : string := let (m, _, _, _) := p in m.
Definition part_headers (p : Part) : list Header := let (_, h, _, _) := p in h.
Definition body (p : Part) : option Body := let (_, _, b, _) := p in b.
Definition parts (p : Part) : option (list Part) := let (_, _, _, ps) := p in ps.

Record Message := { threadId : option string; payload : Part }.

(** What a file holds, as far as the program looks at it: its byte length
    ([statSync(..).size]) and what [JSON.parse] makes of its text, [None]
    when the text is no JSON or is a falsy value. *)
Record File := { file_size : Z; file_json : option Credentials }.

(** What nodemailer is given. *)
Record MessageConfig := {
  mc_from : string;
  mc_to : option string;
  mc_subject : option string;
  mc_headers : list (string * string);
  mc_cc : option string;
  mc_bcc : option string;
  mc_text : option string;
  mc_html : option string;
  mc_attachments : option (list string)
}.

Record DraftData := { draft_id : string; draft_thread : option string }.
Record SentData := { sent_id : string; sent_thread : option string }.

(** The calls that leave the process, in the order they are made. *)
Inductive Event : Type :=
| RefreshAccessToken (c : OAuth2Client)
| WriteFile (path : string) (f : File)
| Unlink (path : string)
| ConsoleLog (line : string)
| LabelsList
| MessagesGet (id : string)
| SendMail (cfg : MessageConfig)
| DraftsCreate (raw : string) (thread : option string)
| MessagesSend (raw : string) (thread : option string).

(** ** Buffers

    A [Buffer] is the string of its bytes. [Buffer.from(s)] encodes a
    string in UTF-8, which is the identity here; [buf.toString()] decodes
    UTF-8 and writes U+FFFD (the bytes EF BF BD) for every ill-formed
    sequence. *)

Definition byte_val (c : ascii) : N := N_of_ascii c.
Definition byte_of (n : N) : ascii := ascii_of_N n.

Definition Buffer_from_utf8 (s : string) : string := s.

Definition REPLACEMENT : string :=
  String (byte_of 239) (String (byte_of 191) (String (byte_of 189) EmptyString)).

(** The decoder between two characters, or inside one: the bytes read so
    far (last first), how many are still to come, and the range allowed
    for the next. *)
Inductive utf8_state : Type :=
| Start
| Inside (seen : string) (needed : nat) (lower upper : N).

Definition in_range (lo hi : N) (b : ascii) : bool :=
  (lo <=? byte_val b)%N && (byte_val b <=? hi)%N.

(** The range of the second byte after a first byte: narrower after E0,
    ED, F0 and F4, which shuts out overlong forms, surrogates and code
    points above U+10FFFF. *)
Definition second_lower (b : ascii) : N :=
  if (byte_val b =? 224)%N then 160%N
  else if (byte_val b =? 240)%N then 144%N else 128%N.

Definition second_upper (b : ascii) : N :=
  if (byte_val b =? 237)%N then 159%N
  else if (byte_val b =? 244)%N then 143%N else 191%N.

(** A byte read between two characters. *)
Definition utf8_lead (b : ascii) : string * utf8_state :=
  let one := String b EmptyString in
  if in_range 0 127 b then (one, Start)
  else if in_range 194 223 b then (EmptyString, Inside one 1 128 191)
  else if in_range 224 239 b then
    (EmptyString, Inside one 2 (second_lower b) (second_upper b))
  else if in_range 240 244 b then
    (EmptyString, Inside one 3 (second_lower b) (second_upper b))
  else (REPLACEMENT, Start).

(** One byte: what is written, and the next state. A byte that cannot
    continue the character under way ends it with U+FFFD and is read again
    as a first byte. *)
Definition utf8_step (st : utf8_state) (b : ascii) : string * utf8_state :=
  match st with
  | Start => utf8_lead b
  | Inside seen needed lo hi =>
      if in_range lo hi b then
        match needed with
        | S (S n) => (EmptyString, Inside (String b seen) (S n) 128 191)
        | _ => (String.rev (String b seen), Start)
        end
      else
        let (out, st') := utf8_lead b in (REPLACEMENT +:+ out, st')
  end.

Fixpoint utf8_scan (st : utf8_state) (s : string) : string :=
  match s with
  | EmptyString =>
      match st with Start => EmptyString | Inside _ _ _ _ => REPLACEMENT end
  | String b s' =>
      let (out, st') := utf8_step st b in out +:+ utf8_scan st' s'
  end.

(** [buf.toString('utf8')] *)
Definition Buffer_toString_utf8 (buf : string) : string := utf8_scan Start buf.

(** One well-formed UTF-8 character (Unicode, table 3-7), and a string
    of them. *)
Inductive utf8_char : string → Prop :=
| utf8_char1 b :
    in_range 0 127 b = true → utf8_char (String b EmptyString)
| utf8_char2 b1 b2 :
    in_range 194 223 b1 = true → in_range 128 191 b2 = true →
    utf8_char (String b1 (String b2 EmptyString))
| utf8_char3 b1 b2 b3 :
    in_range 224 239 b1 = true →
    in_range (second_lower b1) (second_upper b1) b2 = true →
    in_range 128 191 b3 = true →
    utf8_char (String b1 (String b2 (String b3 EmptyString)))
| utf8_char4 b1 b2 b3 b4 :
    in_range 240 244 b1 = true →
    in_range (second_lower b1) (second_upper b1) b2 = true →
    in_range 128 191 b3 = true → in_range 128 191 b4 = true →
    utf8_char (String b1 (String b2 (String b3 (String b4 EmptyString)))).

Inductive utf8_text : string → Prop :=
| utf8_text_nil : utf8_text EmptyString
| utf8_text_app c s : utf8_char c → utf8_text s → utf8_text (c +:+ s).

(** The states the decoder can be in: inside a character, the bytes seen
    are the start of a well-formed one. *)
Inductive utf8_pending : utf8_state → Prop :=
| pending_start : utf8_pending Start
| pending_2_1 b1 :
    in_range 194 223 b1 = true →
    utf8_pending (Inside (String b1 EmptyString) 1 128 191)
| pending_3_1 b1 :
    in_range 224 239 b1 = true →
    utf8_pending (Inside (String b1 EmptyString) 2 (second_lower b1) (second_upper b1))
| pending_3_2 b1 b2 :
    in_range 224 239 b1 = true →
    in_range (second_lower b1) (second_upper b1) b2 = true →
    utf8_pending (Inside (String b2 (String b1 EmptyString)) 1 128 191)
| pending_4_1 b1 :
    in_range 240 244 b1 = true →
    utf8_pending (Inside (String b1 EmptyString) 3 (second_lower b1) (second_upper b1))
| pending_4_2 b1 b2 :
    in_range 240 244 b1 = true →
    in_range (second_lower b1) (second_upper b1) b2 = true →
    utf8_pending (Inside (String b2 (String b1 EmptyString)) 2 128 191)
| pending_4_3 b1 b2 b3 :
    in_range 240 244 b1 = true →
    in_range (second_lower b1) (second_upper b1) b2 = true →
    in_range 128 191 b3 = true →
    utf8_pending (Inside (String b3 (String b2 (String b1 EmptyString))) 1 128 191).

(** *** Base64 *)

Definition base64_alphabet : string :=
  "ABCDEFGHIJKLMNOPQRSTUVWXYZabcdefghijklmnopqrstuvwxyz0123456789+/".

Definition base64_char (n : N) : ascii :=
  match String.get (N.to_nat n) base64_alphabet with
  | Some c => c
  | None => "="%char
  end.

Definition sextet1 (a : ascii) : N := N.shiftr (byte_val a) 2.
Definition sextet2 (a b : ascii) : N :=
  N.lor (N.shiftl (N.land (byte_val a) 3) 4) (N.shiftr (byte_val b) 4).
Definition sextet3 (b c : ascii) : N :=
  N.lor (N.shiftl (N.land (byte_val b) 15) 2) (N.shiftr (byte_val c) 6).
Definition sextet4 (c : ascii) : N := N.land (byte_val c) 63.

Definition NUL : ascii := byte_of 0.

(** [buf.toString('base64')]: three bytes make four characters, and the
    last group is padded with [=]. *)
Fixpoint Buffer_toString_base64 (buf : string) : string :=
  match buf with
  | EmptyString => EmptyString
  | String a EmptyString =>
      String (base64_char (sextet1 a)) (String (base64_char (sextet2 a NUL)) "==")
  | String a (String b EmptyString) =>
      String (base64_char (sextet1 a)) (String (base64_char (sextet2 a b))
        (String (base64_char (sextet3 b NUL)) "="))
  | String a (String b (String c rest)) =>
      String (base64_char (sextet1 a)) (String (base64_char (sextet2 a b))
        (String (base64_char (sextet3 b c)) (String (base64_char (sextet4 c))
          (Buffer_toString_base64 rest))))
  end.

(** The value of a character for Node's decoder, which reads both the
    standard and the URL-safe alphabet. *)
Definition unbase64 (c : ascii) : option N :=
  let n := byte_val c in
  if in_range 65 90 c then Some (n - 65)%N
  else if in_range 97 122 c then Some (n - 71)%N
  else if in_range 48 57 c then Some (n + 4)%N
  else if ((n =? 43) || (n =? 45))%N then Some 62%N
  else if ((n =? 47) || (n =? 95))%N then Some 63%N
  else None.

(** The characters that count: the decoder skips what is not in the
    alphabet and stops at the first [=]. *)
Fixpoint sextets (s : string) : list N :=
  match s with
  | EmptyString => []
  | String c s' =>
      if Ascii.eqb c "=" then []
      else match unbase64 c with
           | Some n => n :: sextets s'
           | None => sextets s'
           end
  end.

Definition octet1 (s1 s2 : N) : ascii :=
  byte_of (N.lor (N.shiftl (N.land s1 63) 2) (N.shiftr (N.land s2 48) 4)).
Definition octet2 (s2 s3 : N) : ascii :=
  byte_of (N.lor (N.shiftl (N.land s2 15) 4) (N.shiftr (N.land s3 60) 2)).
Definition octet3 (s3 s4 : N) : ascii :=
  byte_of (N.lor (N.shiftl (N.land s3 3) 6) (N.land s4 63)).

(** Four characters make three bytes; a last group of two or three makes
    one or two, and a single left-over character makes none. *)
Fixpoint octets (l : list N) : string :=
  match l with
  | s1 :: s2 :: s3 :: s4 :: rest =>
      String (octet1 s1 s2) (String (octet2 s2 s3) (String (octet3 s3 s4) (octets rest)))
  | [s1; s2; s3] => String (octet1 s1 s2) (String (octet2 s2 s3) EmptyString)
  | [s1; s2] => String (octet1 s1 s2) EmptyString
  | _ => EmptyString
  end.

(** [Buffer.from(s, 'base64')] *)
Definition Buffer_from_base64 (s : string) : string := octets (sextets s).

(** [s.replace(/c/g, d)] for single characters. *)
Fixpoint replace_all (c d : ascii) (s : string) : string :=
  match s with
  | EmptyString => EmptyString
  | String a s' => String (if Ascii.eqb a c then d else a) (replace_all c d s')
  end.

(** [s.replace(/c+$/, '')]: the run of [c] that ends the string goes. *)
Fixpoint strip_trailing (c : ascii) (s : string) : string :=
  match s with
  | EmptyString => EmptyString
  | String a s' =>
      match strip_trailing c s' with
      | EmptyString => if Ascii.eqb a c then EmptyString else String a EmptyString
      | r => String a r
      end
  end.

(** The transport encoding of src/lib/email-sender.js, lines 84-88. *)
Definition encodeBase64Url (rawMessage : string) : string :=
  strip_trailing "="
    (replace_all "/" "_"
      (replace_all "+" "-"
        (Buffer_toString_base64 (Buffer_from_utf8 rawMessage)))).

(** *** The two pipelines, character by character *)

(** What the two replacements of the encoder do to a character, and the
    two of the decoder. *)
Definition to_url (c : ascii) : ascii :=
  let c1 := if Ascii.eqb c "+" then "-"%char else c in
  if Ascii.eqb c1 "/" then "_"%char else c1.

Definition from_url (c : ascii) : ascii :=
  let c1 := if Ascii.eqb c "-" then "+"%char else c in
  if Ascii.eqb c1 "_" then "/"%char else c1.

(** The character of a sextet survives the encoder's replacements, is not
    the padding, and reads back as the sextet. *)
Definition sextet_ok (n : N) : bool :=
  let c := to_url (base64_char n) in
  negb (Ascii.eqb c "=") && negb (Ascii.eqb (from_url c) "=") &&
  match unbase64 (from_url c) with
  | Some m => (m =? n)%N
  | None => false
  end.


Fixpoint all_chars (p : ascii → bool) (s : string) : bool :=
  match s with
  | EmptyString => true
  | String c s' => p c && all_chars p s'
  end.

Definition all_bytes : list ascii := map ascii_of_nat (seq 0 256).

(** The same for the character of a sextet as the encoder writes it, with
    no replacement. *)
Definition sextet_std_ok (n : N) : bool :=
  let c := base64_char n in
  negb (Ascii.eqb c "=") && negb (Ascii.eqb (from_url c) "=") &&
  match unbase64 (from_url c) with
  | Some m => (m =? n)%N
  | None => false
  end.

(** The URL-safe form of a base64 text, padding kept. *)
Definition url_safe (s : string) : string :=
  replace_all "/" "_" (replace_all "+" "-" s).

(** ** src/lib/gmail.js: the message codec *)

Definition decodeBase64Url (str : string) : string :=
  if negb (truthy_string str) then EmptyString
  else
    let base64 := replace_all "_" "/" (replace_all "-" "+" str) in
    Buffer_toString_utf8 (Buffer_from_base64 base64).

Definition getHeader (message : Message) (headerName : string) : option string :=
  match List.find (λ h, String.eqb (toLowerCase (name h)) (toLowerCase headerName))
             (part_headers (payload message)) with
  | Some header => Some (value header)
  | None => None
  end.

Record Bodies := { text : string; html : string }.

Definition set_text (s : string) (acc : Bodies) : Bodies :=
  {| text := s; html := html acc |}.
Definition set_html (s : string) (acc : Bodies) : Bodies :=
  {| text := text acc; html := s |}.

Definition CannotReadData : exn :=
  TypeError "Cannot read properties of undefined (reading 'data')".

(** [part.body.data] when it is truthy. *)
Definition truthy_data (b : Body) : option string :=
  match data b with
  | Some d => if truthy_string d then Some d else None
  | None => None
  end.

(** [part.mimeType === type && part.body.data]: the data when both hold.
    [part.body.data] is read only when the media type is the one asked for,
    and reading it throws when the part has no [body]. *)
Definition typed_data (type : string) (part : Part) : outcome (option string) :=
  if String.eqb (mimeType part) type then
    match body part with
    | None => Throw CannotReadData
    | Some b => Return (truthy_data b)
    end
  else Return None.

(** The [if ... else if ...] that opens [extractBody]. *)
Definition assign_body (part : Part) (acc : Bodies) : outcome Bodies :=
  match typed_data "text/plain" part with
  | Throw e => Throw e
  | Return (Some d) => Return (set_text (decodeBase64Url d) acc)
  | Return None =>
      match typed_data "text/html" part with
      | Throw e => Throw e
      | Return (Some d) => Return (set_html (decodeBase64Url d) acc)
      | Return None => Return acc
      end
  end.

(** [extractBody], the closure of [getMessageBody], with the two variables
    it assigns passed along. *)
Fixpoint extractBody (part : Part) (acc : Bodies) : outcome Bodies :=
  match assign_body part acc with
  | Throw e => Throw e
  | Return acc1 =>
      match part with
      | MkPart _ _ _ (Some ps) =>
          (fix forEach (l : list Part) (acc : Bodies) : outcome Bodies :=
             match l with
             | [] => Return acc
             | p :: l' =>
                 match extractBody p acc with
                 | Return acc' => forEach l' acc'
                 | Throw e => Throw e
                 end
             end) ps acc1
      | MkPart _ _ _ None => Return acc1
      end
  end.

(** [parts.forEach(extractBody)] *)
Fixpoint forEach_extractBody (l : list Part) (acc : Bodies) : outcome Bodies :=
  match l with
  | [] => Return acc
  | p :: l' =>
      match extractBody p acc with
      | Return acc' => forEach_extractBody l' acc'
      | Throw e => Throw e
      end
  end.

(** The check of the top-level payload as a simple body. *)
Definition simple_body (payload : Part) (acc : Bodies) : Bodies :=
  match body payload ≫= truthy_data with
  | Some d =>
      if String.eqb (mimeType payload) "text/plain"
      then set_text (decodeBase64Url d) acc
      else if String.eqb (mimeType payload) "text/html"
      then set_html (decodeBase64Url d) acc
      else acc
  | None => acc
  end.

Definition getMessageBody (message : Message) : outcome Bodies :=
  let payload := payload message in
  let acc := simple_body payload {| text := EmptyString; html := EmptyString |} in
  match parts payload with
  | Some ps => forEach_extractBody ps acc
  | None => Return acc
  end.

(** *** The walk, as a list

    The nodes of a MIME tree in depth-first order, a node before its
    children; the data a node offers for a media type; the body the walk
    ends with for a type: the last offer, or the empty string. *)
Fixpoint preorder (part : Part) : list Part :=
  part ::
  match part with
  | MkPart _ _ _ (Some ps) =>
      (fix children (l : list Part) : list Part :=
         match l with
         | [] => []
         | p :: l' => preorder p ++ children l'
         end) ps
  | MkPart _ _ _ None => []
  end.

Definition descendants (part : Part) : list Part :=
  flat_map preorder (default [] (parts part)).

Definition offers (type : string) (part : Part) : option string :=
  if String.eqb (mimeType part) type then body part ≫= truthy_data else None.

Definition last_body (type : string) (nodes : list Part) : string :=
  from_option decodeBase64Url EmptyString (last (omap (offers type) nodes)).

(** What a node does to the two bodies when its data can be read. *)
Definition assign (acc : Bodies) (part : Part) : Bodies :=
  match offers "text/plain" part with
  | Some d => set_text (decodeBase64Url d) acc
  | None =>
      match offers "text/html" part with
      | Some d => set_html (decodeBase64Url d) acc
      | None => acc
      end
  end.

(** A part of one of the two text types has a [body] object. *)
Definition has_body (part : Part) : Prop :=
  (mimeType part = "text/plain" ∨ mimeType part = "text/html") →
  body part ≠ None.

(** A part of one of the two text types with no [body] object. *)
Definition lacks_body (part : Part) : Prop :=
  (mimeType part = "text/plain" ∨ mimeType part = "text/html") ∧
  body part = None.

(** ** src/commands/attachment.js: the bytes of a downloaded attachment

    [Buffer.from(data.replace(/-/g, '+').replace(/_/g, '/'), 'base64')]:
    the bytes are written to the file as they are, with no UTF-8 step.
    (The command refuses data that is empty before it comes here.) *)
Definition attachmentBytes (data : string) : string :=
  Buffer_from_base64 (replace_all "_" "/" (replace_all "-" "+" data)).

(** ** src/lib/email-sender.js: messages, options and the reply *)

Definition MAX_MESSAGE_SIZE : Z := 35 * 1024 * 1024.

(** [`${Math.round(size / 1024 / 1024)}`] for a byte count. *)
Definition megabytes (size : Z) : string :=
  NilZero.string_of_int (Z.to_int ((size + 524288) / 1048576)).

Definition AttachmentNotFoundError (filePath : string) : exn :=
  Error ("File not found: " +:+ filePath +:+ nl +:+
         "  → Check that the file path is correct").

Definition AttachmentTooLargeError (filePath : string) (size : Z) : exn :=
  Error ("File too large: " +:+ filePath +:+ nl +:+
         "  → Size: " +:+ megabytes size +:+ "MB" +:+ nl +:+
         "  → Gmail limit: 35MB per message").

Definition MessageTooLargeError (totalSize : Z) : exn :=
  Error ("Message size exceeds Gmail limit (35MB)" +:+ nl +:+
         "  → Current size: " +:+ megabytes totalSize +:+ "MB" +:+ nl +:+
         "  → Remove or compress attachments").

Definition MissingMessageIdError : exn :=
  Error "Original message does not have a Message-ID header".

(** A [cc] or [bcc] option: one string, or an array of them. *)
Inductive Recipients : Type :=
| One (address : string)
| Many (addresses : list string).

(** [cc && cc.length > 0], then [Array.isArray(cc) ? cc.join(', ') : cc] *)
Definition recipients_field (r : option Recipients) : option string :=
  match r with
  | Some (One s) => if truthy_string s then Some s else None
  | Some (Many []) => None
  | Some (Many l) => Some (join ", " l)
  | None => None
  end.

(** [if (v) field = v] for a string option. *)
Definition when_truthy (v : option string) : option string :=
  match v with
  | Some s => if truthy_string s then Some s else None
  | None => None
  end.

(** The options object of [sendEmail], [replyToEmail] and
    [buildMimeMessage]; a field a caller leaves out is [None]. *)
Record Options := {
  to : option string;
  from : option string;
  subject : option string;
  bodyTxt : option string;
  bodyHtml : option string;
  cc : option Recipients;
  bcc : option Recipients;
  attachments : option (list string);
  headers : option (list (string * string));
  messageId : string;
  quote : bool;
  draft : bool
}.

(** The configuration handed to nodemailer, once the attachments passed. *)
Definition messageConfig (options : Options) (checked : option (list string))
  : MessageConfig :=
  {| mc_from := default "me" (from options);
     mc_to := to options;
     mc_subject := subject options;
     mc_headers := default [] (headers options);
     mc_cc := recipients_field (cc options);
     mc_bcc := recipients_field (bcc options);
     mc_text := when_truthy (bodyTxt options);
     mc_html := when_truthy (bodyHtml options);
     mc_attachments := checked |}.




Definition getDraftGmailUrl (draftId : string) : string :=
  "https://mail.google.com/mail/u/0/#drafts?compose=" +:+ draftId.

(** What [sendEmail] and [replyToEmail] return. *)
Inductive Delivery : Type :=
| Drafted (d : DraftData) (gmailUrl : string)
| Sent (d : SentData).

(** *** The reply *)

(** A line terminator starts here: LF, CR, U+2028 or U+2029. The dot of a
    regular expression matches none of them. *)
Definition line_terminator_at (s : string) : bool :=
  match s with
  | String c rest =>
      Ascii.eqb c LF || Ascii.eqb c CR ||
      (Ascii.eqb c (byte_of 226) &&
       match rest with
       | String c1 (String c2 _) =>
           Ascii.eqb c1 (byte_of 128) &&
           (Ascii.eqb c2 (byte_of 168) || Ascii.eqb c2 (byte_of 169))
       | _ => false
       end)
  | EmptyString => false
  end.

(** The characters before the first [>], when no line ends before it. *)
Fixpoint until_gt (s : string) : option string :=
  match s with
  | EmptyString => None
  | String c rest =>
      if Ascii.eqb c ">" then Some EmptyString
      else if line_terminator_at s then None
      else String c <$> until_gt rest
  end.

(** [.+?>] on what follows a [<]: one character at least, then the
    nearest [>]. *)
Definition group_after_lt (s : string) : option string :=
  match s with
  | EmptyString => None
  | String c rest =>
      if line_terminator_at s then None else String c <$> until_gt rest
  end.

(** The first group of [s.match(/<(.+?)>/)], at the leftmost [<] that
    starts a match. *)
Fixpoint match_angle (s : string) : option string :=
  match s with
  | EmptyString => None
  | String c rest =>
      if Ascii.eqb c "<" then
        match group_after_lt rest with
        | Some g => Some g
        | None => match_angle rest
        end
      else match_angle rest
  end.

(** A character that is neither [>] nor the start of a line terminator. *)
Definition plain_char (c : ascii) : bool :=
  negb (Ascii.eqb c ">") && negb (Ascii.eqb c LF) && negb (Ascii.eqb c CR) &&
  negb (Ascii.eqb c (byte_of 226)).

(** [text.split('\n').map(line => `> ${line}`).join('\n')] *)
Definition quoteText (text : string) : string :=
  join nl (map (λ line, "> " +:+ line) (split_on LF text)).

(** [replyToEmail] from the headers of the original to the options it
    hands to [buildMimeMessage] (lines 177 to 236). No call leaves the
    process here; the two throws are the missing Message-ID and a body
    that cannot be read. [buildMimeMessage] reads neither [messageId],
    [quote] nor [draft], which the object it is given does not have. *)
Definition replyOptions (options : Options) (originalMessage : Message)
  : outcome Options :=
  let originalMessageId := getHeader originalMessage "Message-ID" in
  let originalReferences := getHeader originalMessage "References" in
  let originalSubject := getHeader originalMessage "Subject" in
  let originalFrom := getHeader originalMessage "From" in
  let originalTo := getHeader originalMessage "To" in
  match when_truthy originalMessageId with
  | None => Throw MissingMessageIdError
  | Some originalMessageId =>
      let references :=
        match when_truthy originalReferences with
        | Some originalReferences => originalReferences +:+ " " +:+ originalMessageId
        | None => originalMessageId
        end in
      let subject :=
        match originalSubject with
        | Some s => if startsWith s "Re:" then s else "Re: " +:+ or_empty originalSubject
        | None => "Re: " +:+ or_empty originalSubject
        end in
      let to :=
        match originalFrom ≫= match_angle with
        | Some address => Some address
        | None => originalFrom
        end in
      let quoted : outcome (option string * option string) :=
        if quote options then
          match getMessageBody originalMessage with
          | Throw e => Throw e
          | Return originalBody =>
              let replyBodyTxt :=
                match when_truthy (bodyTxt options), truthy_string (text originalBody) with
                | Some bodyTxt, true =>
                    Some (bodyTxt +:+ nl +:+ nl +:+ "On " +:+
                          interpolate (getHeader originalMessage "Date") +:+ ", " +:+
                          interpolate originalFrom +:+ " wrote:" +:+ nl +:+
                          quoteText (text originalBody))
                | _, _ => bodyTxt options
                end in
              let replyBodyHtml :=
                match when_truthy (bodyHtml options), truthy_string (html originalBody) with
                | Some bodyHtml, true =>
                    Some (bodyHtml +:+ "<br><br><blockquote>" +:+
                          html originalBody +:+ "</blockquote>")
                | _, _ => bodyHtml options
                end in
              Return (replyBodyTxt, replyBodyHtml)
          end
        else Return (bodyTxt options, bodyHtml options) in
      match quoted with
      | Throw e => Throw e
      | Return (replyBodyTxt, replyBodyHtml) =>
          Return {| to := to; from := None; subject := Some subject;
                    bodyTxt := replyBodyTxt; bodyHtml := replyBodyHtml;
                    cc := None; bcc := None;
                    attachments := attachments options;
                    headers := Some [("In-Reply-To", originalMessageId);
                                     ("References", references)];
                    messageId := EmptyString; quote := false; draft := false |}
      end
  end.

(** ** The world

    The state of the process (module variables), of the local file system
    and clock, and the answers of the services. [oauth_app] is what
    [loadCredentials()] yields: it reads [config.json] and the credentials
    file it names, which the program never writes. *)
Record World := {
  clock : Z;
  files : gmap string File;
  oauth_app : outcome AppCredentials;
  currentProfile : string;
  gmailClient : option OAuth2Client;
  labelCache : option (list Label);
  refresh_reply : OAuth2Client → outcome Credentials;
  labels_reply : outcome (option (list Label));
  message_reply : string → outcome Message;
  draft_reply : string → option string → outcome DraftData;
  send_reply : string → option string → outcome SentData;
  events : list Event
}.

Definition set_files (fs : gmap string File) (w : World) : World :=
  {| clock := clock w; files := fs; oauth_app := oauth_app w;
     currentProfile := currentProfile w; gmailClient := gmailClient w;
     labelCache := labelCache w; refresh_reply := refresh_reply w;
     labels_reply := labels_reply w; message_reply := message_reply w;
     draft_reply := draft_reply w; send_reply := send_reply w;
     events := events w |}.

Definition set_gmailClient (c : option OAuth2Client) (w : World) : World :=
  {| clock := clock w; files := files w; oauth_app := oauth_app w;
     currentProfile := currentProfile w; gmailClient := c;
     labelCache := labelCache w; refresh_reply := refresh_reply w;
     labels_reply := labels_reply w; message_reply := message_reply w;
     draft_reply := draft_reply w; send_reply := send_reply w;
     events := events w |}.

Definition set_labelCache (c : option (list Label)) (w : World) : World :=
  {| clock := clock w; files := files w; oauth_app := oauth_app w;
     currentProfile := currentProfile w; gmailClient := gmailClient w;
     labelCache := c; refresh_reply := refresh_reply w;
     labels_reply := labels_reply w; message_reply := message_reply w;
     draft_reply := draft_reply w; send_reply := send_reply w;
     events := events w |}.

Definition set_currentProfile (p : string) (w : World) : World :=
  {| clock := clock w; files := files w; oauth_app := oauth_app w;
     currentProfile := p; gmailClient := gmailClient w;
     labelCache := labelCache w; refresh_reply := refresh_reply w;
     labels_reply := labels_reply w; message_reply := message_reply w;
     draft_reply := draft_reply w; send_reply := send_reply w;
     events := events w |}.

Definition add_event (e : Event) (w : World) : World :=
  {| clock := clock w; files := files w; oauth_app := oauth_app w;
     currentProfile := currentProfile w; gmailClient := gmailClient w;
     labelCache := labelCache w; refresh_reply := refresh_reply w;
     labels_reply := labels_reply w; message_reply := message_reply w;
     draft_reply := draft_reply w; send_reply := send_reply w;
     events := events w ++ [e] |}.

(** ** The monad of the program *)

Definition M (A : Type) : Type := World → outcome A * World.

Definition ret {A} (a : A) : M A := λ w, (Return a, w).

Definition bind {A B} (m : M A) (k : A → M B) : M B := λ w,
  match m w with
  | (Return a, w') => k a w'
  | (Throw e, w') => (Throw e, w')
  end.

Notation "'let*' x ':=' m 'in' k" := (bind m (λ x, k))
  (at level 10, x name, m at level 200, k at level 200, only parsing).

Definition throw {A} (e : exn) : M A := λ w, (Throw e, w).

(** [try { m } catch (error) { h error }] *)
Definition try_catch {A} (m : M A) (h : exn → M A) : M A := λ w,
  match m w with
  | (Return a, w') => (Return a, w')
  | (Throw e, w') => h e w'
  end.

Definition gets {A} (proj : World → A) : M A := λ w, (Return (proj w), w).
Definition modify (f : World → World) : M unit := λ w, (Return tt, f w).
Definition emit (e : Event) : M unit := modify (add_event e).

(** An answer of a service, or of a part of the world that may throw. *)
Definition lift {A} (ask : World → outcome A) : M A := λ w, (ask w, w).

(** ** Sample platform, tokens and worlds

    Concrete inputs on which the statements below are run. *)

Definition sample_home : string := "/home/alice".
Definition posix_join (segments : list string) : string := join "/" segments.
Definition sample_json_size (token : Credentials) : Z := 256.

Definition sample_token_path : string :=
  "/home/alice/.config/gmail/default.token.json".

Definition sample_app : AppCredentials :=
  {| client_id := Some "app.apps.example"; client_secret := Some "s3cret" |}.

(** Tokens that expired in 2023, at the epoch, and that expire in 2033. *)
Definition expired_token : Credentials :=
  {| access_token := Some "old"; refresh_token := Some "r1";
     expiry_date := Some 1700000000000; scope := None |}.

Definition epoch_token : Credentials :=
  {| access_token := Some "old"; refresh_token := Some "r1";
     expiry_date := Some 0; scope := None |}.

Definition valid_token : Credentials :=
  {| access_token := Some "live"; refresh_token := Some "r1";
     expiry_date := Some 2000000000000; scope := None |}.

Definition fresh_token : Credentials :=
  {| access_token := Some "new"; refresh_token := Some "r1";
     expiry_date := Some 1800003600000; scope := None |}.

(** A world whose clock reads a day of 2027, with one token file and a
    provider that answers a refresh as told. *)
Definition sample_world (token : option Credentials)
    (refresh : outcome Credentials) : World :=
  {| clock := 1800000000000;
     files := match token with
              | Some t => {[ sample_token_path :=
                               {| file_size := 256; file_json := Some t |} ]}
              | None => ∅
              end;
     oauth_app := Return sample_app;
     currentProfile := "default";
     gmailClient := None;
     labelCache := None;
     refresh_reply := λ _, refresh;
     labels_reply := Return None;
     message_reply := λ _, Throw (Error "Requested entity was not found.");
     draft_reply := λ _ _, Throw (Error "Precondition check failed.");
     send_reply := λ _ _, Throw (Error "Precondition check failed.");
     events := [] |}.

Definition world_expired : World :=
  sample_world (Some expired_token) (Return fresh_token).
Definition world_revoked : World :=
  sample_world (Some expired_token) (Throw (Error "invalid_grant")).
Definition world_valid : World :=
  sample_world (Some valid_token) (Return fresh_token).
Definition world_epoch : World :=
  sample_world (Some epoch_token) (Return fresh_token).
Definition world_logged_out : World :=
  sample_world None (Throw (Error "invalid_grant")).

(** The error of [loadConfig] when there is no [config.json]. *)
Definition ConfigNotFoundError : exn :=
  Error ("Config file not found at /home/alice/.config/gmail/config.json" +:+ nl +:+
         "Please create it with a profiles section").

(** A stored token that is still valid, and no configuration. *)
Definition world_unconfigured : World :=
  {| clock := 1800000000000;
     files := {[ sample_token_path := {| file_size := 256; file_json := Some valid_token |} ]};
     oauth_app := Throw ConfigNotFoundError;
     currentProfile := "default";
     gmailClient := None;
     labelCache := None;
     refresh_reply := λ _, Return fresh_token;
     labels_reply := Return None;
     message_reply := λ _, Throw (Error "Requested entity was not found.");
     draft_reply := λ _ _, Throw (Error "Precondition check failed.");
     send_reply := λ _ _, Throw (Error "Precondition check failed.");
     events := [] |}.

(** A token file that does not hold JSON. *)
Definition world_garbled : World :=
  {| clock := 1800000000000;
     files := {[ sample_token_path := {| file_size := 3; file_json := None |} ]};
     oauth_app := Return sample_app;
     currentProfile := "default";
     gmailClient := None;
     labelCache := None;
     refresh_reply := λ _, Return fresh_token;
     labels_reply := Return None;
     message_reply := λ _, Throw (Error "Requested entity was not found.");
     draft_reply := λ _ _, Throw (Error "Precondition check failed.");
     send_reply := λ _ _, Throw (Error "Precondition check failed.");
     events := [] |}.

(** A token with no [expiry_date]. *)
Definition undated_token : Credentials :=
  {| access_token := Some "live"; refresh_token := Some "r1";
     expiry_date := None; scope := None |}.

Definition world_undated : World :=
  sample_world (Some undated_token) (Return fresh_token).

Definition sample_client : OAuth2Client :=
  {| app_id := client_id sample_app; app_secret := client_secret sample_app;
     redirect_uri := "http://localhost:3000"; credentials := Some valid_token |}.

(** The carriage return and line feed of a raw message. *)
Definition CRLF : string := String CR (String LF EmptyString).

(** A renderer that stands for nodemailer on the samples: three header
    lines, an empty line and the text. *)
Definition sample_render (cfg : MessageConfig) : string :=
  "To: " +:+ interpolate (mc_to cfg) +:+ CRLF +:+
  "Subject: " +:+ interpolate (mc_subject cfg) +:+ CRLF +:+
  "MIME-Version: 1.0" +:+ CRLF +:+ CRLF +:+
  interpolate (mc_text cfg).

Definition sample_mailer (w : World) (cfg : MessageConfig) : outcome string :=
  Return (sample_render cfg).

(** A transport that fails on every message with attachments, as
    nodemailer does when it reads a path that is a directory. *)
Definition DirectoryError : exn :=
  Error "EISDIR: illegal operation on a directory, read".

Definition directory_mailer (w : World) (cfg : MessageConfig) : outcome string :=
  match mc_attachments cfg with
  | Some _ => Throw DirectoryError
  | None => Return (sample_render cfg)
  end.





Definition sample_send : Options :=
  {| to := Some "bob@example.org"; from := None; subject := Some "Report";
     bodyTxt := Some "Numbers attached? Not yet."; bodyHtml := None;
     cc := None; bcc := None; attachments := None; headers := None;
     messageId := EmptyString; quote := false; draft := false |}.

Definition send_with (paths : list string) : Options :=
  {| to := Some "bob@example.org"; from := None; subject := Some "Report";
     bodyTxt := Some "See the files."; bodyHtml := None;
     cc := None; bcc := None; attachments := Some paths; headers := None;
     messageId := EmptyString; quote := false; draft := false |}.

(** A reply to the message [m1], with a plain body, an HTML body or both. *)
Definition sample_reply (txt htm : option string) (quoting : bool) : Options :=
  {| to := None; from := None; subject := None; bodyTxt := txt; bodyHtml := htm;
     cc := None; bcc := None; attachments := None; headers := None;
     messageId := "m1"; quote := quoting; draft := false |}.

Definition thanks : Options := sample_reply (Some "Thanks") None false.
Definition thanks_both : Options :=
  sample_reply (Some "Thanks") (Some "<p>Thanks</p>") true.
Definition thanks_html : Options := sample_reply None (Some "<p>Thanks</p>") true.

Definition leaf (type data : string) : Part :=
  MkPart type [] (Some {| data := Some data |}) None.

Definition multipart (type : string) (hs : list Header) (children : list Part) : Part :=
  MkPart type hs (Some {| data := None |}) (Some children).

(** An original with the given headers, the plain body of the two lines
    [a] and [b], and the HTML body [<p>a</p>]. *)
Definition original (hs : list Header) : Message :=
  {| threadId := Some "t1";
     payload := multipart "multipart/alternative" hs
                  [leaf "text/plain" "YQpi"; leaf "text/html" "PHA-YTwvcD4"] |}.

Definition first_message : Message :=
  original [ {| name := "Message-ID"; value := "<abc@x>" |};
             {| name := "Subject"; value := "Report" |};
             {| name := "From"; value := "Bob <bob@example.org>" |};
             {| name := "Date"; value := "Mon, 1 Jan 2024 10:00:00 +0000" |} ].

Definition threaded_message : Message :=
  original [ {| name := "Message-Id"; value := "<abc@x>" |};
             {| name := "References"; value := "<a@x> <b@x>" |};
             {| name := "Subject"; value := "Re: Report" |};
             {| name := "From"; value := "bob@example.org" |} ].

Definition shouted_message : Message :=
  original [ {| name := "Message-ID"; value := "<abc@x>" |};
             {| name := "Subject"; value := "RE: Report" |} ].

Definition anonymous_message : Message :=
  original [ {| name := "Subject"; value := "Report" |} ].

(** Originals whose Message-ID, or whose References, is there and empty. *)
Definition blank_id_message : Message :=
  original [ {| name := "Message-ID"; value := EmptyString |};
             {| name := "Subject"; value := "Report" |} ].

Definition blank_references_message : Message :=
  original [ {| name := "Message-ID"; value := "<abc@x>" |};
             {| name := "References"; value := EmptyString |} ].

(** A message with a plain part, then an alternative with a second plain
    part and an HTML part: the texts are [first], [second] and [<b>x</b>]. *)
Definition nested_message : Message :=
  {| threadId := Some "t2";
     payload := multipart "multipart/mixed" []
       [ leaf "text/plain" "Zmlyc3Q";
         multipart "multipart/alternative" []
           [ leaf "text/plain" "c2Vjb25k"; leaf "text/html" "PGI-eDwvYj4" ] ] |}.

Definition sample_labels : list Label :=
  [ {| label_id := "Label_1"; label_name := "work" |};
    {| label_id := "Label_2"; label_name := "Work" |};
    {| label_id := "Label_3"; label_name := "Workshop" |};
    {| label_id := "Label_4"; label_name := "Work" |} ].

(** A world with a session open, where the provider holds one message
    under the identifier [m1], with a label cache and files as given. *)
Definition mail_world (message : Message) (cache : option (list Label))
    (fs : gmap string File) : World :=
  {| clock := 1800000000000;
     files := fs;
     oauth_app := Return sample_app;
     currentProfile := "default";
     gmailClient := Some sample_client;
     labelCache := cache;
     refresh_reply := λ _, Throw (Error "invalid_grant");
     labels_reply := Return (Some sample_labels);
     message_reply := λ id, if String.eqb id "m1" then Return message
                            else Throw (Error "Requested entity was not found.");
     draft_reply := λ _ thread, Return {| draft_id := "d1"; draft_thread := thread |};
     send_reply := λ _ thread, Return {| sent_id := "s1"; sent_thread := thread |};
     events := [] |}.

(** Two files of 20 MB and one of 40 MB. *)
Definition sample_files : gmap string File :=
  {[ "/tmp/a.bin" := {| file_size := 20971520; file_json := None |};
     "/tmp/b.bin" := {| file_size := 20971520; file_json := None |};
     "/tmp/huge.iso" := {| file_size := 41943040; file_json := None |} ]}.

Definition world_files : World := mail_world first_message None sample_files.
Definition world_cached : World := mail_world first_message (Some sample_labels) ∅.
Definition world_uncached : World := mail_world first_message None ∅.

(** A session open, labels cached, and a valid token stored. *)
Definition world_session : World :=
  mail_world first_message (Some sample_labels)
    {[ sample_token_path := {| file_size := 256; file_json := Some valid_token |} ]}.

(** An original with a Message-ID, an HTML part and a plain part that has
    no [body]. *)
Definition hollow_message : Message :=
  {| threadId := Some "t3";
     payload := multipart "multipart/mixed"
       [ {| name := "Message-ID"; value := "<h@x>" |} ]
       [ leaf "text/html" "PGI-eDwvYj4"; MkPart "text/plain" [] None None ] |}.

(** A plain part that reads [first], then an HTML part with no [body]. *)
Definition bodyless_html_message : Message :=
  {| threadId := Some "t4";
     payload := multipart "multipart/mixed" []
       [ leaf "text/plain" "Zmlyc3Q"; MkPart "text/html" [] None None ] |}.

(** A message with no parts and no [body]. *)
Definition bare_message : Message :=
  {| threadId := None; payload := MkPart "text/plain" [] None None |}.

(** The request [sample_send] as a draft, and a reply with files. *)
Definition sample_draft : Options :=
  {| to := Some "bob@example.org"; from := None; subject := Some "Report";
     bodyTxt := Some "Numbers attached? Not yet."; bodyHtml := None;
     cc := None; bcc := None; attachments := None; headers := None;
     messageId := EmptyString; quote := false; draft := true |}.

Definition thanks_draft : Options :=
  {| to := None; from := None; subject := None; bodyTxt := Some "Thanks";
     bodyHtml := None; cc := None; bcc := None; attachments := None;
     headers := None; messageId := "m1"; quote := false; draft := true |}.

Definition thanks_with (paths : list string) : Options :=
  {| to := None; from := None; subject := None; bodyTxt := Some "Thanks";
     bodyHtml := None; cc := None; bcc := None; attachments := Some paths;
     headers := None; messageId := "m1"; quote := false; draft := false |}.

(** The provider on the samples of the status check: an account, its
    scopes or a refusal, and a date printed as its number. *)
Definition sample_profile (w : World) (client : OAuth2Client) : outcome string :=
  Return "alice@example.org".

Definition sample_scopes : list string :=
  ["https://www.googleapis.com/auth/gmail.send";
   "https://www.googleapis.com/auth/gmail.readonly"].

Definition sample_token_info (w : World) (client : OAuth2Client)
    (accessToken : option string) : outcome (option (list string)) :=
  Return (Some sample_scopes).

Definition no_token_info (w : World) (client : OAuth2Client)
    (accessToken : option string) : outcome (option (list string)) :=
  Throw (Error "invalid_token").

Definition sample_locale (e : Z) : string :=
  "ms " +:+ NilZero.string_of_int (Z.to_int e).

(** ** src/lib/auth.js *)

Section Platform.

(** Node's [os.homedir()] and [path.join], the byte length of
    [JSON.stringify(token, null, 2)], and what nodemailer's stream
    transport does with a configuration: the bytes of the raw message it
    renders, or the error with which [transport.sendMail] rejects or the
    read of [info.message] fails (an attachment that is a directory passes
    [existsSync] and [statSync] and fails here). Nothing is assumed of
    them. *)
Variable homedir : string.
Variable path_join : list string → string.
Variable JSON_stringify_size : Credentials → Z.
Variable nodemailer : World → MessageConfig → outcome string.

Definition CONFIG_DIR : string := path_join [homedir; ".config"; "gmail"].

Definition REDIRECT_URI : string := "http://localhost:3000".

Definition setProfile (profileName : string) : M unit :=
  modify (set_currentProfile profileName).

Definition getProfile : M string := gets currentProfile.

Definition getTokenFile : M string :=
  let* profile := gets currentProfile in
  ret (path_join [CONFIG_DIR; profile +:+ ".token.json"]).

(** [fs.existsSync] *)
Definition existsSync (path : string) : M bool :=
  gets (λ w, bool_decide (is_Some (files w !! path))).

(** [JSON.parse(readFileSync(path, 'utf8'))] inside a [try] whose handler
    yields [null]. *)
Definition readJson (path : string) : M (option Credentials) :=
  gets (λ w, files w !! path ≫= file_json).

Definition writeFileSync (path : string) (f : File) : M unit :=
  let* _ := emit (WriteFile path f) in
  modify (λ w, set_files (<[path := f]> (files w)) w).

Definition unlinkSync (path : string) : M unit :=
  let* _ := emit (Unlink path) in
  modify (λ w, set_files (delete path (files w)) w).

Definition console_log (line : string) : M unit := emit (ConsoleLog line).

Definition loadCredentials : M AppCredentials := lift oauth_app.

Definition createOAuth2Client : M OAuth2Client :=
  let* credentials := loadCredentials in
  ret {| app_id := client_id credentials;
          app_secret := client_secret credentials;
          redirect_uri := REDIRECT_URI;
          credentials := None |}.

Definition setCredentials (c : OAuth2Client) (token : Credentials) : OAuth2Client :=
  {| app_id := app_id c; app_secret := app_secret c;
     redirect_uri := redirect_uri c; credentials := Some token |}.

(** [oauth2Client.refreshAccessToken()]: one call to the provider. *)
Definition refreshAccessToken (c : OAuth2Client) : M Credentials :=
  let* _ := emit (RefreshAccessToken c) in
  lift (λ w, refresh_reply w c).

Definition loadToken : M (option Credentials) :=
  let* tokenFile := getTokenFile in
  let* present := existsSync tokenFile in
  if present then readJson tokenFile else ret None.

(** The directory tree is not tracked: [mkdirSync] changes nothing here. *)
Definition saveToken (token : Credentials) : M unit :=
  let* tokenFile := getTokenFile in
  writeFileSync tokenFile
    {| file_size := JSON_stringify_size token; file_json := Some token |}.

Definition NotAuthenticatedError : exn :=
  Error "Not authenticated. Please run: gmail auth login".

Definition TokenRefreshError : exn :=
  Error "Token expired and refresh failed. Please run: gmail auth login".

(** [token.expiry_date && token.expiry_date < Date.now()] *)
Definition needs_refresh (token : Credentials) (now : Z) : bool :=
  match expiry_date token with
  | Some e => truthy_number e && (e <? now)
  | None => false
  end.

Definition getAuthClient : M OAuth2Client :=
  let* oauth2Client := createOAuth2Client in
  let* token := loadToken in
  match token with
  | None => throw NotAuthenticatedError
  | Some token =>
      let oauth2Client := setCredentials oauth2Client token in
      let* now := gets clock in
      if needs_refresh token now then
        try_catch
          (let* credentials := refreshAccessToken oauth2Client in
           let* _ := saveToken credentials in
           ret (setCredentials oauth2Client credentials))
          (λ _, throw TokenRefreshError)
      else ret oauth2Client
  end.

Definition logout : M unit :=
  let* tokenFile := getTokenFile in
  let* present := existsSync tokenFile in
  if present then
    let* _ := unlinkSync tokenFile in
    console_log "✓ Logged out successfully"
  else
    console_log "Not currently logged in".

(** ** src/lib/gmail.js: the session and the label cache *)

Definition getGmailClient : M OAuth2Client :=
  let* cached := gets gmailClient in
  match cached with
  | Some gmail => ret gmail
  | None =>
      let* auth := getAuthClient in
      let* _ := modify (set_gmailClient (Some auth)) in
      ret auth
  end.

Definition resetGmailClient : M unit :=
  let* _ := modify (set_gmailClient None) in
  modify (set_labelCache None).

(** [gmail.users.labels.list({ userId: 'me' })], down to [response.data.labels]. *)
Definition labels_list : M (option (list Label)) :=
  let* _ := emit LabelsList in
  lift labels_reply.

Definition getLabels (refresh : bool) : M (list Label) :=
  let* cache := gets labelCache in
  match cache, refresh with
  | Some labels, false => ret labels
  | _, _ =>
      let* gmail := getGmailClient in
      let* labels := labels_list in
      let fetched := default [] labels in
      let* _ := modify (set_labelCache (Some fetched)) in
      ret fetched
  end.

Definition LabelNotFoundError (labelName : string) (known : list string) : exn :=
  Error ("Label " +:+ dq +:+ labelName +:+ dq +:+ " not found" +:+ nl +:+
         "Available labels: " +:+ join ", " known +:+ nl +:+
         "Use 'gmail label list' to see all labels").

Definition getLabelIdByName (labelName : string) : M string :=
  let* labels := getLabels false in
  match List.find (λ l, String.eqb (label_name l) labelName) labels with
  | None => throw (LabelNotFoundError labelName (map label_name labels))
  | Some label => ret (label_id label)
  end.

(** ** src/lib/email-sender.js: validation, composition, delivery *)

(** [statSync(filePath).size] of a file that exists. *)
Definition stat_size (filePath : string) : M Z :=
  gets (λ w, from_option file_size 0 (files w !! filePath)).

Definition validateAttachment (filePath : string) : M Z :=
  let* present := existsSync filePath in
  if negb present then throw (AttachmentNotFoundError filePath)
  else
    let* size := stat_size filePath in
    if size >? MAX_MESSAGE_SIZE then throw (AttachmentTooLargeError filePath size)
    else ret size.

(** [attachments.map(filePath => { ... })]: the callback validates one
    path and adds its size to [totalSize], which is threaded here. *)
Fixpoint validate_all (attachments : list string) (totalSize : Z) : M Z :=
  match attachments with
  | [] => ret totalSize
  | filePath :: rest =>
      let* size := validateAttachment filePath in
      validate_all rest (totalSize + size)
  end.

(** The block that adds the attachments (lines 57 to 70): every path is
    validated, then the total is compared with the limit. *)
Definition checkAttachments (attachments : option (list string))
  : M (option (list string)) :=
  match attachments with
  | Some (filePath :: rest) =>
      let* totalSize := validate_all (filePath :: rest) 0 in
      if totalSize >? MAX_MESSAGE_SIZE then throw (MessageTooLargeError totalSize)
      else ret (Some (filePath :: rest))
  | _ => ret None
  end.

(** The configuration is handed to [transport.sendMail] and the stream
    of the message is read to its end: either step may throw, and the
    error then leaves [buildMimeMessage] as it is. *)
Definition buildMimeMessage (options : Options) : M string :=
  let* checked := checkAttachments (attachments options) in
  let messageConfig := messageConfig options checked in
  let* _ := emit (SendMail messageConfig) in
  let* stream := lift (λ w, nodemailer w messageConfig) in
  let rawMessage := Buffer_toString_utf8 stream in
  ret (encodeBase64Url rawMessage).

Definition createDraft (encodedMessage : string) (threadId : option string)
  : M DraftData :=
  let thread := when_truthy threadId in
  let* _ := emit (DraftsCreate encodedMessage thread) in
  lift (λ w, draft_reply w encodedMessage thread).

Definition messages_send (raw : string) (threadId : option string) : M SentData :=
  let* _ := emit (MessagesSend raw threadId) in
  lift (λ w, send_reply w raw threadId).

(** The [catch] of [sendEmail] and of [replyToEmail] stops the spinner and
    throws the error again. *)
Definition sendEmail (options : Options) : M Delivery :=
  let* gmail := getGmailClient in
  let* encodedMessage := buildMimeMessage options in
  if draft options then
    let* draftData := createDraft encodedMessage None in
    ret (Drafted draftData (getDraftGmailUrl (draft_id draftData)))
  else
    let* response := messages_send encodedMessage None in
    ret (Sent response).

(** [gmail.users.messages.get({ userId: 'me', id, format: 'full' })] *)
Definition messages_get (id : string) : M Message :=
  let* _ := emit (MessagesGet id) in
  lift (λ w, message_reply w id).

Definition replyToEmail (options : Options) : M Delivery :=
  let* gmail := getGmailClient in
  let* originalMessage := messages_get (messageId options) in
  let* reply := lift (λ _, replyOptions options originalMessage) in
  let* encodedMessage := buildMimeMessage reply in
  let threadId := threadId originalMessage in
  if draft options then
    let* draftData := createDraft encodedMessage threadId in
    ret (Drafted draftData (getDraftGmailUrl (draft_id draftData)))
  else
    let* response := messages_send encodedMessage threadId in
    ret (Sent response).

(** ** src/lib/auth.js: the status check

    The answers of [gmail.users.getProfile] (the address of the account)
    and of [oauth2Client.getTokenInfo] (the scopes, when it gives any),
    and [Date.prototype.toLocaleString]. These two calls are not kept in
    [events]. *)
Variable users_getProfile : World → OAuth2Client → outcome string.
Variable getTokenInfo : World → OAuth2Client → option string → outcome (option (list string)).
Variable toLocaleString : Z → string.

(** [scopes.forEach(scope => console.log(` - ${scope}`))] *)
Fixpoint log_each_scope (scopes : list string) : M unit :=
  match scopes with
  | [] => ret tt
  | scope :: rest =>
      let* _ := console_log (" - " +:+ scope) in
      log_each_scope rest
  end.

Definition log_scopes (scopes : option (list string)) : M unit :=
  match scopes with
  | Some l => log_each_scope l
  | None => console_log " - Unknown"
  end.

Definition CannotReadAccessToken : exn :=
  TypeError "Cannot read properties of null (reading 'access_token')".

(** The two hints, with their double quotes. *)
Definition login_hint : string :=
  "Run " +:+ dq +:+ "gmail auth login" +:+ dq +:+ " to authenticate".

Definition relogin_hint : string :=
  "Run " +:+ dq +:+ "gmail auth login" +:+ dq +:+ " to re-authenticate".

Definition checkStatus : M unit :=
  let* initialToken := loadToken in
  match initialToken with
  | None =>
      let* _ := console_log "Status: Not authenticated" in
      console_log login_hint
  | Some _ =>
      try_catch
        (let* oauth2Client := getAuthClient in
         let* emailAddress := lift (λ w, users_getProfile w oauth2Client) in
         let* _ := console_log "Status: Authenticated" in
         let* _ := console_log ("Email: " +:+ emailAddress) in
         let* token := loadToken in
         match token with
         | None => throw CannotReadAccessToken
         | Some token =>
             let* tokenInfo :=
               lift (λ w, getTokenInfo w oauth2Client (access_token token)) in
             let* _ := console_log "Scopes:" in
             let* _ := log_scopes tokenInfo in
             match expiry_date token with
             | Some e =>
                 if truthy_number e
                 then console_log ("Token expires: " +:+ toLocaleString e)
                 else ret tt
             | None => ret tt
             end
         end)
        (λ _,
           let* _ := console_log "Status: Token expired or invalid" in
           console_log relogin_hint)
  end.

(** ** What the statements count *)

Definition is_send (e : Event) : bool :=
  match e with MessagesSend _ _ => true | _ => false end.

Definition is_draft (e : Event) : bool :=
  match e with DraftsCreate _ _ => true | _ => false end.

Definition is_mail (e : Event) : bool :=
  match e with SendMail _ => true | _ => false end.

(** The path of the token file of a profile. *)
Definition tokenFileOf (profile : string) : string :=
  path_join [CONFIG_DIR; profile +:+ ".token.json"].


Definition is_refresh (e : Event) : bool :=
  match e with RefreshAccessToken _ => true | _ => false end.

Definition is_write (e : Event) : bool :=
  match e with WriteFile _ _ => true | _ => false end.

Definition is_labels_list (e : Event) : bool :=
  match e with LabelsList => true | _ => false end.

(** The calls of one kind made so far. *)
Definition calls (kind : Event → bool) (w : World) : nat :=
  length (filter (λ e, kind e = true) (events w)).

(** A message was handed to nodemailer between two worlds. *)
Definition hands_over (before after : World) (cfg : MessageConfig) : Prop :=
  In (SendMail cfg) (events after) ∧ ¬ In (SendMail cfg) (events before).

(** The path [getTokenFile()] yields in a world. *)
Definition tokenFile (w : World) : string :=
  path_join [CONFIG_DIR; currentProfile w +:+ ".token.json"].

(** A path names a file that is there and within the limit. *)
Definition passes (w : World) (filePath : string) : Prop :=
  ∃ f, files w !! filePath = Some f ∧ file_size f ≤ MAX_MESSAGE_SIZE.

(** The sum of the sizes of the files of a list of paths. *)
Definition total_size (w : World) (paths : list string) : Z :=
  fold_right (λ p acc, from_option file_size 0 (files w !! p) + acc) 0 paths.

(** How a query is resolved over a list of labels: the identifier of the
    first label whose name is the query, or the error with every name of
    the list when no label has that name. *)
Definition resolves (labelName : string) (labels : list Label)
    (result : outcome string) : Prop :=
  (∀ before label after,
     labels = before ++ label :: after →
     label_name label = labelName →
     Forall (λ l, label_name l ≠ labelName) before →
     result = Return (label_id label)) ∧
  (Forall (λ l, label_name l ≠ labelName) labels →
     result = Throw (LabelNotFoundError labelName (map label_name labels))).

(** The client [createOAuth2Client()] builds for an application. *)
Definition client_of (app : AppCredentials) : OAuth2Client :=
  {| app_id := client_id app; app_secret := client_secret app;
     redirect_uri := REDIRECT_URI; credentials := None |}.

(** What [saveToken] writes for a token. *)
Definition saved_token (token : Credentials) : File :=
  {| file_size := JSON_stringify_size token; file_json := Some token |}.

(** The world after the lines were printed, first to last. *)
Definition logged (lines : list string) (w : World) : World :=
  fold_left (λ w line, add_event (ConsoleLog line) w) lines w.

(** What the status check prints for the scopes and for the expiry of a
    token. *)
Definition scope_lines (scopes : option (list string)) : list string :=
  match scopes with
  | Some l => map (λ scope, " - " +:+ scope) l
  | None => [" - Unknown"]
  end.

Definition expiry_lines (token : Credentials) : list string :=
  match expiry_date token with
  | Some e => if e =? 0 then [] else ["Token expires: " +:+ toLocaleString e]
  | None => []
  end.

(** The delivery calls made so far: drafts created and messages sent. *)
Definition deliveries (w : World) : nat :=
  (calls is_draft w + calls is_send w)%nat.

(** The attachments can go: every file is there and within the limit, and
    so is their total. *)
Definition acceptable (w : World) (paths : list string) : Prop :=
  Forall (passes w) paths ∧ total_size w paths ≤ MAX_MESSAGE_SIZE.

(** ** Facts: buffers *)

Lemma append_nil_l (a : string) : EmptyString +:+ a = a.
Proof. reflexivity. Qed.

Lemma append_cons x (a b : string) : String x a +:+ b = String x (a +:+ b).
Proof. reflexivity. Qed.

Lemma append_assoc (a b c : string) : (a +:+ b) +:+ c = a +:+ (b +:+ c).
Proof.
  induction a as [|x a IH]; [reflexivity |].
  rewrite !append_cons. now rewrite IH.
Qed.

Lemma append_nil_r (a : string) : a +:+ EmptyString = a.
Proof.
  induction a as [|x a IH]; [reflexivity |].
  rewrite append_cons. now rewrite IH.
Qed.

(** Moves the characters of a literal out of an append. *)
Ltac push_append := rewrite ?append_cons, ?append_nil_l.

Lemma utf8_text_append (a b : string) :
  utf8_text a → utf8_text b → utf8_text (a +:+ b).
Proof.
  induction 1 as [|c s Hc Hs IH]; intros Hb; [exact Hb |].
  rewrite append_assoc. constructor; auto.
Qed.

Lemma utf8_text_char (c : string) : utf8_char c → utf8_text c.
Proof.
  intros Hc. rewrite <- (append_nil_r c). constructor; [exact Hc | constructor].
Qed.

Lemma utf8_text_REPLACEMENT : utf8_text REPLACEMENT.
Proof. apply utf8_text_char. unfold REPLACEMENT. apply utf8_char3; reflexivity. Qed.

(** The ranges of the first bytes are disjoint. *)
Lemma in_range_disjoint lo hi lo' hi' b :
  (hi < lo')%N → in_range lo' hi' b = true → in_range lo hi b = false.
Proof.
  unfold in_range. intros Hlt H.
  apply andb_true_iff in H as [H1 H2].
  apply N.leb_le in H1. apply andb_false_iff. right. apply N.leb_gt. lia.
Qed.

Lemma utf8_lead_1 b :
  in_range 0 127 b = true → utf8_lead b = (String b EmptyString, Start).
Proof. intros H. unfold utf8_lead. now rewrite H. Qed.

Lemma utf8_lead_2 b :
  in_range 194 223 b = true →
  utf8_lead b = (EmptyString, Inside (String b EmptyString) 1 128 191).
Proof.
  intros H. unfold utf8_lead.
  rewrite (in_range_disjoint 0 127 194 223) by (done || lia). now rewrite H.
Qed.

Lemma utf8_lead_3 b :
  in_range 224 239 b = true →
  utf8_lead b =
    (EmptyString, Inside (String b EmptyString) 2 (second_lower b) (second_upper b)).
Proof.
  intros H. unfold utf8_lead.
  rewrite (in_range_disjoint 0 127 224 239) by (done || lia).
  rewrite (in_range_disjoint 194 223 224 239) by (done || lia). now rewrite H.
Qed.

Lemma utf8_lead_4 b :
  in_range 240 244 b = true →
  utf8_lead b =
    (EmptyString, Inside (String b EmptyString) 3 (second_lower b) (second_upper b)).
Proof.
  intros H. unfold utf8_lead.
  rewrite (in_range_disjoint 0 127 240 244) by (done || lia).
  rewrite (in_range_disjoint 194 223 240 244) by (done || lia).
  rewrite (in_range_disjoint 224 239 240 244) by (done || lia). now rewrite H.
Qed.

(** The decoder copies a well-formed character and goes on. *)
Lemma utf8_scan_char (c rest : string) :
  utf8_char c → utf8_scan Start (c +:+ rest) = c +:+ utf8_scan Start rest.
Proof.
  destruct 1 as [b H1 | b1 b2 H1 H2 | b1 b2 b3 H1 H2 H3 | b1 b2 b3 b4 H1 H2 H3 H4];
    push_append; cbn [utf8_scan utf8_step].
  - now rewrite (utf8_lead_1 _ H1).
  - rewrite (utf8_lead_2 _ H1). cbn [utf8_scan utf8_step]. now rewrite H2.
  - rewrite (utf8_lead_3 _ H1). cbn [utf8_scan utf8_step]. rewrite H2.
    cbn [utf8_scan utf8_step]. now rewrite H3.
  - rewrite (utf8_lead_4 _ H1). cbn [utf8_scan utf8_step]. rewrite H2.
    cbn [utf8_scan utf8_step]. rewrite H3.
    cbn [utf8_scan utf8_step]. now rewrite H4.
Qed.

Lemma utf8_scan_text (s : string) : utf8_text s → utf8_scan Start s = s.
Proof.
  induction 1 as [|c s Hc Hs IH]; [reflexivity |].
  now rewrite utf8_scan_char, IH.
Qed.

Lemma utf8_lead_pending b :
  utf8_text (utf8_lead b).1 ∧ utf8_pending (utf8_lead b).2.
Proof.
  unfold utf8_lead.
  destruct (in_range 0 127 b) eqn:H1; cbn [fst snd].
  { split; [apply utf8_text_char; now constructor | constructor]. }
  destruct (in_range 194 223 b) eqn:H2; cbn [fst snd].
  { split; [constructor | now constructor]. }
  destruct (in_range 224 239 b) eqn:H3; cbn [fst snd].
  { split; [constructor | now constructor]. }
  destruct (in_range 240 244 b) eqn:H4; cbn [fst snd].
  { split; [constructor | now constructor]. }
  split; [apply utf8_text_REPLACEMENT | constructor].
Qed.

Lemma utf8_step_pending st b :
  utf8_pending st →
  utf8_text (utf8_step st b).1 ∧ utf8_pending (utf8_step st b).2.
Proof.
  assert (Hbad : ∀ out st',
    utf8_lead b = (out, st') →
    utf8_text (REPLACEMENT +:+ out) ∧ utf8_pending st').
  { intros out st' E. pose proof (utf8_lead_pending b) as [Ht Hp].
    rewrite E in Ht, Hp. split; [| exact Hp].
    apply utf8_text_append; [apply utf8_text_REPLACEMENT | exact Ht]. }
  destruct 1; cbn [utf8_step]; try apply utf8_lead_pending;
    match goal with
    | |- context [if in_range ?lo ?hi b then _ else _] =>
        destruct (in_range lo hi b) eqn:Hb
    end;
    try (destruct (utf8_lead b) as [out st'] eqn:E; cbn [fst snd];
         now apply Hbad);
    cbn [fst snd String.rev String.rev_app].
  - split; [apply utf8_text_char; now constructor | constructor].
  - split; [constructor | now constructor].
  - split; [apply utf8_text_char; now constructor | constructor].
  - split; [constructor | now constructor].
  - split; [constructor | now constructor].
  - split; [apply utf8_text_char; now constructor | constructor].
Qed.

Lemma utf8_scan_pending (s : string) st :
  utf8_pending st → utf8_text (utf8_scan st s).
Proof.
  revert st. induction s as [|b s IH]; intros st Hst; cbn [utf8_scan].
  - destruct st; [constructor | apply utf8_text_REPLACEMENT].
  - pose proof (utf8_step_pending st b Hst) as [Ht Hp].
    destruct (utf8_step st b) as [out st']. cbn [fst snd] in Ht, Hp.
    apply utf8_text_append; auto.
Qed.

(** What [toString] yields is well-formed, and decoding well-formed text
    again changes nothing. *)
Lemma Buffer_toString_utf8_text (buf : string) :
  utf8_text (Buffer_toString_utf8 buf).
Proof. apply utf8_scan_pending. constructor. Qed.

Lemma Buffer_toString_utf8_idempotent (buf : string) :
  Buffer_toString_utf8 (Buffer_toString_utf8 buf) = Buffer_toString_utf8 buf.
Proof. apply utf8_scan_text, Buffer_toString_utf8_text. Qed.

(** *** Base64 *)

Lemma in_all_bytes (a : ascii) : In a all_bytes.
Proof.
  unfold all_bytes. rewrite <- (ascii_nat_embedding a).
  apply in_map, in_seq. pose proof (nat_ascii_bounded a). lia.
Qed.

Lemma forall_byte (f : ascii → bool) :
  forallb f all_bytes = true → ∀ a, f a = true.
Proof. intros H a. rewrite forallb_forall in H. apply H, in_all_bytes. Qed.

Lemma forall_byte2 (f : ascii → ascii → bool) :
  forallb (λ a, forallb (f a) all_bytes) all_bytes = true → ∀ a b, f a b = true.
Proof.
  intros H a b. apply (forall_byte (f a)). revert a. apply forall_byte, H.
Qed.

Lemma sextet1_ok a : sextet_ok (sextet1 a) = true.
Proof. revert a. apply forall_byte. vm_compute. reflexivity. Qed.

Lemma sextet2_ok a b : sextet_ok (sextet2 a b) = true.
Proof. revert a b. apply forall_byte2. vm_compute. reflexivity. Qed.

Lemma sextet3_ok b c : sextet_ok (sextet3 b c) = true.
Proof. revert b c. apply forall_byte2. vm_compute. reflexivity. Qed.

Lemma sextet4_ok c : sextet_ok (sextet4 c) = true.
Proof. revert c. apply forall_byte. vm_compute. reflexivity. Qed.

Lemma octet1_sextets a b : octet1 (sextet1 a) (sextet2 a b) = a.
Proof.
  apply Ascii.eqb_eq. revert a b.
  apply (forall_byte2 (λ a b, Ascii.eqb (octet1 (sextet1 a) (sextet2 a b)) a)).
  vm_compute. reflexivity.
Qed.

(** The second byte comes from the low four bits of the second sextet and
    the high four of the third: neither depends on the other bytes. *)
Lemma sextet2_low a b :
  N.land (sextet2 a b) 15 = N.shiftr (byte_val b) 4.
Proof.
  apply N.eqb_eq. revert a b.
  apply (forall_byte2 (λ a b, (N.land (sextet2 a b) 15 =? N.shiftr (byte_val b) 4)%N)).
  vm_compute. reflexivity.
Qed.

Lemma sextet3_high b c :
  N.shiftr (N.land (sextet3 b c) 60) 2 = N.land (byte_val b) 15.
Proof.
  apply N.eqb_eq. revert b c.
  apply (forall_byte2
    (λ b c, (N.shiftr (N.land (sextet3 b c) 60) 2 =? N.land (byte_val b) 15)%N)).
  vm_compute. reflexivity.
Qed.

Lemma byte_of_nibbles b :
  byte_of (N.lor (N.shiftl (N.shiftr (byte_val b) 4) 4) (N.land (byte_val b) 15)) = b.
Proof.
  apply Ascii.eqb_eq. revert b.
  apply (forall_byte (λ b, Ascii.eqb
    (byte_of (N.lor (N.shiftl (N.shiftr (byte_val b) 4) 4) (N.land (byte_val b) 15))) b)).
  vm_compute. reflexivity.
Qed.

Lemma octet2_sextets a b c : octet2 (sextet2 a b) (sextet3 b c) = b.
Proof. unfold octet2. rewrite sextet2_low, sextet3_high. apply byte_of_nibbles. Qed.

Lemma octet3_sextets b c : octet3 (sextet3 b c) (sextet4 c) = c.
Proof.
  apply Ascii.eqb_eq. revert b c.
  apply (forall_byte2 (λ b c, Ascii.eqb (octet3 (sextet3 b c) (sextet4 c)) c)).
  vm_compute. reflexivity.
Qed.

Lemma bytes_ind3 (P : string → Prop) :
  P EmptyString →
  (∀ a, P (String a EmptyString)) →
  (∀ a b, P (String a (String b EmptyString))) →
  (∀ a b c rest, P rest → P (String a (String b (String c rest)))) →
  ∀ s, P s.
Proof.
  intros H0 H1 H2 H3 s.
  enough (P s ∧ (∀ a, P (String a s)) ∧ (∀ a b, P (String a (String b s))))
    by tauto.
  induction s as [|c s (IH0 & IH1 & IH2)]; auto.
Qed.

Lemma strip_trailing_cons c s :
  Ascii.eqb c "=" = false →
  strip_trailing "=" (String c s) = String c (strip_trailing "=" s).
Proof.
  intros H. cbn [strip_trailing]. rewrite H.
  now destruct (strip_trailing "=" s).
Qed.

Lemma encode_char n t :
  sextet_ok n = true →
  strip_trailing "=" (replace_all "/" "_" (replace_all "+" "-"
    (String (base64_char n) t))) =
  String (to_url (base64_char n))
    (strip_trailing "=" (replace_all "/" "_" (replace_all "+" "-" t))).
Proof.
  intros H. cbn [replace_all]. fold (to_url (base64_char n)).
  apply strip_trailing_cons.
  unfold sextet_ok in H. apply andb_true_iff in H as [H _].
  apply andb_true_iff in H as [H _]. now apply negb_true_iff in H.
Qed.

Lemma decode_char n t :
  sextet_ok n = true →
  sextets (replace_all "_" "/" (replace_all "-" "+"
    (String (to_url (base64_char n)) t))) =
  n :: sextets (replace_all "_" "/" (replace_all "-" "+" t)).
Proof.
  intros H. cbn [replace_all sextets]. fold (from_url (to_url (base64_char n))).
  unfold sextet_ok in H. apply andb_true_iff in H as [H Hn].
  apply andb_true_iff in H as [_ H]. apply negb_true_iff in H. rewrite H.
  destruct (unbase64 _) as [m|]; [| discriminate].
  apply N.eqb_eq in Hn. now subst.
Qed.


(** What the decoder reads in an encoded message is the bytes that were
    encoded. *)
Lemma base64url_roundtrip (buf : string) :
  Buffer_from_base64
    (replace_all "_" "/" (replace_all "-" "+" (encodeBase64Url buf))) = buf.
Proof.
  unfold Buffer_from_base64, encodeBase64Url, Buffer_from_utf8.
  induction buf as [| a | a b | a b c rest IH] using bytes_ind3;
    cbn [Buffer_toString_base64].
  - reflexivity.
  - rewrite !encode_char, !decode_char
      by first [apply sextet1_ok | apply sextet2_ok].
    cbn. now rewrite octet1_sextets.
  - rewrite !encode_char, !decode_char
      by first [apply sextet1_ok | apply sextet2_ok | apply sextet3_ok].
    cbn. now rewrite octet1_sextets, octet2_sextets.
  - rewrite !encode_char, !decode_char
      by first [apply sextet1_ok | apply sextet2_ok | apply sextet3_ok | apply sextet4_ok].
    cbn [octets]. rewrite IH.
    now rewrite octet1_sextets, octet2_sextets, octet3_sextets.
Qed.


Lemma decodeBase64Url_encodeBase64Url (text : string) :
  decodeBase64Url (encodeBase64Url text) = Buffer_toString_utf8 text.
Proof.
  unfold decodeBase64Url.
  destruct (encodeBase64Url text) as [|c enc] eqn:E.
  - pose proof (base64url_roundtrip text) as R. rewrite E in R.
    cbn in R. now subst.
  - cbn [truthy_string negb]. rewrite <- E. now rewrite base64url_roundtrip.
Qed.

(** ** Facts: src/lib/auth.js *)

Ltac run :=
  repeat (progress (cbv beta delta
    [bind ret gets modify emit throw lift try_catch
     getTokenFile existsSync readJson writeFileSync unlinkSync console_log
     loadCredentials createOAuth2Client refreshAccessToken loadToken saveToken];
    cbn [fst snd])).

Lemma calls_add_event kind e w :
  calls kind (add_event e w) = (calls kind w + if kind e then 1 else 0)%nat.
Proof.
  unfold calls. cbn [events add_event]. rewrite filter_app, length_app.
  f_equal. rewrite filter_cons, filter_nil. destruct (kind e); reflexivity.
Qed.

Lemma calls_set_files kind fs w : calls kind (set_files fs w) = calls kind w.
Proof. reflexivity. Qed.

(** C9. [logout] removes the token file of the active profile when there
    is one. When there is none it returns without throwing, prints
    [Not currently logged in] and leaves every file as it was. *)
Theorem logout_spec (w : World) :
  (files w !! tokenFile w = None →
     ∃ w', logout w = (Return tt, w') ∧
           files w' = files w ∧
           events w' = events w ++ [ConsoleLog "Not currently logged in"]) ∧
  (is_Some (files w !! tokenFile w) →
     ∃ w', logout w = (Return tt, w') ∧
           files w' = delete (tokenFile w) (files w) ∧
           events w' = events w ++ [Unlink (tokenFile w);
                                    ConsoleLog "✓ Logged out successfully"]).
Proof.
  split; intros H; unfold logout; run; fold (tokenFile w).
  - rewrite bool_decide_eq_false_2 by (rewrite H; apply is_Some_None).
    eexists; split; [reflexivity | split; reflexivity].
  - rewrite bool_decide_eq_true_2 by exact H.
    eexists; split; [reflexivity | split; [reflexivity |]].
    cbn [events add_event set_files]. rewrite <- app_assoc. reflexivity.
Qed.

Lemma loadToken_spec (w : World) :
  loadToken w = (Return (files w !! tokenFile w ≫= file_json), w).
Proof.
  unfold loadToken; run; fold (tokenFile w).
  destruct (files w !! tokenFile w) as [f|] eqn:Hf.
  - rewrite bool_decide_eq_true_2 by eauto. rewrite Hf. reflexivity.
  - rewrite bool_decide_eq_false_2 by apply is_Some_None. reflexivity.
Qed.

Lemma getAuthClient_unfold (w : World) app token :
  oauth_app w = Return app →
  files w !! tokenFile w ≫= file_json = Some token →
  getAuthClient w =
    let client := setCredentials (client_of app) token in
    if needs_refresh token (clock w) then
      match refresh_reply w client with
      | Return fresh =>
          (Return (setCredentials client fresh),
           set_files (<[tokenFile w := saved_token fresh]> (files w))
             (add_event (WriteFile (tokenFile w) (saved_token fresh))
                (add_event (RefreshAccessToken client) w)))
      | Throw _ =>
          (Throw TokenRefreshError, add_event (RefreshAccessToken client) w)
      end
    else (Return client, w).
Proof.
  intros Happ Htok. unfold getAuthClient.
  unfold bind at 1. unfold createOAuth2Client, loadCredentials, lift, bind, ret.
  rewrite Happ. rewrite loadToken_spec, Htok. fold (client_of app).
  unfold gets. cbv zeta.
  destruct (needs_refresh token (clock w)); [| reflexivity].
  unfold try_catch, refreshAccessToken, bind, emit, modify, lift.
  cbn [refresh_reply add_event].
  destruct (refresh_reply w _) as [fresh|err]; [| reflexivity].
  unfold saveToken, getTokenFile, writeFileSync, bind, gets, ret, emit, modify.
  reflexivity.
Qed.

(** C1, as the code has it. Take a world where the OAuth application loads
    and the token file of the profile holds a token with an [expiry_date].
    - When the date is not zero and lies before the clock, [getAuthClient]
      asks the provider to refresh exactly once. If the provider answers
      with a token, that token is written to the token file, becomes the
      credentials of the client, and the client is returned. If the
      provider fails, [TokenRefreshError] is thrown (it is not the
      not-authenticated error), no file is written and every file is as it
      was.
    - When the date lies after the clock, the client is returned with the
      stored token and nothing else happens: the world is unchanged. *)
Theorem getAuthClient_refresh_spec (w : World) app token (e : Z) :
  oauth_app w = Return app →
  files w !! tokenFile w ≫= file_json = Some token →
  expiry_date token = Some e →
  let client := setCredentials (client_of app) token in
  (e ≠ 0 → e < clock w → ∀ fresh, refresh_reply w client = Return fresh →
     ∃ w', getAuthClient w = (Return (setCredentials client fresh), w') ∧
           calls is_refresh w' = S (calls is_refresh w) ∧
           files w' = <[tokenFile w := saved_token fresh]> (files w) ∧
           (files w' !! tokenFile w' ≫= file_json) = Some fresh) ∧
  (clock w < e → getAuthClient w = (Return client, w)) ∧
  (e ≠ 0 → e < clock w → ∀ err, refresh_reply w client = Throw err →
     ∃ w', getAuthClient w = (Throw TokenRefreshError, w') ∧
           TokenRefreshError ≠ NotAuthenticatedError ∧
           calls is_refresh w' = S (calls is_refresh w) ∧
           calls is_write w' = calls is_write w ∧
           files w' = files w).
Proof.
  intros Happ Htok Hexp client.
  pose proof (getAuthClient_unfold w app token Happ Htok) as Hrun.
  cbv zeta in Hrun. fold client in Hrun.
  unfold needs_refresh in Hrun. rewrite Hexp in Hrun. unfold truthy_number in Hrun.
  split; [| split].
  - intros Hnz Hpast fresh Hreply.
    rewrite (proj2 (Z.eqb_neq e 0) Hnz), (proj2 (Z.ltb_lt e (clock w)) Hpast), Hreply in Hrun.
    eexists; split; [exact Hrun |].
    split; [| split].
    + rewrite calls_set_files, !calls_add_event. cbn. lia.
    + reflexivity.
    + cbn [files set_files]. unfold tokenFile at 1. cbn [currentProfile set_files add_event].
      fold (tokenFile w). rewrite lookup_insert_eq. reflexivity.
  - intros Hfuture.
    rewrite (proj2 (Z.ltb_ge e (clock w))) in Hrun by lia.
    rewrite andb_false_r in Hrun. exact Hrun.
  - intros Hnz Hpast err Hreply.
    rewrite (proj2 (Z.eqb_neq e 0) Hnz), (proj2 (Z.ltb_lt e (clock w)) Hpast), Hreply in Hrun.
    eexists; split; [exact Hrun |].
    split; [discriminate |].
    split; [| split].
    + rewrite calls_add_event. cbn. lia.
    + rewrite calls_add_event. cbn. lia.
    + reflexivity.
Qed.

(** ** Facts: validation and composition *)

Lemma validateAttachment_spec (filePath : string) (w : World) :
  validateAttachment filePath w =
    (match files w !! filePath with
     | None => Throw (AttachmentNotFoundError filePath)
     | Some f =>
         if file_size f >? MAX_MESSAGE_SIZE
         then Throw (AttachmentTooLargeError filePath (file_size f))
         else Return (file_size f)
     end, w).
Proof.
  unfold validateAttachment, stat_size; run.
  destruct (files w !! filePath) as [f|] eqn:Hf; rewrite ?Hf.
  - rewrite bool_decide_eq_true_2 by eauto. cbn. rewrite Hf. cbn.
    now destruct (file_size f >? MAX_MESSAGE_SIZE).
  - rewrite bool_decide_eq_false_2 by apply is_Some_None. reflexivity.
Qed.

Lemma validateAttachment_passes filePath w :
  passes w filePath →
  validateAttachment filePath w =
    (Return (from_option file_size 0 (files w !! filePath)), w).
Proof.
  intros (f & Hf & Hsize). rewrite validateAttachment_spec, Hf. cbn.
  destruct (Z.gtb_spec (file_size f) MAX_MESSAGE_SIZE); [lia | reflexivity].
Qed.

Lemma validate_all_passes paths totalSize w :
  Forall (passes w) paths →
  validate_all paths totalSize w = (Return (totalSize + total_size w paths), w).
Proof.
  intros H. revert totalSize.
  induction H as [|p paths Hp _ IH]; intros totalSize; cbn [validate_all total_size fold_right].
  - unfold ret. now rewrite Z.add_0_r.
  - unfold bind. rewrite (validateAttachment_passes _ _ Hp), IH.
    fold (total_size w paths). now rewrite Z.add_assoc.
Qed.

Lemma validate_all_first_failure before p after totalSize w e :
  Forall (passes w) before →
  validateAttachment p w = (Throw e, w) →
  validate_all (before ++ p :: after) totalSize w = (Throw e, w).
Proof.
  intros H He. revert totalSize.
  induction H as [|q before Hq _ IH]; intros totalSize; cbn [validate_all app].
  - unfold bind. now rewrite He.
  - unfold bind. rewrite (validateAttachment_passes _ _ Hq). apply IH.
Qed.

(** No error of [validateAttachment] is the error of the total. *)
Lemma validateAttachment_error filePath w e :
  validateAttachment filePath w = (Throw e, w) →
  ∀ totalSize, e ≠ MessageTooLargeError totalSize.
Proof.
  rewrite validateAttachment_spec. intros H totalSize.
  unfold MessageTooLargeError.
  destruct (files w !! filePath) as [f|].
  - destruct (file_size f >? MAX_MESSAGE_SIZE); [| discriminate].
    injection H as <-. unfold AttachmentTooLargeError. push_append. discriminate.
  - injection H as <-. unfold AttachmentNotFoundError. push_append. discriminate.
Qed.

Lemma validate_all_over_limit paths p f totalSize w :
  In p paths → files w !! p = Some f → MAX_MESSAGE_SIZE < file_size f →
  ∃ e, validate_all paths totalSize w = (Throw e, w) ∧
       ∀ total, e ≠ MessageTooLargeError total.
Proof.
  intros Hin Hf Hbig. revert totalSize.
  induction paths as [|q paths IH]; intros totalSize; [destruct Hin |].
  cbn [validate_all]. unfold bind.
  pose proof (validateAttachment_error q w) as Herr.
  rewrite validateAttachment_spec in *.
  destruct (files w !! q) as [g|] eqn:Hg.
  - destruct (Z.gtb_spec (file_size g) MAX_MESSAGE_SIZE) as [Hgt|Hle].
    + eexists; split; [reflexivity | now apply Herr].
    + destruct Hin as [-> | Hin]; [| now apply IH].
      rewrite Hf in Hg. injection Hg as ->. lia.
  - eexists; split; [reflexivity | now apply Herr].
Qed.

Lemma validate_all_world paths totalSize w :
  (validate_all paths totalSize w).2 = w.
Proof.
  revert totalSize. induction paths as [|p paths IH]; intros totalSize; [reflexivity |].
  cbn [validate_all]. unfold bind. rewrite validateAttachment_spec.
  destruct (files w !! p) as [f|]; [| reflexivity].
  destruct (file_size f >? MAX_MESSAGE_SIZE); [reflexivity | apply IH].
Qed.

(** Validation reads the files and changes nothing. *)
Lemma checkAttachments_world attachments w :
  (checkAttachments attachments w).2 = w.
Proof.
  destruct attachments as [[|p rest]|]; try reflexivity.
  unfold checkAttachments, bind.
  pose proof (validate_all_world (p :: rest) 0 w) as Hw.
  destruct (validate_all (p :: rest) 0 w) as [[totalSize|e] w1]; cbn [snd] in Hw; subst w1.
  - now destruct (totalSize >? MAX_MESSAGE_SIZE).
  - reflexivity.
Qed.

Lemma buildMimeMessage_unfold (options : Options) (w : World) :
  buildMimeMessage options w =
    match checkAttachments (attachments options) w with
    | (Return checked, w1) =>
        let cfg := messageConfig options checked in
        let w2 := add_event (SendMail cfg) w1 in
        (match nodemailer w2 cfg with
         | Return stream => Return (encodeBase64Url (Buffer_toString_utf8 stream))
         | Throw e => Throw e
         end, w2)
    | (Throw e, w1) => (Throw e, w1)
    end.
Proof.
  unfold buildMimeMessage. unfold bind at 1.
  destruct (checkAttachments (attachments options) w) as [[checked|e] w1];
    [| reflexivity].
  unfold bind, emit, modify, lift, ret. cbv zeta.
  now destruct (nodemailer _ _).
Qed.

Lemma checkAttachments_nonempty paths w :
  paths ≠ [] →
  checkAttachments (Some paths) w =
    match validate_all paths 0 w with
    | (Return totalSize, w1) =>
        if totalSize >? MAX_MESSAGE_SIZE
        then (Throw (MessageTooLargeError totalSize), w1)
        else (Return (Some paths), w1)
    | (Throw e, w1) => (Throw e, w1)
    end.
Proof.
  destruct paths as [|p rest]; [congruence |]. intros _.
  unfold checkAttachments, bind.
  destruct (validate_all (p :: rest) 0 w) as [[totalSize|e] w1]; [| reflexivity].
  now destruct (totalSize >? MAX_MESSAGE_SIZE).
Qed.

(** C3. [buildMimeMessage] on a list of attachments that is not empty.
    - The paths are validated in the order of the list: at the first path
      that does not pass, a file that is not there throws
      [AttachmentNotFoundError] and a file of more than 35 MB (35 * 1024 *
      1024 bytes, strictly) throws [AttachmentTooLargeError].
    - When every path passes, the sum of the sizes of the files, and of
      nothing else, is compared with 35 MB: above it
      [MessageTooLargeError] is thrown. Otherwise the check is over: the
      message, with the files of the list attached, is handed to
      nodemailer, and what comes out is what nodemailer makes of it, the
      encoded message or nodemailer's own error.
    - When any file of the list is over the limit, the error is never the
      one of the total. *)
Theorem buildMimeMessage_attachments (options : Options) (w : World)
    (paths : list string) :
  attachments options = Some paths → paths ≠ [] →
  MAX_MESSAGE_SIZE = 36700160 ∧
  (∀ before p after, paths = before ++ p :: after → Forall (passes w) before →
     (files w !! p = None →
        buildMimeMessage options w = (Throw (AttachmentNotFoundError p), w)) ∧
     (∀ f, files w !! p = Some f → MAX_MESSAGE_SIZE < file_size f →
        buildMimeMessage options w =
          (Throw (AttachmentTooLargeError p (file_size f)), w))) ∧
  (Forall (passes w) paths →
     (MAX_MESSAGE_SIZE < total_size w paths →
        buildMimeMessage options w =
          (Throw (MessageTooLargeError (total_size w paths)), w)) ∧
     (total_size w paths ≤ MAX_MESSAGE_SIZE →
        let cfg := messageConfig options (Some paths) in
        let w' := add_event (SendMail cfg) w in
        buildMimeMessage options w =
          (match nodemailer w' cfg with
           | Return stream => Return (encodeBase64Url (Buffer_toString_utf8 stream))
           | Throw e => Throw e
           end, w'))) ∧
  (∀ p f, In p paths → files w !! p = Some f → MAX_MESSAGE_SIZE < file_size f →
     ∀ totalSize,
       (buildMimeMessage options w).1 ≠ Throw (MessageTooLargeError totalSize)).
Proof.
  intros Hatt Hne.
  rewrite buildMimeMessage_unfold, Hatt, (checkAttachments_nonempty _ _ Hne).
  split; [reflexivity |]. split; [| split].
  - intros before p after -> Hbefore. split.
    + intros Hp.
      rewrite (validate_all_first_failure before p after 0 w
                 (AttachmentNotFoundError p) Hbefore); [reflexivity |].
      now rewrite validateAttachment_spec, Hp.
    + intros f Hp Hbig.
      rewrite (validate_all_first_failure before p after 0 w
                 (AttachmentTooLargeError p (file_size f)) Hbefore); [reflexivity |].
      rewrite validateAttachment_spec, Hp.
      destruct (Z.gtb_spec (file_size f) MAX_MESSAGE_SIZE); [reflexivity | lia].
  - intros Hall. rewrite (validate_all_passes _ 0 _ Hall), Z.add_0_l. split.
    + intros Hbig.
      destruct (Z.gtb_spec (total_size w paths) MAX_MESSAGE_SIZE); [reflexivity | lia].
    + intros Hfit.
      destruct (Z.gtb_spec (total_size w paths) MAX_MESSAGE_SIZE); [lia |].
      reflexivity.
  - intros p f Hin Hp Hbig totalSize.
    destruct (validate_all_over_limit paths p f 0 w Hin Hp Hbig) as (e & -> & He).
    cbn [fst]. intros [= ->]. now apply (He totalSize).
Qed.




(** ** Facts: the label cache *)

Lemma find_first_match {A} (p : A → bool) before x after :
  p x = true → Forall (λ y, p y = false) before →
  List.find p (before ++ x :: after) = Some x.
Proof.
  intros Hx H. induction H as [|y before Hy _ IH]; cbn [List.find app].
  - now rewrite Hx.
  - now rewrite Hy.
Qed.

Lemma find_no_match {A} (p : A → bool) l :
  Forall (λ y, p y = false) l → List.find p l = None.
Proof.
  induction 1 as [|y l Hy _ IH]; cbn [List.find]; [reflexivity | now rewrite Hy].
Qed.

Lemma lookup_label_resolves labelName labels :
  resolves labelName labels
    match List.find (λ l, String.eqb (label_name l) labelName) labels with
    | None => Throw (LabelNotFoundError labelName (map label_name labels))
    | Some label => Return (label_id label)
    end.
Proof.
  split.
  - intros before label after -> Hname Hbefore.
    rewrite (find_first_match _ before label after); [reflexivity | |].
    + now apply String.eqb_eq.
    + eapply Forall_impl; [exact Hbefore |]. intros l Hl. now apply String.eqb_neq.
  - intros Hnone. rewrite find_no_match; [reflexivity |].
    eapply Forall_impl; [exact Hnone |]. intros l Hl. now apply String.eqb_neq.
Qed.

Lemma getLabels_cached labels w :
  labelCache w = Some labels → getLabels false w = (Return labels, w).
Proof. intros H. unfold getLabels, bind, gets. now rewrite H. Qed.

Lemma getLabels_populates w gmail w1 reply :
  labelCache w = None →
  getGmailClient w = (Return gmail, w1) →
  labels_reply w1 = Return reply →
  getLabels false w =
    (Return (default [] reply),
     set_labelCache (Some (default [] reply)) (add_event LabelsList w1)).
Proof.
  intros Hcache Hclient Hreply. unfold getLabels. unfold bind at 1, gets at 1.
  rewrite Hcache. unfold bind at 1. rewrite Hclient.
  unfold labels_list, bind, emit, modify, lift, ret.
  cbn [labels_reply add_event]. now rewrite Hreply.
Qed.

(** C7. [getLabelIdByName] resolves the query over the cached list and
    leaves the world as it is: no call is made, so the cache is never
    refreshed. With no cache yet (and a client and an answer of the
    provider), the list is fetched with one call, becomes the cache, and the
    query is resolved over it. In both cases the result is the identifier
    of the first label whose name is equal to the query, character for
    character; with no such label it is [LabelNotFoundError], whose
    message lists the name of every label known. *)
Theorem getLabelIdByName_spec (labelName : string) (w : World) :
  (∀ labels, labelCache w = Some labels →
     ∃ result, getLabelIdByName labelName w = (result, w) ∧
               resolves labelName labels result) ∧
  (labelCache w = None →
     ∀ gmail w1 reply,
       getGmailClient w = (Return gmail, w1) →
       labels_reply w1 = Return reply →
       ∃ result w',
         getLabelIdByName labelName w = (result, w') ∧
         labelCache w' = Some (default [] reply) ∧
         calls is_labels_list w' = S (calls is_labels_list w1) ∧
         resolves labelName (default [] reply) result).
Proof.
  split.
  - intros labels Hcache. eexists. split; [| apply lookup_label_resolves].
    unfold getLabelIdByName, bind. rewrite (getLabels_cached _ _ Hcache).
    now destruct (List.find _ labels).
  - intros Hcache gmail w1 reply Hclient Hreply.
    eexists _, _. split; [| split; [| split; [| apply lookup_label_resolves]]].
    + unfold getLabelIdByName, bind.
      rewrite (getLabels_populates _ _ _ _ Hcache Hclient Hreply).
      now destruct (List.find _ (default [] reply)).
    + reflexivity.
    + change (calls is_labels_list (add_event LabelsList w1) =
              S (calls is_labels_list w1)).
      rewrite calls_add_event. cbn. lia.
Qed.

(** ** Facts: the message codec *)

Lemma Part_nested_ind (P : Part → Prop) :
  (∀ m h b, P (MkPart m h b None)) →
  (∀ m h b ps, Forall P ps → P (MkPart m h b (Some ps))) →
  ∀ part, P part.
Proof.
  intros Hleaf Hnode.
  refine (fix IH (part : Part) : P part :=
            match part with
            | MkPart m h b None => Hleaf m h b
            | MkPart m h b (Some ps) =>
                Hnode m h b ps
                  ((fix all (l : list Part) : Forall P l :=
                      match l with
                      | [] => List.Forall_nil P
                      | q :: l' => List.Forall_cons P q l' (IH q) (all l')
                      end) ps)
            end).
Qed.

Lemma preorder_unfold (part : Part) : preorder part = part :: descendants part.
Proof.
  now destruct part as [m h b [ps|]].
Qed.

Lemma extractBody_unfold (part : Part) (acc : Bodies) :
  extractBody part acc =
    match assign_body part acc with
    | Throw e => Throw e
    | Return acc1 =>
        match parts part with
        | Some ps => forEach_extractBody ps acc1
        | None => Return acc1
        end
    end.
Proof.
  destruct part as [m h b [ps|]]; cbn [extractBody parts];
    now destruct (assign_body _ acc) as [acc1|e].
Qed.

Lemma assign_body_has_body (part : Part) (acc : Bodies) :
  has_body part → assign_body part acc = Return (assign acc part).
Proof.
  unfold has_body, assign_body, assign, typed_data, offers. intros Hbody.
  destruct (String.eqb_spec (mimeType part) "text/plain") as [Hp|Hp].
  - destruct (body part) as [b|]; [| now destruct Hbody; auto].
    cbn. destruct (truthy_data b); [reflexivity |].
    rewrite Hp. reflexivity.
  - destruct (String.eqb_spec (mimeType part) "text/html") as [Hh|Hh]; [| reflexivity].
    destruct (body part) as [b|]; [| now destruct Hbody; auto].
    cbn. now destruct (truthy_data b).
Qed.

Lemma simple_body_assign (payload : Part) (acc : Bodies) :
  simple_body payload acc = assign acc payload.
Proof.
  unfold simple_body, assign, offers.
  destruct (String.eqb_spec (mimeType payload) "text/plain") as [Hp|Hp].
  - destruct (body payload ≫= truthy_data); [reflexivity |].
    rewrite Hp. reflexivity.
  - destruct (String.eqb (mimeType payload) "text/html");
      now destruct (body payload ≫= truthy_data).
Qed.

Lemma forEach_extractBody_fold (ps : list Part) :
  Forall (λ q, Forall has_body (preorder q) →
               ∀ acc, extractBody q acc = Return (fold_left assign (preorder q) acc)) ps →
  Forall has_body (flat_map preorder ps) →
  ∀ acc, forEach_extractBody ps acc = Return (fold_left assign (flat_map preorder ps) acc).
Proof.
  induction 1 as [|q ps Hq _ IH]; intros Hall acc; [reflexivity |].
  cbn [flat_map] in *. apply Forall_app in Hall as [Hhere Hrest].
  cbn [forEach_extractBody]. rewrite (Hq Hhere), fold_left_app. now apply IH.
Qed.

Lemma extractBody_fold (part : Part) :
  Forall has_body (preorder part) →
  ∀ acc, extractBody part acc = Return (fold_left assign (preorder part) acc).
Proof.
  induction part as [m h b | m h b ps IH] using Part_nested_ind;
    intros Hall acc; rewrite extractBody_unfold; rewrite preorder_unfold in *;
    apply Forall_cons_1 in Hall as [Hroot Hrest];
    rewrite (assign_body_has_body _ _ Hroot); cbn [parts fold_left].
  - reflexivity.
  - now apply forEach_extractBody_fold.
Qed.

Lemma getMessageBody_fold (message : Message) :
  Forall has_body (descendants (payload message)) →
  getMessageBody message =
    Return (fold_left assign (preorder (payload message))
              {| text := EmptyString; html := EmptyString |}).
Proof.
  intros Hall. unfold getMessageBody. cbv zeta.
  rewrite preorder_unfold, simple_body_assign. cbn [fold_left].
  unfold descendants in *.
  destruct (parts (payload message)) as [ps|]; [| reflexivity].
  cbn [default from_option] in *.
  apply forEach_extractBody_fold; [| exact Hall].
  apply Forall_forall. intros q _ Hq acc. now apply extractBody_fold.
Qed.

Lemma offers_html_not_plain (part : Part) d :
  offers "text/html" part = Some d → offers "text/plain" part = None.
Proof.
  unfold offers.
  destruct (String.eqb_spec (mimeType part) "text/html") as [->|]; [| discriminate].
  reflexivity.
Qed.

Lemma fold_assign_text (nodes : list Part) (acc : Bodies) :
  text (fold_left assign nodes acc) =
    from_option decodeBase64Url (text acc) (last (omap (offers "text/plain") nodes)).
Proof.
  induction nodes as [|part nodes IH] using rev_ind; [reflexivity |].
  rewrite fold_left_app, omap_app. cbn [fold_left omap]. unfold assign at 1.
  destruct (offers "text/plain" part) as [d|] eqn:Hoffer;
    cbn [omap list_omap]; rewrite Hoffer.
  - now rewrite last_snoc.
  - rewrite app_nil_r, <- IH.
    now destruct (offers "text/html" part).
Qed.

Lemma fold_assign_html (nodes : list Part) (acc : Bodies) :
  html (fold_left assign nodes acc) =
    from_option decodeBase64Url (html acc) (last (omap (offers "text/html") nodes)).
Proof.
  induction nodes as [|part nodes IH] using rev_ind; [reflexivity |].
  rewrite fold_left_app, omap_app. cbn [fold_left omap]. unfold assign at 1.
  destruct (offers "text/html" part) as [d|] eqn:Hoffer;
    cbn [omap list_omap]; rewrite Hoffer.
  - rewrite (offers_html_not_plain _ _ Hoffer). now rewrite last_snoc.
  - rewrite app_nil_r, <- IH.
    now destruct (offers "text/plain" part).
Qed.

(** ** Facts: the reply *)

Lemma rev_app_append (a b : string) :
  String.rev_app a b = String.rev_app a EmptyString +:+ b.
Proof.
  revert b. induction a as [|x a IH]; intros b; [reflexivity |].
  cbn [String.rev_app]. rewrite (IH (String x b)), (IH (String x EmptyString)).
  now rewrite append_assoc.
Qed.

Lemma rev_rev_app (line cur : string) :
  String.rev (String.rev_app line cur) = String.rev cur +:+ line.
Proof.
  revert cur. induction line as [|x line IH]; intros cur.
  - now rewrite append_nil_r.
  - cbn [String.rev_app]. rewrite IH. unfold String.rev. cbn [String.rev_app].
    rewrite (rev_app_append cur), append_assoc. reflexivity.
Qed.

(** Reading a line that holds no separator. *)
Lemma split_go_line sep (line cur rest : string) :
  has_char sep line = false →
  split_go sep cur (line +:+ rest) = split_go sep (String.rev_app line cur) rest.
Proof.
  revert cur. induction line as [|x line IH]; intros cur H; [reflexivity |].
  cbn [has_char] in H. apply orb_false_iff in H as [Hx Hline].
  rewrite append_cons. cbn [split_go String.rev_app]. rewrite Hx. now apply IH.
Qed.

Lemma split_on_join (lines : list string) :
  lines ≠ [] → Forall (λ line, has_char LF line = false) lines →
  split_on LF (join nl lines) = lines.
Proof.
  intros Hne Hall. unfold split_on.
  induction Hall as [|line lines Hline Hall IH]; [congruence |].
  destruct lines as [|line2 lines].
  - cbn [join]. rewrite <- (append_nil_r line) at 1.
    rewrite (split_go_line _ _ _ _ Hline). cbn [split_go].
    now rewrite rev_rev_app.
  - change (join nl (line :: line2 :: lines))
      with (line +:+ String LF (join nl (line2 :: lines))).
    rewrite (split_go_line _ _ _ _ Hline). cbn [split_go].
    rewrite Ascii.eqb_refl, rev_rev_app. f_equal. now apply IH.
Qed.

Lemma startsWith_prefix (s pre : string) :
  startsWith s pre = true ↔ ∃ rest, s = pre +:+ rest.
Proof.
  revert s. induction pre as [|p pre IH]; intros s.
  - split; [intros _; now exists s | now destruct s].
  - destruct s as [|c s]; cbn [startsWith].
    + split; [discriminate | intros [rest H]; discriminate].
    + destruct (Ascii.eqb_spec c p) as [->|Hne].
      * rewrite IH. split; intros [rest H]; exists rest.
        -- now rewrite H.
        -- rewrite append_cons in H. now injection H.
      * split; [discriminate |]. intros [rest H].
        rewrite append_cons in H. injection H as ? _. contradiction.
Qed.

Lemma when_truthy_Some (s : string) :
  s ≠ EmptyString → when_truthy (Some s) = Some s.
Proof. now destruct s. Qed.

Lemma when_truthy_None_iff (v : option string) :
  when_truthy v = None ↔ v = None ∨ v = Some EmptyString.
Proof.
  destruct v as [[|c s]|]; cbn; split; auto;
    intros H; try discriminate; destruct H; discriminate.
Qed.

Lemma replyOptions_has_id (options : Options) (message : Message) reply :
  replyOptions options message = Return reply →
  ∃ mid, when_truthy (getHeader message "Message-ID") = Some mid.
Proof.
  unfold replyOptions.
  destruct (when_truthy (getHeader message "Message-ID")); [eauto | discriminate].
Qed.

(** What [replyOptions] returns once the Message-ID is there. *)
Lemma replyOptions_with_id (options : Options) (message : Message) mid reply :
  when_truthy (getHeader message "Message-ID") = Some mid →
  replyOptions options message = Return reply →
  to reply = match getHeader message "From" ≫= match_angle with
             | Some address => Some address
             | None => getHeader message "From"
             end ∧
  subject reply =
    Some match getHeader message "Subject" with
         | Some s => if startsWith s "Re:" then s
                     else "Re: " +:+ or_empty (getHeader message "Subject")
         | None => "Re: " +:+ or_empty (getHeader message "Subject")
         end ∧
  headers reply =
    Some [("In-Reply-To", mid);
          ("References",
           match when_truthy (getHeader message "References") with
           | Some references => references +:+ " " +:+ mid
           | None => mid
           end)] ∧
  attachments reply = attachments options ∧
  from reply = None ∧ cc reply = None ∧ bcc reply = None.
Proof.
  intros Hid. unfold replyOptions. rewrite Hid. cbv zeta.
  destruct (if quote options then _ else _) as [[txt htm]|e]; [| discriminate].
  intros [= <-]. cbn. auto 10.
Qed.

Lemma replyOptions_bodies (options : Options) (message : Message) reply :
  replyOptions options message = Return reply →
  if quote options then
    ∃ bodies, getMessageBody message = Return bodies ∧
      bodyTxt reply =
        match when_truthy (bodyTxt options), truthy_string (text bodies) with
        | Some bodyTxt, true =>
            Some (bodyTxt +:+ nl +:+ nl +:+ "On " +:+
                  interpolate (getHeader message "Date") +:+ ", " +:+
                  interpolate (getHeader message "From") +:+ " wrote:" +:+ nl +:+
                  quoteText (text bodies))
        | _, _ => bodyTxt options
        end ∧
      bodyHtml reply =
        match when_truthy (bodyHtml options), truthy_string (html bodies) with
        | Some bodyHtml, true =>
            Some (bodyHtml +:+ "<br><br><blockquote>" +:+
                  html bodies +:+ "</blockquote>")
        | _, _ => bodyHtml options
        end
  else bodyTxt reply = bodyTxt options ∧ bodyHtml reply = bodyHtml options.
Proof.
  unfold replyOptions.
  destruct (when_truthy (getHeader message "Message-ID")) as [mid|]; [| discriminate].
  cbv zeta. destruct (quote options).
  - destruct (getMessageBody message) as [bodies|e]; [| discriminate].
    intros [= <-]. exists bodies. cbn. auto.
  - intros [= <-]. cbn. auto.
Qed.

(** The reply is composed whenever the Message-ID is there and, with
    quoting, the body of the original can be read. *)
Lemma replyOptions_returns (options : Options) (message : Message) mid :
  when_truthy (getHeader message "Message-ID") = Some mid →
  (quote options = true → ∃ bodies, getMessageBody message = Return bodies) →
  ∃ reply, replyOptions options message = Return reply.
Proof.
  intros Hid Hbody. unfold replyOptions. rewrite Hid. cbv zeta.
  destruct (quote options).
  - destruct Hbody as [bodies ->]; [reflexivity |]. eauto.
  - eauto.
Qed.

Lemma replyToEmail_fetch (options : Options) (w w1 : World) gmail message :
  getGmailClient w = (Return gmail, w1) →
  message_reply w1 (messageId options) = Return message →
  replyToEmail options w =
    let w2 := add_event (MessagesGet (messageId options)) w1 in
    match replyOptions options message with
    | Throw e => (Throw e, w2)
    | Return reply =>
        (let* encodedMessage := buildMimeMessage reply in
         if draft options then
           let* draftData := createDraft encodedMessage (threadId message) in
           ret (Drafted draftData (getDraftGmailUrl (draft_id draftData)))
         else
           let* response := messages_send encodedMessage (threadId message) in
           ret (Sent response)) w2
    end.
Proof.
  intros Hclient Hmsg. unfold replyToEmail. unfold bind at 1. rewrite Hclient.
  unfold bind at 1. unfold messages_get, bind at 1, emit, modify, lift.
  cbn [message_reply add_event]. rewrite Hmsg.
  unfold bind at 1. now destruct (replyOptions options message).
Qed.

(** The messages [replyToEmail] hands to nodemailer are the replies
    [replyOptions] composes, with the attachments that passed. *)
Lemma replyToEmail_composes (options : Options) (w w1 : World) gmail message cfg :
  getGmailClient w = (Return gmail, w1) →
  message_reply w1 (messageId options) = Return message →
  hands_over w1 (replyToEmail options w).2 cfg →
  ∃ reply checked,
    replyOptions options message = Return reply ∧
    cfg = messageConfig reply checked.
Proof.
  intros Hclient Hmsg [Hafter Hbefore].
  rewrite (replyToEmail_fetch _ _ _ _ _ Hclient Hmsg) in Hafter. cbv zeta in Hafter.
  assert (Hget : ¬ In (SendMail cfg)
                   (events (add_event (MessagesGet (messageId options)) w1))).
  { cbn [events add_event]. intros [H | [H | []]]%in_app_or; [auto | discriminate]. }
  destruct (replyOptions options message) as [reply|e]; [| now destruct Hget].
  unfold bind at 1 in Hafter. rewrite buildMimeMessage_unfold in Hafter.
  pose proof (checkAttachments_world (attachments reply)
                (add_event (MessagesGet (messageId options)) w1)) as Hw.
  destruct (checkAttachments _ _) as [[checked|e] w2]; cbn [snd] in Hw; subst w2;
    [| now destruct Hget].
  cbv zeta in Hafter. exists reply, checked. split; [reflexivity |].
  assert (Hsent : In (SendMail cfg)
            (events (add_event (SendMail (messageConfig reply checked))
                       (add_event (MessagesGet (messageId options)) w1))) →
          cfg = messageConfig reply checked).
  { cbn [events add_event]. intros [H | [H | []]]%in_app_or; [now destruct Hget |].
    now injection H. }
  destruct (nodemailer _ _) as [stream|e]; [| now apply Hsent].
  destruct (draft options).
  - unfold bind, createDraft, bind, emit, modify, lift, ret in Hafter.
    cbn [draft_reply add_event] in Hafter.
    destruct (draft_reply w1 _ _); cbn [snd events add_event] in Hafter;
      apply in_app_or in Hafter as [H | [H | []]];
      first [discriminate | now apply Hsent].
  - unfold bind, messages_send, bind, emit, modify, lift, ret in Hafter.
    cbn [send_reply add_event] in Hafter.
    destruct (send_reply w1 _ _); cbn [snd events add_event] in Hafter;
      apply in_app_or in Hafter as [H | [H | []]];
      first [discriminate | now apply Hsent].
Qed.

(** With nothing attached, the reply that [replyOptions] composes is
    handed to nodemailer. *)
Lemma replyToEmail_sends (options : Options) (w w1 : World) gmail message reply :
  getGmailClient w = (Return gmail, w1) →
  message_reply w1 (messageId options) = Return message →
  replyOptions options message = Return reply →
  attachments options = None →
  In (SendMail (messageConfig reply None)) (events (replyToEmail options w).2).
Proof.
  intros Hclient Hmsg Hreply Hatt.
  rewrite (replyToEmail_fetch _ _ _ _ _ Hclient Hmsg), Hreply. cbv zeta.
  assert (Hnone : attachments reply = None).
  { destruct (replyOptions_has_id _ _ _ Hreply) as [mid Hmid].
    destruct (replyOptions_with_id _ _ _ _ Hmid Hreply) as (_ & _ & _ & -> & _).
    exact Hatt. }
  unfold bind at 1. rewrite buildMimeMessage_unfold, Hnone.
  cbn [checkAttachments]. unfold ret at 1. cbv zeta.
  destruct (nodemailer _ _) as [stream|e];
    [| cbn [snd events add_event]; apply in_or_app; right; now left].
  destruct (draft options).
  - unfold bind, createDraft, bind, emit, modify, lift, ret.
    cbn [draft_reply add_event].
    destruct (draft_reply w1 _ _); cbn [snd events add_event];
      apply in_or_app; left; apply in_or_app; right; now left.
  - unfold bind, messages_send, bind, emit, modify, lift, ret.
    cbn [send_reply add_event].
    destruct (send_reply w1 _ _); cbn [snd events add_event];
      apply in_or_app; left; apply in_or_app; right; now left.
Qed.

(** C2, as the code has it. [replyToEmail] fetches the original, and
    - fails with [MissingMessageIdError], before anything is composed,
      when the original has no Message-ID header or an empty one;
    - otherwise every message it hands to nodemailer carries In-Reply-To
      equal to the Message-ID of the original, and References equal to
      the References of the original, a space and that Message-ID when
      the original has a References header that is not empty, and to the
      Message-ID alone when it has none or an empty one. The earlier
      entries stay, in their order, in front of the new one. *)
Theorem replyToEmail_threading (options : Options) (w w1 : World) gmail message :
  getGmailClient w = (Return gmail, w1) →
  message_reply w1 (messageId options) = Return message →
  (getHeader message "Message-ID" = None ∨
   getHeader message "Message-ID" = Some EmptyString →
     replyToEmail options w =
       (Throw MissingMessageIdError,
        add_event (MessagesGet (messageId options)) w1)) ∧
  (∀ mid cfg,
     getHeader message "Message-ID" = Some mid → mid ≠ EmptyString →
     hands_over w1 (replyToEmail options w).2 cfg →
     (∀ references,
        getHeader message "References" = Some references →
        references ≠ EmptyString →
        mc_headers cfg =
          [("In-Reply-To", mid); ("References", references +:+ " " +:+ mid)]) ∧
     (getHeader message "References" = None ∨
      getHeader message "References" = Some EmptyString →
        mc_headers cfg = [("In-Reply-To", mid); ("References", mid)])).
Proof.
  intros Hclient Hmsg. split.
  - intros Hid. apply when_truthy_None_iff in Hid.
    rewrite (replyToEmail_fetch _ _ _ _ _ Hclient Hmsg). cbv zeta.
    unfold replyOptions. now rewrite Hid.
  - intros mid cfg Hid Hne Hcfg.
    assert (Hmid : when_truthy (getHeader message "Message-ID") = Some mid)
      by (rewrite Hid; now apply when_truthy_Some).
    destruct (replyToEmail_composes _ _ _ _ _ _ Hclient Hmsg Hcfg)
      as (reply & checked & Hreply & ->).
    destruct (replyOptions_with_id _ _ _ _ Hmid Hreply) as (_ & _ & Hheaders & _).
    cbn [messageConfig mc_headers]. rewrite Hheaders. split.
    + intros references Href Hrne. now rewrite Href, (when_truthy_Some _ Hrne).
    + intros Href. apply when_truthy_None_iff in Href. now rewrite Href.
Qed.

(** C5. When the original has a Subject header, the subject of every
    reply handed to nodemailer is that subject if it starts with the
    three characters [Re:], and that subject after [Re: ] otherwise. The
    test is on the characters as they are, so [RE:] or [re:] do not count
    as the prefix. *)
Theorem replyToEmail_subject (options : Options) (w w1 : World) gmail message
    (originalSubject : string) cfg :
  getGmailClient w = (Return gmail, w1) →
  message_reply w1 (messageId options) = Return message →
  getHeader message "Subject" = Some originalSubject →
  hands_over w1 (replyToEmail options w).2 cfg →
  ((∃ rest, originalSubject = "Re:" +:+ rest) →
     mc_subject cfg = Some originalSubject) ∧
  ((∀ rest, originalSubject ≠ "Re:" +:+ rest) →
     mc_subject cfg = Some ("Re: " +:+ originalSubject)).
Proof.
  intros Hclient Hmsg Hsubject Hcfg.
  destruct (replyToEmail_composes _ _ _ _ _ _ Hclient Hmsg Hcfg)
    as (reply & checked & Hreply & ->).
  destruct (replyOptions_has_id _ _ _ Hreply) as [mid Hmid].
  destruct (replyOptions_with_id _ _ _ _ Hmid Hreply) as (_ & Hsub & _).
  rewrite Hsubject in Hsub. cbn [messageConfig mc_subject].
  split; intros Hprefix.
  - apply startsWith_prefix in Hprefix. now rewrite Hprefix in Hsub.
  - destruct (startsWith originalSubject "Re:") eqn:Hstarts.
    + apply startsWith_prefix in Hstarts as [rest ->]. now destruct (Hprefix rest).
    + assert (or_empty (Some originalSubject) = originalSubject) as Hor
        by now destruct originalSubject.
      now rewrite Hor in Hsub.
Qed.

Lemma when_truthy_append (s t : string) :
  s ≠ EmptyString → when_truthy (Some (s +:+ t)) = Some (s +:+ t).
Proof. now destruct s. Qed.

(** C6. With quoting asked for, and an original whose bodies can be read,
    in every reply handed to nodemailer:
    - when the request has a plain body and the original a plain body of
      the lines [lines], the text is the new body, an empty line, the
      line [On {date}, {from} wrote:] (a header that is missing prints as
      [null]), and the lines of the original, each after [> ], joined by
      line feeds;
    - when the request has an HTML body and the original an HTML body,
      the HTML is the new body followed by the original inside a
      [blockquote] element;
    - each of the two is what the request gave when its own condition
      fails, whatever happens to the other. *)
Theorem replyToEmail_quote (options : Options) (w w1 : World) gmail message
    bodies cfg :
  getGmailClient w = (Return gmail, w1) →
  message_reply w1 (messageId options) = Return message →
  quote options = true →
  getMessageBody message = Return bodies →
  hands_over w1 (replyToEmail options w).2 cfg →
  (∀ newText lines,
     bodyTxt options = Some newText → newText ≠ EmptyString →
     lines ≠ [] → Forall (λ line, has_char LF line = false) lines →
     text bodies = join nl lines → text bodies ≠ EmptyString →
     mc_text cfg =
       Some (newText +:+ nl +:+ nl +:+
             "On " +:+ interpolate (getHeader message "Date") +:+ ", " +:+
             interpolate (getHeader message "From") +:+ " wrote:" +:+ nl +:+
             join nl (map (λ line, "> " +:+ line) lines))) ∧
  (∀ newHtml,
     bodyHtml options = Some newHtml → newHtml ≠ EmptyString →
     html bodies ≠ EmptyString →
     mc_html cfg =
       Some (newHtml +:+ "<br><br><blockquote>" +:+ html bodies +:+ "</blockquote>")) ∧
  (when_truthy (bodyTxt options) = None ∨ text bodies = EmptyString →
     mc_text cfg = when_truthy (bodyTxt options)) ∧
  (when_truthy (bodyHtml options) = None ∨ html bodies = EmptyString →
     mc_html cfg = when_truthy (bodyHtml options)).
Proof.
  intros Hclient Hmsg Hquote Hbodies Hcfg.
  destruct (replyToEmail_composes _ _ _ _ _ _ Hclient Hmsg Hcfg)
    as (reply & checked & Hreply & ->).
  pose proof (replyOptions_bodies _ _ _ Hreply) as H. rewrite Hquote in H.
  destruct H as (bodies' & Hb & Htxt & Hhtml).
  rewrite Hbodies in Hb. injection Hb as <-.
  cbn [messageConfig mc_text mc_html]. rewrite Htxt, Hhtml.
  split; [| split; [| split]].
  - intros newText lines HnewText Hne Hlines Hfree Htext Htextne.
    rewrite HnewText, (when_truthy_Some _ Hne).
    destruct (text bodies) as [|c t] eqn:E; [congruence |].
    cbn [truthy_string]. unfold quoteText.
    rewrite Htext, (split_on_join _ Hlines Hfree).
    now apply when_truthy_append.
  - intros newHtml HnewHtml Hne Hhtmlne.
    rewrite HnewHtml, (when_truthy_Some _ Hne).
    destruct (html bodies) as [|c t] eqn:E; [congruence |].
    cbn [truthy_string]. now apply when_truthy_append.
  - intros [Hnone | Hempty].
    + now rewrite Hnone.
    + rewrite Hempty.
      destruct (when_truthy (bodyTxt options)) eqn:E; cbn [truthy_string]; now rewrite E.
  - intros [Hnone | Hempty].
    + now rewrite Hnone.
    + rewrite Hempty.
      destruct (when_truthy (bodyHtml options)) eqn:E; cbn [truthy_string]; now rewrite E.
Qed.

(** C10. A body of the original is quoted only into a body the caller
    gave. With quoting asked for, when the request has no plain body
    (none, or an empty string), no reply handed to nodemailer has a text,
    whatever the original holds; and likewise for HTML. *)
Theorem replyToEmail_quote_needs_body (options : Options) (w w1 : World) gmail
    message cfg :
  getGmailClient w = (Return gmail, w1) →
  message_reply w1 (messageId options) = Return message →
  quote options = true →
  hands_over w1 (replyToEmail options w).2 cfg →
  (when_truthy (bodyTxt options) = None → mc_text cfg = None) ∧
  (when_truthy (bodyHtml options) = None → mc_html cfg = None).
Proof.
  intros Hclient Hmsg Hquote Hcfg.
  destruct (replyToEmail_composes _ _ _ _ _ _ Hclient Hmsg Hcfg)
    as (reply & checked & Hreply & ->).
  pose proof (replyOptions_bodies _ _ _ Hreply) as H. rewrite Hquote in H.
  destruct H as (bodies & _ & Htxt & Hhtml).
  cbn [messageConfig mc_text mc_html]. rewrite Htxt, Hhtml.
  split; intros Hnone; now rewrite Hnone.
Qed.

(** ** Facts: the token store *)

Lemma getAuthClient_run (w : World) :
  getAuthClient w =
    match oauth_app w with
    | Throw e => (Throw e, w)
    | Return app =>
        match files w !! tokenFile w ≫= file_json with
        | None => (Throw NotAuthenticatedError, w)
        | Some token =>
            let client := setCredentials (client_of app) token in
            if needs_refresh token (clock w) then
              match refresh_reply w client with
              | Return fresh =>
                  (Return (setCredentials client fresh),
                   set_files (<[tokenFile w := saved_token fresh]> (files w))
                     (add_event (WriteFile (tokenFile w) (saved_token fresh))
                        (add_event (RefreshAccessToken client) w)))
              | Throw _ =>
                  (Throw TokenRefreshError, add_event (RefreshAccessToken client) w)
              end
            else (Return client, w)
        end
    end.
Proof.
  destruct (oauth_app w) as [app|e] eqn:Happ.
  - destruct (files w !! tokenFile w ≫= file_json) as [token|] eqn:Htok.
    + exact (getAuthClient_unfold w app token Happ Htok).
    + unfold getAuthClient. unfold bind at 1.
      unfold createOAuth2Client, loadCredentials, lift, bind, ret.
      rewrite Happ, loadToken_spec, Htok. reflexivity.
  - unfold getAuthClient. unfold bind at 1.
    unfold createOAuth2Client, loadCredentials, lift, bind, ret.
    now rewrite Happ.
Qed.

(** X1. With no token file for the profile, or one that does not parse,
    [getAuthClient] throws [NotAuthenticatedError]: it asks for no refresh
    and changes nothing. *)
Theorem getAuthClient_not_authenticated (w : World) app :
  oauth_app w = Return app →
  (files w !! tokenFile w = None ∨
   ∃ f, files w !! tokenFile w = Some f ∧ file_json f = None) →
  getAuthClient w = (Throw NotAuthenticatedError, w).
Proof.
  intros Happ Hfile. rewrite getAuthClient_run, Happ.
  destruct Hfile as [-> | (f & -> & Hjson)]; cbn; [reflexivity | now rewrite Hjson].
Qed.

(** X2. The OAuth application is loaded before the token is read: when
    loading it fails, [getAuthClient] throws that very error, whatever the
    token file holds, and changes nothing. *)
Theorem getAuthClient_config_error (w : World) (e : exn) :
  oauth_app w = Throw e →
  getAuthClient w = (Throw e, w).
Proof. intros Happ. now rewrite getAuthClient_run, Happ. Qed.

(** X3. A token with no [expiry_date], with one that is 0, or with one the
    clock has not passed yet (the comparison is strict) is used as it is:
    the client is returned with it and nothing else happens. *)
Theorem getAuthClient_token_as_is (w : World) app token :
  oauth_app w = Return app →
  files w !! tokenFile w ≫= file_json = Some token →
  (∀ e, expiry_date token = Some e → e = 0 ∨ clock w ≤ e) →
  getAuthClient w = (Return (setCredentials (client_of app) token), w).
Proof.
  intros Happ Htok Hdate. rewrite getAuthClient_run, Happ, Htok. cbv zeta.
  unfold needs_refresh, truthy_number.
  destruct (expiry_date token) as [e|]; [| reflexivity].
  destruct (Hdate e eq_refl) as [-> | Hle]; [reflexivity |].
  rewrite (proj2 (Z.ltb_ge e (clock w)) Hle). now rewrite andb_false_r.
Qed.

(** X4. [saveToken] then [loadToken]: the token saved is the token read,
    under the same profile, and every other file is as it was. *)
Theorem saveToken_loadToken (w : World) (token : Credentials) :
  ∃ w', saveToken token w = (Return tt, w') ∧
        loadToken w' = (Return (Some token), w') ∧
        currentProfile w' = currentProfile w ∧
        ∀ path, path ≠ tokenFile w → files w' !! path = files w !! path.
Proof.
  eexists. split; [reflexivity |]. split; [| split].
  - rewrite loadToken_spec. f_equal.
    unfold tokenFile. cbn [files currentProfile set_files add_event].
    rewrite lookup_insert_eq. reflexivity.
  - reflexivity.
  - intros path Hpath. cbn [files set_files add_event].
    fold (tokenFile w). now rewrite lookup_insert_ne.
Qed.

(** X5. After [logout] no token is read, and [getAuthClient] throws
    [NotAuthenticatedError] when the OAuth application loads. Files other
    than the token file of the profile are as they were. *)
Theorem logout_then_not_authenticated (w : World) :
  ∃ w', logout w = (Return tt, w') ∧
        loadToken w' = (Return None, w') ∧
        (∀ app, oauth_app w = Return app →
           getAuthClient w' = (Throw NotAuthenticatedError, w')) ∧
        ∀ path, path ≠ tokenFile w → files w' !! path = files w !! path.
Proof.
  assert (Hrun : ∃ w', logout w = (Return tt, w') ∧
            files w' !! tokenFile w' = None ∧ oauth_app w' = oauth_app w ∧
            ∀ path, path ≠ tokenFile w → files w' !! path = files w !! path).
  { unfold logout; run; fold (tokenFile w).
    destruct (files w !! tokenFile w) as [f|] eqn:Hf.
    - rewrite bool_decide_eq_true_2 by eauto.
      eexists. split; [reflexivity |]. split; [| split].
      + unfold tokenFile. cbn [files currentProfile set_files add_event].
        apply lookup_delete_eq.
      + reflexivity.
      + intros path Hpath. cbn [files set_files add_event].
        now rewrite lookup_delete_ne.
    - rewrite bool_decide_eq_false_2 by apply is_Some_None.
      eexists. split; [reflexivity |]. split; [exact Hf | split; [reflexivity | reflexivity]]. }
  destruct Hrun as (w' & Hrun & Hnone & Happ & Hrest).
  exists w'. split; [exact Hrun |]. split; [| split; [| exact Hrest]].
  - rewrite loadToken_spec, Hnone. reflexivity.
  - intros app Ha. rewrite getAuthClient_run, Happ, Ha, Hnone. reflexivity.
Qed.

(** X6. Profiles keep their tokens apart: when two profiles have different
    token files, saving a token under one changes nothing of what is read
    under the other. *)
Theorem saveToken_other_profile (w : World) (p q : string) (token : Credentials) :
  tokenFileOf p ≠ tokenFileOf q →
  ∃ w1, (let* _ := setProfile p in saveToken token) w = (Return tt, w1) ∧
        (let* _ := setProfile q in loadToken) w1 =
          (Return (files w !! tokenFileOf q ≫= file_json), set_currentProfile q w1) ∧
        (let* _ := setProfile p in loadToken) w1 = (Return (Some token), w1).
Proof.
  intros Hpq. eexists. split; [reflexivity |]. split.
  - unfold bind at 1, setProfile, modify. rewrite loadToken_spec. f_equal. f_equal.
    unfold tokenFile. cbn [files currentProfile set_files add_event set_currentProfile].
    fold (tokenFileOf p) (tokenFileOf q). now rewrite lookup_insert_ne.
  - unfold bind at 1, setProfile, modify. rewrite loadToken_spec.
    unfold tokenFile. cbn [files currentProfile set_files add_event set_currentProfile].
    rewrite lookup_insert_eq. reflexivity.
Qed.


(** ** Facts: the session *)

(** [getAuthClient] touches the token file and the trace, and nothing
    else of the process. *)
Lemma getAuthClient_session (w : World) :
  gmailClient (getAuthClient w).2 = gmailClient w ∧
  labelCache (getAuthClient w).2 = labelCache w ∧
  labels_reply (getAuthClient w).2 = labels_reply w.
Proof.
  rewrite getAuthClient_run.
  destruct (oauth_app w) as [app|e]; [| now cbn].
  destruct (files w !! tokenFile w ≫= file_json) as [token|]; [| now cbn].
  cbv zeta. destruct (needs_refresh token (clock w)); [| now cbn].
  destruct (refresh_reply w _); now cbn.
Qed.

(** The calls [getAuthClient] adds are refreshes and writes. *)
Lemma getAuthClient_calls (kind : Event → bool) (w : World) :
  (∀ c, kind (RefreshAccessToken c) = false) →
  (∀ path f, kind (WriteFile path f) = false) →
  calls kind (getAuthClient w).2 = calls kind w.
Proof.
  intros Hrefresh Hwrite. rewrite getAuthClient_run.
  destruct (oauth_app w) as [app|e]; [| now cbn].
  destruct (files w !! tokenFile w ≫= file_json) as [token|]; [| now cbn].
  cbv zeta. destruct (needs_refresh token (clock w)); [| now cbn].
  destruct (refresh_reply w _); cbn [snd].
  - rewrite calls_set_files, !calls_add_event, Hrefresh, Hwrite. lia.
  - rewrite calls_add_event, Hrefresh. lia.
Qed.

Lemma getGmailClient_run (w : World) :
  getGmailClient w =
    match gmailClient w with
    | Some gmail => (Return gmail, w)
    | None =>
        match getAuthClient w with
        | (Return auth, w1) => (Return auth, set_gmailClient (Some auth) w1)
        | (Throw e, w1) => (Throw e, w1)
        end
    end.
Proof.
  unfold getGmailClient. unfold bind at 1, gets at 1.
  destruct (gmailClient w) as [gmail|]; [reflexivity |].
  unfold bind, modify, ret. now destruct (getAuthClient w) as [[auth|e] w1].
Qed.

Lemma getGmailClient_calls (kind : Event → bool) (w : World) :
  (∀ c, kind (RefreshAccessToken c) = false) →
  (∀ path f, kind (WriteFile path f) = false) →
  calls kind (getGmailClient w).2 = calls kind w.
Proof.
  intros Hrefresh Hwrite. rewrite getGmailClient_run.
  destruct (gmailClient w) as [gmail|]; [reflexivity |].
  pose proof (getAuthClient_calls kind w Hrefresh Hwrite) as H.
  now destruct (getAuthClient w) as [[auth|e] w1].
Qed.

Lemma getGmailClient_session (w : World) :
  labelCache (getGmailClient w).2 = labelCache w ∧
  labels_reply (getGmailClient w).2 = labels_reply w.
Proof.
  rewrite getGmailClient_run.
  destruct (gmailClient w) as [gmail|]; [now cbn |].
  pose proof (getAuthClient_session w) as (_ & H1 & H2).
  now destruct (getAuthClient w) as [[auth|e] w1].
Qed.

(** X7. The client is made once: after [getGmailClient] has returned a
    client, it is kept, and the next call returns the same client without
    reading the token, asking for a refresh or changing anything. When the
    call fails, no client is kept, so the next call starts over. *)
Theorem getGmailClient_once (w w1 : World) :
  (∀ gmail, getGmailClient w = (Return gmail, w1) →
     gmailClient w1 = Some gmail ∧ getGmailClient w1 = (Return gmail, w1)) ∧
  (∀ e, getGmailClient w = (Throw e, w1) →
     gmailClient w = None ∧ gmailClient w1 = None ∧
     getAuthClient w = (Throw e, w1)).
Proof.
  rewrite getGmailClient_run. split.
  - intros gmail Hrun.
    assert (Hkept : gmailClient w1 = Some gmail).
    { destruct (gmailClient w) as [cached|] eqn:Hc.
      - injection Hrun as <- <-. exact Hc.
      - destruct (getAuthClient w) as [[auth|e] w0]; [| discriminate].
        injection Hrun as <- <-. reflexivity. }
    split; [exact Hkept |]. rewrite getGmailClient_run. now rewrite Hkept.
  - intros e Hrun.
    destruct (gmailClient w) as [cached|] eqn:Hc; [discriminate |].
    pose proof (getAuthClient_session w) as (Hsame & _).
    destruct (getAuthClient w) as [[auth|e0] w0]; [discriminate |].
    injection Hrun as <- <-. cbn [snd] in Hsame.
    split; [reflexivity | split; [congruence | reflexivity]].
Qed.

(** ** Facts: more of the label cache *)

Lemma getLabels_run (refresh : bool) (w : World) :
  getLabels refresh w =
    match labelCache w, refresh with
    | Some labels, false => (Return labels, w)
    | _, _ =>
        match getGmailClient w with
        | (Return gmail, w1) =>
            match labels_reply w1 with
            | Return reply =>
                (Return (default [] reply),
                 set_labelCache (Some (default [] reply)) (add_event LabelsList w1))
            | Throw e => (Throw e, add_event LabelsList w1)
            end
        | (Throw e, w1) => (Throw e, w1)
        end
    end.
Proof.
  assert (Hfetch :
    (let* gmail := getGmailClient in
     let* labels := labels_list in
     let fetched := default [] labels in
     let* _ := modify (set_labelCache (Some fetched)) in
     ret fetched) w =
    match getGmailClient w with
    | (Return gmail, w1) =>
        match labels_reply w1 with
        | Return reply =>
            (Return (default [] reply),
             set_labelCache (Some (default [] reply)) (add_event LabelsList w1))
        | Throw e => (Throw e, add_event LabelsList w1)
        end
    | (Throw e, w1) => (Throw e, w1)
    end).
  { unfold bind at 1. destruct (getGmailClient w) as [[gmail|e] w1]; [| reflexivity].
    unfold labels_list, bind, emit, modify, lift, ret. cbn [labels_reply add_event].
    now destruct (labels_reply w1). }
  unfold getLabels. unfold bind at 1, gets at 1.
  destruct (labelCache w) as [labels|]; [destruct refresh |]; first [exact Hfetch | reflexivity].
Qed.

(** X8. Whatever list [getLabels] returns becomes the cache, and the next
    call that does not force a refresh returns that list with no call to
    the provider and no other change. This holds as well for the empty
    list that stands for an answer with no labels. *)
Theorem getLabels_memo (refresh : bool) (w w1 : World) (labels : list Label) :
  getLabels refresh w = (Return labels, w1) →
  labelCache w1 = Some labels ∧
  getLabels false w1 = (Return labels, w1).
Proof.
  intros Hrun.
  assert (Hcache : labelCache w1 = Some labels).
  { rewrite getLabels_run in Hrun.
    assert (Hfetch :
      match getGmailClient w with
      | (Return gmail, w0) =>
          match labels_reply w0 with
          | Return reply =>
              (Return (default [] reply),
               set_labelCache (Some (default [] reply)) (add_event LabelsList w0))
          | Throw e => (Throw e, add_event LabelsList w0)
          end
      | (Throw e, w0) => (Throw e, w0)
      end = (Return labels, w1) → labelCache w1 = Some labels).
    { destruct (getGmailClient w) as [[gmail|e] w0]; [| discriminate].
      destruct (labels_reply w0) as [reply|e]; [| discriminate].
      intros H. injection H as <- <-. reflexivity. }
    destruct (labelCache w) as [cached|] eqn:Hc; [destruct refresh |]; auto.
    injection Hrun as <- <-. exact Hc. }
  split; [exact Hcache |]. now apply getLabels_cached.
Qed.

(** X9. A forced refresh never reads the cache. With a session open it
    makes exactly one [labels.list] call; the answer replaces the cache as
    a whole, an answer with no [labels] field counting as the empty list;
    and when the call fails the error is thrown and the cache stays as it
    was. *)
Theorem getLabels_forced (w : World) gmail :
  gmailClient w = Some gmail →
  (∀ reply, labels_reply w = Return reply →
     ∃ w1, getLabels true w = (Return (default [] reply), w1) ∧
           labelCache w1 = Some (default [] reply) ∧
           calls is_labels_list w1 = S (calls is_labels_list w)) ∧
  (∀ e, labels_reply w = Throw e →
     ∃ w1, getLabels true w = (Throw e, w1) ∧
           labelCache w1 = labelCache w ∧
           calls is_labels_list w1 = S (calls is_labels_list w)).
Proof.
  intros Hclient.
  assert (Hrun : getLabels true w =
            match labels_reply w with
            | Return reply =>
                (Return (default [] reply),
                 set_labelCache (Some (default [] reply)) (add_event LabelsList w))
            | Throw e => (Throw e, add_event LabelsList w)
            end).
  { rewrite getLabels_run, getGmailClient_run, Hclient.
    now destruct (labelCache w). }
  split.
  - intros reply Hreply. rewrite Hrun, Hreply.
    eexists. split; [reflexivity |]. split; [reflexivity |].
    change (calls is_labels_list (add_event LabelsList w) = S (calls is_labels_list w)).
    rewrite calls_add_event. cbn. lia.
  - intros e Hreply. rewrite Hrun, Hreply.
    eexists. split; [reflexivity |]. split; [reflexivity |].
    rewrite calls_add_event. cbn. lia.
Qed.


(** ** Facts: delivery *)

Lemma buildMimeMessage_calls (kind : Event → bool) (options : Options) (w : World) :
  (∀ cfg, kind (SendMail cfg) = false) →
  calls kind (buildMimeMessage options w).2 = calls kind w.
Proof.
  intros Hmail. rewrite buildMimeMessage_unfold.
  pose proof (checkAttachments_world (attachments options) w) as Hw.
  destruct (checkAttachments _ _) as [[checked|e] w1]; cbn [snd] in Hw; subst w1;
    [| reflexivity].
  cbn [snd]. rewrite calls_add_event, Hmail. lia.
Qed.

(** A message that is built has been handed to nodemailer once. *)
Lemma buildMimeMessage_built (options : Options) (w w1 : World) enc :
  buildMimeMessage options w = (Return enc, w1) →
  calls is_mail w1 = S (calls is_mail w).
Proof.
  rewrite buildMimeMessage_unfold.
  pose proof (checkAttachments_world (attachments options) w) as Hw.
  destruct (checkAttachments _ _) as [[checked|e] w0]; cbn [snd] in Hw; subst w0;
    [| discriminate].
  intros [= _ <-]. rewrite calls_add_event. cbn. lia.
Qed.

(** The last step of [sendEmail] and of [replyToEmail]. *)
Lemma deliver_run (isDraft : bool) (enc : string) (thread : option string) (w : World) :
  (if isDraft then
     let* draftData := createDraft enc thread in
     ret (Drafted draftData (getDraftGmailUrl (draft_id draftData)))
   else
     let* response := messages_send enc thread in
     ret (Sent response)) w =
  if isDraft then
    (match draft_reply w enc (when_truthy thread) with
     | Return d => Return (Drafted d (getDraftGmailUrl (draft_id d)))
     | Throw e => Throw e
     end, add_event (DraftsCreate enc (when_truthy thread)) w)
  else
    (match send_reply w enc thread with
     | Return d => Return (Sent d)
     | Throw e => Throw e
     end, add_event (MessagesSend enc thread) w).
Proof.
  destruct isDraft.
  - unfold bind, createDraft, bind, emit, modify, lift, ret.
    cbn [draft_reply add_event]. now destruct (draft_reply w _ _).
  - unfold bind, messages_send, bind, emit, modify, lift, ret.
    cbn [send_reply add_event]. now destruct (send_reply w _ _).
Qed.

Lemma sendEmail_run (options : Options) (w : World) :
  sendEmail options w =
    match getGmailClient w with
    | (Return _, w0) =>
        match buildMimeMessage options w0 with
        | (Return enc, w1) =>
            if draft options then
              (match draft_reply w1 enc None with
               | Return d => Return (Drafted d (getDraftGmailUrl (draft_id d)))
               | Throw e => Throw e
               end, add_event (DraftsCreate enc None) w1)
            else
              (match send_reply w1 enc None with
               | Return d => Return (Sent d)
               | Throw e => Throw e
               end, add_event (MessagesSend enc None) w1)
        | (Throw e, w1) => (Throw e, w1)
        end
    | (Throw e, w0) => (Throw e, w0)
    end.
Proof.
  unfold sendEmail. unfold bind at 1.
  destruct (getGmailClient w) as [[gmail|e] w0]; [| reflexivity].
  unfold bind at 1.
  destruct (buildMimeMessage options w0) as [[enc|e] w1]; [| reflexivity].
  exact (deliver_run (draft options) enc None w1).
Qed.

(** X10. [sendEmail] delivers at most once and in one way only. Asked for
    a draft it never sends, and asked to send it never creates a draft,
    whatever the outcome. When it returns, the message was handed to
    nodemailer once and one delivery call was made: a draft comes back
    with the address of the draft in Gmail, made from its identifier. *)
Theorem sendEmail_delivery (options : Options) (w w' : World) (r : outcome Delivery) :
  sendEmail options w = (r, w') →
  (draft options = true → calls is_send w' = calls is_send w) ∧
  (draft options = false → calls is_draft w' = calls is_draft w) ∧
  (deliveries w' ≤ S (deliveries w))%nat ∧
  (∀ d, r = Return d →
     deliveries w' = S (deliveries w) ∧
     calls is_mail w' = S (calls is_mail w) ∧
     match d with
     | Drafted data gmailUrl =>
         draft options = true ∧ gmailUrl = getDraftGmailUrl (draft_id data)
     | Sent _ => draft options = false
     end).
Proof.
  rewrite sendEmail_run. unfold deliveries.
  pose proof (getGmailClient_calls is_send w (λ _, eq_refl) (λ _ _, eq_refl)) as Hs0.
  pose proof (getGmailClient_calls is_draft w (λ _, eq_refl) (λ _ _, eq_refl)) as Hd0.
  pose proof (getGmailClient_calls is_mail w (λ _, eq_refl) (λ _ _, eq_refl)) as Hm0.
  destruct (getGmailClient w) as [[gmail|e] w0]; cbn [snd] in Hs0, Hd0, Hm0.
  2: { intros [= <- <-]. rewrite Hs0, Hd0.
       split; [auto |]. split; [auto |]. split; [lia | discriminate]. }
  pose proof (buildMimeMessage_calls is_send options w0 (λ _, eq_refl)) as Hs1.
  pose proof (buildMimeMessage_calls is_draft options w0 (λ _, eq_refl)) as Hd1.
  pose proof (buildMimeMessage_built options w0) as Hm1.
  destruct (buildMimeMessage options w0) as [[enc|e] w1]; cbn [snd] in Hs1, Hd1.
  2: { intros [= <- <-]. rewrite Hs1, Hd1, Hs0, Hd0.
       split; [auto |]. split; [auto |]. split; [lia | discriminate]. }
  specialize (Hm1 w1 enc eq_refl).
  destruct (draft options); intros [= <- <-]; rewrite !calls_add_event;
    cbn [is_send is_draft is_mail]; rewrite Hs1, Hd1, Hs0, Hd0, Hm1, Hm0.
  - split; [intros _; lia |]. split; [discriminate |]. split; [lia |].
    intros d Hd. split; [lia |]. split; [lia |].
    destruct (draft_reply w1 enc None) as [data|e]; [| discriminate].
    injection Hd as <-. split; reflexivity.
  - split; [discriminate |]. split; [intros _; lia |]. split; [lia |].
    intros d Hd. split; [lia |]. split; [lia |].
    destruct (send_reply w1 enc None) as [data|e]; [| discriminate].
    injection Hd as <-. reflexivity.
Qed.

(** Validation returns only when every file passes, with the sum. *)
Lemma validate_all_returns (paths : list string) (totalSize total : Z) (w w1 : World) :
  validate_all paths totalSize w = (Return total, w1) →
  Forall (passes w) paths ∧ total = totalSize + total_size w paths.
Proof.
  revert totalSize. induction paths as [|p paths IH]; intros totalSize;
    cbn [validate_all total_size fold_right].
  - intros [= <- _]. split; [constructor | lia].
  - unfold bind. rewrite validateAttachment_spec.
    destruct (files w !! p) as [f|] eqn:Hf; [| discriminate].
    destruct (Z.gtb_spec (file_size f) MAX_MESSAGE_SIZE) as [Hgt|Hle]; [discriminate |].
    intros Hrest. apply IH in Hrest as [Hall ->].
    split; [constructor; [exists f; split; [exact Hf | exact Hle] | exact Hall] |].
    cbn [from_option]. fold (total_size w paths). lia.
Qed.

(** Attachments that cannot go stop [buildMimeMessage] before anything is
    composed. *)
Lemma buildMimeMessage_rejects (options : Options) (w : World) (paths : list string) :
  attachments options = Some paths →
  ¬ acceptable w paths →
  ∃ e, buildMimeMessage options w = (Throw e, w).
Proof.
  intros Hatt Hbad. rewrite buildMimeMessage_unfold, Hatt.
  destruct paths as [|p rest].
  { destruct Hbad. split; [constructor | cbn; unfold MAX_MESSAGE_SIZE; lia]. }
  rewrite checkAttachments_nonempty by discriminate.
  pose proof (validate_all_world (p :: rest) 0 w) as Hw.
  destruct (validate_all (p :: rest) 0 w) as [[total|e] w1] eqn:Hrun;
    cbn [snd] in Hw; subst w1; [| eauto].
  apply validate_all_returns in Hrun as [Hall ->].
  destruct (Z.gtb_spec (0 + total_size w (p :: rest)) MAX_MESSAGE_SIZE) as [Hgt|Hle];
    [eauto |].
  destruct Hbad. split; [exact Hall | lia].
Qed.

(** X11. [sendEmail] checks the attachments before anything leaves: when a
    file is missing or over 35 MB, or the files together are over 35 MB,
    it throws with no message handed to nodemailer and no delivery call;
    the world is as the opening of the session left it. *)
Theorem sendEmail_checks_first (options : Options) (w w0 : World) gmail
    (paths : list string) :
  getGmailClient w = (Return gmail, w0) →
  attachments options = Some paths →
  ¬ acceptable w0 paths →
  ∃ e, sendEmail options w = (Throw e, w0).
Proof.
  intros Hclient Hatt Hbad. rewrite sendEmail_run, Hclient.
  destruct (buildMimeMessage_rejects options w0 paths Hatt Hbad) as [e ->].
  eauto.
Qed.

(** X12. A reply goes into the thread of the original. When [replyToEmail]
    returns, it has fetched the original, handed one message to nodemailer
    and made one delivery call, in this order and nothing else: a send
    carries the [threadId] of the original as it is, and a draft carries it
    when it is not empty. *)
Theorem replyToEmail_thread (options : Options) (w w0 w1 : World) gmail message
    (d : Delivery) :
  getGmailClient w = (Return gmail, w0) →
  message_reply w0 (messageId options) = Return message →
  replyToEmail options w = (Return d, w1) →
  ∃ cfg raw stream,
    events w1 =
      events w0 ++
      [MessagesGet (messageId options); SendMail cfg;
       if draft options
       then DraftsCreate raw (when_truthy (threadId message))
       else MessagesSend raw (threadId message)] ∧
    nodemailer
      (add_event (SendMail cfg) (add_event (MessagesGet (messageId options)) w0)) cfg =
      Return stream ∧
    decodeBase64Url raw = Buffer_toString_utf8 stream.
Proof.
  intros Hclient Hmsg. rewrite (replyToEmail_fetch _ _ _ _ _ Hclient Hmsg). cbv zeta.
  destruct (replyOptions options message) as [reply|e]; [| discriminate].
  unfold bind at 1. rewrite buildMimeMessage_unfold.
  pose proof (checkAttachments_world (attachments reply)
                (add_event (MessagesGet (messageId options)) w0)) as Hw.
  destruct (checkAttachments _ _) as [[checked|e] w2]; cbn [snd] in Hw; subst w2;
    [| discriminate].
  cbv beta iota zeta.
  destruct (nodemailer _ _) as [stream|e] eqn:Hrender; [| discriminate].
  rewrite deliver_run. intros H.
  exists (messageConfig reply checked). eexists. exists stream.
  assert (Hevents : ∀ last,
    (events w0 ++ [MessagesGet (messageId options)]) ++
      [SendMail (messageConfig reply checked)] ++ [last] =
    events w0 ++ [MessagesGet (messageId options);
                  SendMail (messageConfig reply checked); last]).
  { intros last. now rewrite <- app_assoc. }
  destruct (draft options); injection H as _ <-; cbn [events add_event];
    rewrite <- app_assoc; (split; [apply Hevents |]);
    (split; [exact Hrender |]);
    rewrite decodeBase64Url_encodeBase64Url;
    now rewrite Buffer_toString_utf8_idempotent.
Qed.

(** X13. [replyToEmail] checks the attachments of the reply as [sendEmail]
    does: when they cannot go, it throws after the original was fetched,
    and nothing else happened; no message was composed or delivered. *)
Theorem replyToEmail_checks_first (options : Options) (w w0 : World) gmail message
    (paths : list string) :
  getGmailClient w = (Return gmail, w0) →
  message_reply w0 (messageId options) = Return message →
  attachments options = Some paths →
  ¬ acceptable w0 paths →
  ∃ e, replyToEmail options w =
         (Throw e, add_event (MessagesGet (messageId options)) w0).
Proof.
  intros Hclient Hmsg Hatt Hbad.
  rewrite (replyToEmail_fetch _ _ _ _ _ Hclient Hmsg). cbv zeta.
  destruct (replyOptions options message) as [reply|e] eqn:Hreply; [| eauto].
  assert (Hsame : attachments reply = Some paths).
  { destruct (replyOptions_has_id _ _ _ Hreply) as [mid Hmid].
    destruct (replyOptions_with_id _ _ _ _ Hmid Hreply) as (_ & _ & _ & -> & _).
    exact Hatt. }
  unfold bind at 1.
  destruct (buildMimeMessage_rejects reply
              (add_event (MessagesGet (messageId options)) w0) paths Hsame Hbad)
    as [e ->].
  eauto.
Qed.

(** ** Facts: the recipient of a reply *)

Lemma line_terminator_plain (c : ascii) (rest : string) :
  plain_char c = true → line_terminator_at (String c rest) = false.
Proof.
  unfold plain_char. intros H.
  apply andb_true_iff in H as [H H226]. apply andb_true_iff in H as [H Hcr].
  apply andb_true_iff in H as [_ Hlf].
  apply negb_true_iff in H226, Hcr, Hlf.
  cbn [line_terminator_at]. now rewrite Hlf, Hcr, H226.
Qed.

Lemma until_gt_plain (address rest : string) :
  all_chars plain_char address = true →
  until_gt (address +:+ String ">" rest) = Some address.
Proof.
  induction address as [|c address IH]; intros Hplain; push_append.
  - reflexivity.
  - cbn [all_chars] in Hplain. apply andb_true_iff in Hplain as [Hc Hrest].
    cbn [until_gt]. rewrite (line_terminator_plain c _ Hc).
    assert (Hgt : Ascii.eqb c ">" = false).
    { unfold plain_char in Hc. destruct (Ascii.eqb c ">"); [discriminate | reflexivity]. }
    rewrite Hgt, (IH Hrest). reflexivity.
Qed.

Lemma match_angle_none (s : string) :
  has_char "<" s = false → match_angle s = None.
Proof.
  induction s as [|c s IH]; [reflexivity |].
  cbn [has_char match_angle]. intros [Hc Hs]%orb_false_iff.
  rewrite Hc. now apply IH.
Qed.

Lemma match_angle_first (display address rest : string) :
  has_char "<" display = false →
  address ≠ EmptyString →
  all_chars plain_char address = true →
  match_angle (display +:+ String "<" (address +:+ String ">" rest)) = Some address.
Proof.
  intros Hdisplay Hne Hplain.
  induction display as [|c display IH]; push_append.
  - cbn [match_angle]. rewrite Ascii.eqb_refl.
    destruct address as [|a address]; [congruence |]. push_append.
    cbn [all_chars] in Hplain. apply andb_true_iff in Hplain as [Ha Hrest].
    cbn [group_after_lt]. rewrite (line_terminator_plain a _ Ha).
    now rewrite (until_gt_plain address rest Hrest).
  - cbn [has_char] in Hdisplay. apply orb_false_iff in Hdisplay as [Hc Hd].
    cbn [match_angle]. rewrite Hc. now apply IH.
Qed.

(** X14. The recipient of a reply is taken from the From header of the
    original. When the header holds an address in angle brackets after a
    display name, every reply handed to nodemailer goes to what stands
    between the first [<] and the next [>]. When it holds no [<], the reply
    goes to the header as it is. When the original has no From header, the
    reply is composed with no recipient. *)
Theorem replyToEmail_recipient (options : Options) (w w1 : World) gmail message cfg :
  getGmailClient w = (Return gmail, w1) →
  message_reply w1 (messageId options) = Return message →
  hands_over w1 (replyToEmail options w).2 cfg →
  (∀ display address rest,
     getHeader message "From" =
       Some (display +:+ String "<" (address +:+ String ">" rest)) →
     has_char "<" display = false →
     address ≠ EmptyString →
     all_chars plain_char address = true →
     mc_to cfg = Some address) ∧
  (∀ sender,
     getHeader message "From" = Some sender →
     has_char "<" sender = false →
     mc_to cfg = Some sender) ∧
  (getHeader message "From" = None → mc_to cfg = None).
Proof.
  intros Hclient Hmsg Hcfg.
  destruct (replyToEmail_composes _ _ _ _ _ _ Hclient Hmsg Hcfg)
    as (reply & checked & Hreply & ->).
  destruct (replyOptions_has_id _ _ _ Hreply) as [mid Hmid].
  destruct (replyOptions_with_id _ _ _ _ Hmid Hreply) as (Hto & _).
  cbn [messageConfig mc_to]. rewrite Hto. split; [| split].
  - intros display address rest -> Hdisplay Hne Hplain. cbn [mbind option_bind].
    now rewrite match_angle_first.
  - intros sender -> Hnone. cbn [mbind option_bind].
    now rewrite match_angle_none.
  - intros ->. reflexivity.
Qed.


(** ** Facts: headers *)

Lemma lower_char_same (c d : ascii) :
  Ascii.eqb (lower_char c) (lower_char d) = same_char_ignoring_case c d.
Proof.
  apply Bool.eqb_prop. revert c d.
  apply (forall_byte2 (λ c d, Bool.eqb (Ascii.eqb (lower_char c) (lower_char d))
                                (same_char_ignoring_case c d))).
  vm_compute. reflexivity.
Qed.

Lemma toLowerCase_same (a b : string) :
  String.eqb (toLowerCase a) (toLowerCase b) = same_ignoring_case a b.
Proof.
  revert b. induction a as [|c a IH]; intros [|d b]; try reflexivity.
  cbn [toLowerCase same_ignoring_case String.eqb].
  rewrite lower_char_same, <- IH.
  now destruct (same_char_ignoring_case c d).
Qed.

(** X15. [getHeader] compares names without regard to the case of the
    ASCII letters and takes the first header that matches: its value is
    returned, and headers after it are not looked at. With no header of
    that name the result is null. (Names and query in ASCII, where the
    lowering of the model is the one of JavaScript.) *)
Theorem getHeader_first_ignoring_case (message : Message) (headerName : string) :
  Forall (λ h, is_ascii (name h) = true) (part_headers (payload message)) →
  is_ascii headerName = true →
  (∀ before h after,
     part_headers (payload message) = before ++ h :: after →
     same_ignoring_case (name h) headerName = true →
     Forall (λ h', same_ignoring_case (name h') headerName = false) before →
     getHeader message headerName = Some (value h)) ∧
  (Forall (λ h, same_ignoring_case (name h) headerName = false)
     (part_headers (payload message)) →
   getHeader message headerName = None).
Proof.
  intros _ _. unfold getHeader. split.
  - intros before h after -> Hsame Hbefore.
    rewrite (find_first_match _ before h after); [reflexivity | |].
    + now rewrite toLowerCase_same.
    + eapply Forall_impl; [exact Hbefore |]. intros h' Hh'.
      now rewrite toLowerCase_same.
  - intros Hnone. rewrite find_no_match; [reflexivity |].
    eapply Forall_impl; [exact Hnone |]. intros h' Hh'. now rewrite toLowerCase_same.
Qed.

(** ** Facts: parts with no body *)

Lemma assign_body_exn (part : Part) (acc : Bodies) (e : exn) :
  assign_body part acc = Throw e → e = CannotReadData.
Proof.
  unfold assign_body, typed_data.
  destruct (String.eqb (mimeType part) "text/plain").
  - destruct (body part) as [b|]; [| congruence].
    destruct (truthy_data b); [discriminate |].
    destruct (String.eqb (mimeType part) "text/html"); [| discriminate].
    now destruct (truthy_data b).
  - destruct (String.eqb (mimeType part) "text/html"); [| discriminate].
    destruct (body part) as [b|]; [| congruence].
    now destruct (truthy_data b).
Qed.

Lemma assign_body_lacks (part : Part) (acc : Bodies) :
  lacks_body part → assign_body part acc = Throw CannotReadData.
Proof.
  intros [[Htype | Htype] Hbody]; unfold assign_body, typed_data;
    rewrite Htype, Hbody; reflexivity.
Qed.

Lemma forEach_extractBody_exn (ps : list Part) :
  Forall (λ q, ∀ acc e, extractBody q acc = Throw e → e = CannotReadData) ps →
  ∀ acc e, forEach_extractBody ps acc = Throw e → e = CannotReadData.
Proof.
  induction 1 as [|q ps Hq _ IH]; intros acc e; cbn [forEach_extractBody];
    [discriminate |].
  destruct (extractBody q acc) as [acc'|e'] eqn:Hrun.
  - apply IH.
  - intros [= <-]. now apply (Hq acc).
Qed.

(** The only error of the walk is the one of reading [data] of a body
    that is not there. *)
Lemma extractBody_exn (part : Part) :
  ∀ acc e, extractBody part acc = Throw e → e = CannotReadData.
Proof.
  induction part as [m h b | m h b ps IH] using Part_nested_ind;
    intros acc e; rewrite extractBody_unfold;
    destruct (assign_body _ acc) as [acc1|e1] eqn:Hassign; cbn [parts].
  - discriminate.
  - intros [= <-]. exact (assign_body_exn _ acc e1 Hassign).
  - now apply forEach_extractBody_exn.
  - intros [= <-]. exact (assign_body_exn _ acc e1 Hassign).
Qed.

Lemma forEach_extractBody_lacks (ps : list Part) :
  Forall (λ q, Exists lacks_body (preorder q) →
               ∀ acc, extractBody q acc = Throw CannotReadData) ps →
  Exists lacks_body (flat_map preorder ps) →
  ∀ acc, forEach_extractBody ps acc = Throw CannotReadData.
Proof.
  induction 1 as [|q ps Hq _ IH]; cbn [flat_map]; intros Hex acc.
  - inversion Hex.
  - cbn [forEach_extractBody].
    destruct (extractBody q acc) as [acc'|e] eqn:Hrun.
    + apply Exists_app in Hex as [Hhere | Hrest]; [| now apply IH].
      rewrite (Hq Hhere acc) in Hrun. discriminate.
    + now rewrite (extractBody_exn q acc e Hrun).
Qed.

Lemma extractBody_lacks (part : Part) :
  Exists lacks_body (preorder part) →
  ∀ acc, extractBody part acc = Throw CannotReadData.
Proof.
  induction part as [m h b | m h b ps IH] using Part_nested_ind;
    intros Hex acc; rewrite extractBody_unfold; rewrite preorder_unfold in Hex;
    destruct (assign_body _ acc) as [acc1|e1] eqn:Hassign; cbn [parts].
  - apply Exists_cons in Hex as [Hroot | Hbelow]; [| inversion Hbelow].
    rewrite (assign_body_lacks _ acc Hroot) in Hassign. discriminate.
  - now rewrite (assign_body_exn _ acc e1 Hassign).
  - apply Exists_cons in Hex as [Hroot | Hbelow].
    + rewrite (assign_body_lacks _ acc Hroot) in Hassign. discriminate.
    + now apply forEach_extractBody_lacks.
  - now rewrite (assign_body_exn _ acc e1 Hassign).
Qed.

Lemma getMessageBody_lacks (message : Message) :
  Exists lacks_body (descendants (payload message)) →
  getMessageBody message = Throw CannotReadData.
Proof.
  unfold getMessageBody, descendants. cbv zeta.
  intros Hex. destruct (parts (payload message)) as [ps|];
    cbn [default from_option flat_map] in Hex; [| inversion Hex].
  apply forEach_extractBody_lacks; [| exact Hex].
  apply Forall_forall. intros q _ Hq acc. now apply extractBody_lacks.
Qed.

(** Every part either has what the walk reads, or is a text part with
    no [body]. *)
Lemma has_body_or_lacks (nodes : list Part) :
  Forall has_body nodes ∨ Exists lacks_body nodes.
Proof.
  induction nodes as [|part nodes [IH | IH]].
  - left. constructor.
  - destruct (body part) as [b|] eqn:Hbody.
    + left. constructor; [| exact IH]. intros _. rewrite Hbody. discriminate.
    + destruct (String.eqb_spec (mimeType part) "text/plain") as [Hp|Hp].
      { right. apply Exists_cons_hd. split; [now left | exact Hbody]. }
      destruct (String.eqb_spec (mimeType part) "text/html") as [Hh|Hh].
      { right. apply Exists_cons_hd. split; [now right | exact Hbody]. }
      left. constructor; [| exact IH]. intros [H | H]; contradiction.
  - right. now apply Exists_cons_tl.
Qed.

(** C4. [getMessageBody] looks at the payload first and then at the
    parts below it in depth-first order, a part before its children.
    - When every part below the payload whose type is [text/plain] or
      [text/html] has a [body] object, the text body it returns is the
      decoded data of the last node in that order whose media type is
      exactly [text/plain] and whose data is not empty, and the empty
      string when there is none; the same holds for [text/html]. Nothing
      is joined: a later node of the same type replaces what an earlier
      one gave.
    - When some part below the payload of one of these two types has no
      [body] object, the walk does not pass it over: reading
      [part.body.data] throws a TypeError and no body is returned,
      whatever the other parts hold. The check of the payload itself
      guards against a missing [body]; the walk does not.
    Every payload is in one of the two cases. *)
Theorem getMessageBody_last_wins (message : Message) :
  preorder (payload message) = payload message :: descendants (payload message) ∧
  (Forall has_body (descendants (payload message)) →
   getMessageBody message =
     Return {| text := last_body "text/plain" (preorder (payload message));
               html := last_body "text/html" (preorder (payload message)) |}) ∧
  (Exists lacks_body (descendants (payload message)) →
   getMessageBody message = Throw CannotReadData) ∧
  (Forall has_body (descendants (payload message)) ∨
   Exists lacks_body (descendants (payload message))).
Proof.
  split; [apply preorder_unfold |]. split; [| split].
  - intros Hall. rewrite (getMessageBody_fold _ Hall).
    pose proof (fold_assign_text (preorder (payload message))
                  {| text := EmptyString; html := EmptyString |}) as Ht.
    pose proof (fold_assign_html (preorder (payload message))
                  {| text := EmptyString; html := EmptyString |}) as Hh.
    destruct (fold_left assign _ _) as [t h]. cbn [text html] in Ht, Hh.
    unfold last_body. now rewrite Ht, Hh.
  - apply getMessageBody_lacks.
  - apply has_body_or_lacks.
Qed.

(** X16. A part below the payload whose type is [text/plain] or
    [text/html] and that has no [body] object makes [getMessageBody] throw
    a TypeError, wherever it stands in the tree and whatever the other
    parts hold. The payload itself may come without a [body]: it is
    skipped, and a message with no parts has two empty bodies. *)
Theorem getMessageBody_part_without_body (message : Message) :
  (Exists lacks_body (descendants (payload message)) →
   getMessageBody message = Throw CannotReadData) ∧
  (body (payload message) = None → parts (payload message) = None →
   getMessageBody message = Return {| text := EmptyString; html := EmptyString |}).
Proof.
  split; [apply getMessageBody_lacks |].
  intros Hbody Hparts. unfold getMessageBody. cbv zeta.
  rewrite Hparts. unfold simple_body. now rewrite Hbody.
Qed.

(** ** Facts: more of base64 *)

Lemma sextet1_std_ok a : sextet_std_ok (sextet1 a) = true.
Proof. revert a. apply forall_byte. vm_compute. reflexivity. Qed.

Lemma sextet2_std_ok a b : sextet_std_ok (sextet2 a b) = true.
Proof. revert a b. apply forall_byte2. vm_compute. reflexivity. Qed.

Lemma sextet3_std_ok b c : sextet_std_ok (sextet3 b c) = true.
Proof. revert b c. apply forall_byte2. vm_compute. reflexivity. Qed.

Lemma sextet4_std_ok c : sextet_std_ok (sextet4 c) = true.
Proof. revert c. apply forall_byte. vm_compute. reflexivity. Qed.

Lemma decode_std_char n t :
  sextet_std_ok n = true →
  sextets (replace_all "_" "/" (replace_all "-" "+" (String (base64_char n) t))) =
  n :: sextets (replace_all "_" "/" (replace_all "-" "+" t)).
Proof.
  intros H. cbn [replace_all sextets]. fold (from_url (base64_char n)).
  unfold sextet_std_ok in H. apply andb_true_iff in H as [H Hn].
  apply andb_true_iff in H as [_ H]. apply negb_true_iff in H. rewrite H.
  destruct (unbase64 _) as [m|]; [| discriminate].
  apply N.eqb_eq in Hn. now subst.
Qed.

Lemma url_safe_cons c t :
  url_safe (String c t) = String (to_url c) (url_safe t).
Proof. reflexivity. Qed.

Ltac sextets_ok :=
  first [apply sextet1_ok | apply sextet2_ok | apply sextet3_ok | apply sextet4_ok
        | apply sextet1_std_ok | apply sextet2_std_ok | apply sextet3_std_ok
        | apply sextet4_std_ok].

(** The decoder reads the bytes back from base64 with its padding. *)
Lemma base64_roundtrip (buf : string) :
  Buffer_from_base64
    (replace_all "_" "/" (replace_all "-" "+" (Buffer_toString_base64 buf))) = buf.
Proof.
  unfold Buffer_from_base64.
  induction buf as [| a | a b | a b c rest IH] using bytes_ind3;
    cbn [Buffer_toString_base64].
  - reflexivity.
  - rewrite !decode_std_char by sextets_ok.
    cbn. now rewrite octet1_sextets.
  - rewrite !decode_std_char by sextets_ok.
    cbn. now rewrite octet1_sextets, octet2_sextets.
  - rewrite !decode_std_char by sextets_ok.
    cbn [octets]. rewrite IH.
    now rewrite octet1_sextets, octet2_sextets, octet3_sextets.
Qed.

(** The same from the URL-safe form with its padding. *)
Lemma base64_url_safe_roundtrip (buf : string) :
  Buffer_from_base64
    (replace_all "_" "/" (replace_all "-" "+" (url_safe (Buffer_toString_base64 buf)))) =
  buf.
Proof.
  unfold Buffer_from_base64.
  induction buf as [| a | a b | a b c rest IH] using bytes_ind3;
    cbn [Buffer_toString_base64].
  - reflexivity.
  - rewrite !url_safe_cons, !decode_char by sextets_ok.
    cbn. now rewrite octet1_sextets.
  - rewrite !url_safe_cons, !decode_char by sextets_ok.
    cbn. now rewrite octet1_sextets, octet2_sextets.
  - rewrite !url_safe_cons, !decode_char by sextets_ok.
    cbn [octets]. rewrite IH.
    now rewrite octet1_sextets, octet2_sextets, octet3_sextets.
Qed.

Lemma decodeBase64Url_bytes (data : string) :
  decodeBase64Url data =
    Buffer_toString_utf8
      (Buffer_from_base64 (replace_all "_" "/" (replace_all "-" "+" data))).
Proof. now destruct data. Qed.

(** X17. The bytes of a downloaded attachment are the bytes that were
    encoded, whatever they are (no UTF-8 step is involved), in each of the
    three forms of base64 a sender may use: standard with padding,
    URL-safe with padding, and URL-safe without. *)
Theorem attachmentBytes_roundtrip (buf : string) :
  attachmentBytes (Buffer_toString_base64 buf) = buf ∧
  attachmentBytes (url_safe (Buffer_toString_base64 buf)) = buf ∧
  attachmentBytes (encodeBase64Url buf) = buf.
Proof.
  unfold attachmentBytes. split; [| split].
  - apply base64_roundtrip.
  - apply base64_url_safe_roundtrip.
  - apply base64url_roundtrip.
Qed.

(** X18. [decodeBase64Url] is the UTF-8 reading of the bytes the
    attachment download decodes, on every input: its test for an empty
    string changes no result. So it reads a text back from standard and
    from URL-safe base64, padded or not, and a text that is well-formed
    UTF-8 comes back as it was. *)
Theorem decodeBase64Url_forms (data buf : string) :
  decodeBase64Url data = Buffer_toString_utf8 (attachmentBytes data) ∧
  decodeBase64Url (Buffer_toString_base64 buf) = Buffer_toString_utf8 buf ∧
  decodeBase64Url (url_safe (Buffer_toString_base64 buf)) = Buffer_toString_utf8 buf ∧
  (utf8_text buf →
   decodeBase64Url (Buffer_toString_base64 buf) = buf ∧
   decodeBase64Url (url_safe (Buffer_toString_base64 buf)) = buf ∧
   decodeBase64Url (encodeBase64Url buf) = buf).
Proof.
  rewrite !decodeBase64Url_bytes.
  rewrite base64_roundtrip, base64_url_safe_roundtrip, base64url_roundtrip.
  split; [reflexivity |]. split; [reflexivity |]. split; [reflexivity |].
  intros Htext. unfold Buffer_toString_utf8. now rewrite (utf8_scan_text buf Htext).
Qed.

Lemma length_encode_char n t :
  sextet_ok n = true →
  String.length (strip_trailing "=" (replace_all "/" "_" (replace_all "+" "-"
    (String (base64_char n) t)))) =
  S (String.length (strip_trailing "=" (replace_all "/" "_" (replace_all "+" "-" t)))).
Proof. intros H. now rewrite encode_char. Qed.

(** X19. The encoded message has four characters for every three bytes
    and no padding: [ceil(4 n / 3)] characters for [n] bytes. *)
Theorem encodeBase64Url_length (rawMessage : string) :
  String.length (encodeBase64Url rawMessage) =
    ((4 * String.length rawMessage + 2) / 3)%nat.
Proof.
  unfold encodeBase64Url, Buffer_from_utf8.
  induction rawMessage as [| a | a b | a b c rest IH] using bytes_ind3;
    cbn [Buffer_toString_base64].
  - reflexivity.
  - rewrite !length_encode_char by sextets_ok. reflexivity.
  - rewrite !length_encode_char by sextets_ok. reflexivity.
  - rewrite !length_encode_char by sextets_ok. rewrite IH.
    cbn [String.length].
    replace (4 * S (S (S (String.length rest))) + 2)%nat
      with (4 * 3 + (4 * String.length rest + 2))%nat by lia.
    rewrite (Nat.div_add_l 4 3) by discriminate. reflexivity.
Qed.


(** ** Facts: the status check *)

Lemma logged_app (a b : list string) (w : World) :
  logged (a ++ b) w = logged b (logged a w).
Proof. unfold logged. apply fold_left_app. Qed.

Lemma events_logged (lines : list string) (w : World) :
  events (logged lines w) = events w ++ map ConsoleLog lines.
Proof.
  revert w. induction lines as [|line lines IH]; intros w; cbn [logged fold_left map].
  - now rewrite app_nil_r.
  - fold (logged lines (add_event (ConsoleLog line) w)). rewrite IH.
    cbn [events add_event]. now rewrite <- app_assoc.
Qed.

(** Printing changes the trace only. *)
Lemma logged_frame (lines : list string) (w : World) :
  files (logged lines w) = files w ∧
  currentProfile (logged lines w) = currentProfile w ∧
  gmailClient (logged lines w) = gmailClient w ∧
  labelCache (logged lines w) = labelCache w.
Proof.
  revert w. induction lines as [|line lines IH]; intros w; [now cbn |].
  cbn [logged fold_left]. fold (logged lines (add_event (ConsoleLog line) w)).
  destruct (IH (add_event (ConsoleLog line) w)) as (-> & -> & -> & ->). now cbn.
Qed.

Lemma calls_logged (kind : Event → bool) (lines : list string) (w : World) :
  (∀ line, kind (ConsoleLog line) = false) →
  calls kind (logged lines w) = calls kind w.
Proof.
  intros Hlog. revert w. induction lines as [|line lines IH]; intros w; [reflexivity |].
  cbn [logged fold_left]. fold (logged lines (add_event (ConsoleLog line) w)).
  rewrite IH, calls_add_event, Hlog. lia.
Qed.

Lemma log_each_scope_run (scopes : list string) (w : World) :
  log_each_scope scopes w = (Return tt, logged (map (λ scope, " - " +:+ scope) scopes) w).
Proof.
  revert w. induction scopes as [|scope scopes IH]; intros w; [reflexivity |].
  cbn [log_each_scope map]. unfold bind, console_log, emit, modify. apply IH.
Qed.

Lemma log_scopes_run (scopes : option (list string)) (w : World) :
  log_scopes scopes w = (Return tt, logged (scope_lines scopes) w).
Proof. destruct scopes as [l|]; [apply log_each_scope_run | reflexivity]. Qed.

(** The status check, branch by branch. *)
Lemma checkStatus_run (w : World) :
  checkStatus w =
    (Return tt,
     match files w !! tokenFile w ≫= file_json with
     | None => logged ["Status: Not authenticated"; login_hint] w
     | Some _ =>
         let failed := logged ["Status: Token expired or invalid"; relogin_hint] in
         match getAuthClient w with
         | (Throw _, w0) => failed w0
         | (Return client, w0) =>
             match users_getProfile w0 client with
             | Throw _ => failed w0
             | Return emailAddress =>
                 let w1 := logged ["Status: Authenticated"; "Email: " +:+ emailAddress] w0 in
                 match files w1 !! tokenFile w1 ≫= file_json with
                 | None => failed w1
                 | Some token =>
                     match getTokenInfo w1 client (access_token token) with
                     | Throw _ => failed w1
                     | Return scopes =>
                         logged (("Scopes:" :: scope_lines scopes) ++ expiry_lines token) w1
                     end
                 end
             end
         end
     end).
Proof.
  unfold checkStatus. unfold bind at 1. rewrite loadToken_spec.
  destruct (files w !! tokenFile w ≫= file_json) as [initialToken|]; [| reflexivity].
  cbv zeta. unfold try_catch. unfold bind at 1.
  destruct (getAuthClient w) as [[client|e] w0]; [| reflexivity].
  unfold bind at 1, lift at 1.
  destruct (users_getProfile w0 client) as [emailAddress|e]; [| reflexivity].
  unfold bind at 1, console_log at 1, emit at 1, modify at 1.
  unfold bind at 1, console_log at 1, emit at 1, modify at 1.
  unfold bind at 1. rewrite loadToken_spec.
  change (add_event (ConsoleLog ("Email: " +:+ emailAddress))
            (add_event (ConsoleLog "Status: Authenticated") w0))
    with (logged ["Status: Authenticated"; "Email: " +:+ emailAddress] w0).
  set (w1 := logged ["Status: Authenticated"; "Email: " +:+ emailAddress] w0).
  destruct (files w1 !! tokenFile w1 ≫= file_json) as [token|]; [| reflexivity].
  unfold bind at 1, lift at 1.
  destruct (getTokenInfo w1 client (access_token token)) as [scopes|e]; [| reflexivity].
  unfold bind at 1, console_log at 1, emit at 1, modify at 1.
  unfold bind at 1. rewrite log_scopes_run.
  change (logged (("Scopes:" :: scope_lines scopes) ++ expiry_lines token) w1)
    with (logged (scope_lines scopes ++ expiry_lines token)
            (add_event (ConsoleLog "Scopes:") w1)).
  rewrite logged_app. unfold expiry_lines, truthy_number.
  destruct (expiry_date token) as [e|]; [| reflexivity].
  now destruct (e =? 0).
Qed.


Lemma getAuthClient_profile (w : World) :
  currentProfile (getAuthClient w).2 = currentProfile w.
Proof.
  rewrite getAuthClient_run.
  destruct (oauth_app w) as [app|e]; [| now cbn].
  destruct (files w !! tokenFile w ≫= file_json) as [token|]; [| now cbn].
  cbv zeta. destruct (needs_refresh token (clock w)); [| now cbn].
  destruct (refresh_reply w _); now cbn.
Qed.

(** X20. [checkStatus] never throws: whatever fails on the way (the
    configuration, the refresh, the profile, the scopes), it returns. It
    opens no session and leaves the label cache and the profile alone. *)
Theorem checkStatus_never_throws (w : World) :
  ∃ w', checkStatus w = (Return tt, w') ∧
        gmailClient w' = gmailClient w ∧
        labelCache w' = labelCache w ∧
        currentProfile w' = currentProfile w.
Proof.
  rewrite checkStatus_run. eexists. split; [reflexivity |].
  destruct (files w !! tokenFile w ≫= file_json) as [initialToken|].
  2: { destruct (logged_frame ["Status: Not authenticated"; login_hint] w)
         as (_ & -> & -> & ->). auto. }
  cbv zeta.
  pose proof (getAuthClient_session w) as (Hclient & Hcache & _).
  pose proof (getAuthClient_profile w) as Hprofile.
  destruct (getAuthClient w) as [[client|e] w0]; cbn [snd] in Hclient, Hcache, Hprofile.
  2: { destruct (logged_frame ["Status: Token expired or invalid"; relogin_hint] w0)
         as (_ & -> & -> & ->). auto. }
  destruct (users_getProfile w0 client) as [emailAddress|e].
  2: { destruct (logged_frame ["Status: Token expired or invalid"; relogin_hint] w0)
         as (_ & -> & -> & ->). auto. }
  set (w1 := logged ["Status: Authenticated"; "Email: " +:+ emailAddress] w0).
  assert (Hw1 : gmailClient w1 = gmailClient w ∧ labelCache w1 = labelCache w ∧
                currentProfile w1 = currentProfile w).
  { destruct (logged_frame ["Status: Authenticated"; "Email: " +:+ emailAddress] w0)
      as (_ & H1 & H2 & H3). fold w1 in H1, H2, H3. rewrite H1, H2, H3. auto. }
  destruct Hw1 as (H1 & H2 & H3).
  destruct (files w1 !! tokenFile w1 ≫= file_json) as [token|].
  2: { destruct (logged_frame ["Status: Token expired or invalid"; relogin_hint] w1)
         as (_ & -> & -> & ->). auto. }
  destruct (getTokenInfo w1 client (access_token token)) as [scopes|e].
  2: { destruct (logged_frame ["Status: Token expired or invalid"; relogin_hint] w1)
         as (_ & -> & -> & ->). auto. }
  destruct (logged_frame (("Scopes:" :: scope_lines scopes) ++ expiry_lines token) w1)
    as (_ & -> & -> & ->). auto.
Qed.

(** X21. With no token file for the profile, or one that does not parse,
    [checkStatus] prints that the user is not authenticated and how to log
    in, and does nothing else: the configuration is not read and no call
    is made. *)
Theorem checkStatus_not_authenticated (w : World) :
  (files w !! tokenFile w = None ∨
   ∃ f, files w !! tokenFile w = Some f ∧ file_json f = None) →
  checkStatus w =
    (Return tt, logged ["Status: Not authenticated"; login_hint] w).
Proof.
  intros Hfile. rewrite checkStatus_run.
  destruct Hfile as [-> | (f & -> & Hjson)]; cbn [mbind option_bind];
    [reflexivity | now rewrite Hjson].
Qed.

(** X22. With a token stored, every failure is reported as an expired
    token. When [getAuthClient] throws, whatever the error (a missing
    configuration as well as a failed refresh), the two lines printed are
    that the token is expired or invalid and how to log in again. When the
    client and the address were obtained and the scopes cannot be, these
    same two lines come after the line that says the user is
    authenticated. *)
Theorem checkStatus_reports_failure (w : World) (token : Credentials) :
  files w !! tokenFile w ≫= file_json = Some token →
  (∀ e w0, getAuthClient w = (Throw e, w0) →
     checkStatus w =
       (Return tt, logged ["Status: Token expired or invalid"; relogin_hint] w0)) ∧
  (∀ client w0 emailAddress e,
     getAuthClient w = (Return client, w0) →
     users_getProfile w0 client = Return emailAddress →
     (∀ w' accessToken, getTokenInfo w' client accessToken = Throw e) →
     checkStatus w =
       (Return tt,
        logged ["Status: Authenticated"; "Email: " +:+ emailAddress;
                "Status: Token expired or invalid"; relogin_hint] w0)).
Proof.
  intros Htok. rewrite checkStatus_run, Htok. cbv zeta. split.
  - intros e w0 ->. reflexivity.
  - intros client w0 emailAddress e -> -> Hinfo.
    set (w1 := logged ["Status: Authenticated"; "Email: " +:+ emailAddress] w0).
    destruct (files w1 !! tokenFile w1 ≫= file_json) as [token'|]; [| reflexivity].
    now rewrite Hinfo.
Qed.

(** X23. With a valid token that needs no refresh, [checkStatus] prints
    the status, the address, the scopes and the expiry, and changes
    nothing but the trace. Scopes that are not given print as [Unknown];
    an empty list of scopes prints no line; a token with no expiry, or
    with the expiry 0, prints no expiry line. *)
Theorem checkStatus_authenticated (w : World) app token emailAddress scopes :
  oauth_app w = Return app →
  files w !! tokenFile w ≫= file_json = Some token →
  (∀ e, expiry_date token = Some e → e = 0 ∨ clock w ≤ e) →
  users_getProfile w (setCredentials (client_of app) token) = Return emailAddress →
  (∀ w', getTokenInfo w' (setCredentials (client_of app) token) (access_token token) =
         Return scopes) →
  checkStatus w =
    (Return tt,
     logged (["Status: Authenticated"; "Email: " +:+ emailAddress; "Scopes:"] ++
             scope_lines scopes ++ expiry_lines token) w).
Proof.
  intros Happ Htok Hdate Hprofile Hinfo.
  assert (Hauth : getAuthClient w = (Return (setCredentials (client_of app) token), w)).
  { rewrite getAuthClient_run, Happ, Htok. cbv zeta.
    unfold needs_refresh, truthy_number.
    destruct (expiry_date token) as [e|]; [| reflexivity].
    destruct (Hdate e eq_refl) as [-> | Hle]; [reflexivity |].
    rewrite (proj2 (Z.ltb_ge e (clock w)) Hle). now rewrite andb_false_r. }
  rewrite checkStatus_run, Htok, Hauth, Hprofile. cbv zeta.
  set (w1 := logged ["Status: Authenticated"; "Email: " +:+ emailAddress] w).
  assert (Hsame : files w1 !! tokenFile w1 ≫= file_json = Some token) by exact Htok.
  rewrite Hsame, Hinfo. reflexivity.
Qed.

(** X24. [checkStatus] refreshes an expired token on the way: the provider
    is asked once, the fresh token is written to the token file, the
    scopes are asked for with the fresh access token, and the expiry
    printed is the one of the fresh token, not of the token that was
    stored. *)
Theorem checkStatus_refreshes (w : World) app token fresh (e e' : Z)
    emailAddress scopes :
  oauth_app w = Return app →
  files w !! tokenFile w ≫= file_json = Some token →
  expiry_date token = Some e → e ≠ 0 → e < clock w →
  let stored := setCredentials (client_of app) token in
  let client := setCredentials stored fresh in
  refresh_reply w stored = Return fresh →
  expiry_date fresh = Some e' → e' ≠ 0 →
  (∀ w', users_getProfile w' client = Return emailAddress) →
  (∀ w', getTokenInfo w' client (access_token fresh) = Return scopes) →
  ∃ w', checkStatus w = (Return tt, w') ∧
        files w' !! tokenFile w ≫= file_json = Some fresh ∧
        events w' =
          events w ++
          [RefreshAccessToken stored; WriteFile (tokenFile w) (saved_token fresh)] ++
          map ConsoleLog
            (["Status: Authenticated"; "Email: " +:+ emailAddress; "Scopes:"] ++
             scope_lines scopes ++ ["Token expires: " +:+ toLocaleString e']).
Proof.
  intros Happ Htok Hexp Hnz Hpast stored client Hrefresh Hexp' Hnz' Hprofile Hinfo.
  assert (Hauth : getAuthClient w =
            (Return client,
             set_files (<[tokenFile w := saved_token fresh]> (files w))
               (add_event (WriteFile (tokenFile w) (saved_token fresh))
                  (add_event (RefreshAccessToken stored) w)))).
  { rewrite getAuthClient_run, Happ, Htok. cbv zeta. fold stored.
    unfold needs_refresh, truthy_number. rewrite Hexp.
    rewrite (proj2 (Z.eqb_neq e 0) Hnz), (proj2 (Z.ltb_lt e (clock w)) Hpast).
    cbn [negb andb]. now rewrite Hrefresh. }
  rewrite checkStatus_run, Htok, Hauth, Hprofile. cbv zeta.
  set (w0 := set_files _ _).
  set (w1 := logged ["Status: Authenticated"; "Email: " +:+ emailAddress] w0).
  assert (Hfresh : files w1 !! tokenFile w1 ≫= file_json = Some fresh).
  { change (<[tokenFile w := saved_token fresh]> (files w) !! tokenFile w ≫= file_json
            = Some fresh).
    now rewrite lookup_insert_eq. }
  rewrite Hfresh, Hinfo.
  eexists. split; [reflexivity |]. split.
  - destruct (logged_frame (("Scopes:" :: scope_lines scopes) ++ expiry_lines fresh) w1)
      as (-> & _). exact Hfresh.
  - rewrite events_logged. unfold w1. rewrite events_logged.
    unfold expiry_lines. rewrite Hexp', (proj2 (Z.eqb_neq e' 0) Hnz').
    unfold w0. cbn [events set_files add_event].
    rewrite !map_app, <- !app_assoc. reflexivity.
Qed.


(** ** Facts: what needs a session, and what quoting needs *)

(** X25. [resetGmailClient] forgets the client and the label cache and
    touches nothing else: the next [getLabels] authenticates again from
    the stored token and fetches the list with one call, whatever was
    cached before. *)
Theorem resetGmailClient_starts_over (w : World) app token reply :
  oauth_app w = Return app →
  files w !! tokenFile w ≫= file_json = Some token →
  (∀ e, expiry_date token = Some e → e = 0 ∨ clock w ≤ e) →
  labels_reply w = Return reply →
  ∃ w1 w2,
    resetGmailClient w = (Return tt, w1) ∧
    files w1 = files w ∧ events w1 = events w ∧
    getLabels false w1 = (Return (default [] reply), w2) ∧
    gmailClient w2 = Some (setCredentials (client_of app) token) ∧
    labelCache w2 = Some (default [] reply) ∧
    calls is_labels_list w2 = S (calls is_labels_list w).
Proof.
  intros Happ Htok Hdate Hreply.
  eexists. eexists. split; [reflexivity |]. split; [reflexivity |].
  split; [reflexivity |].
  set (w1 := set_labelCache None (set_gmailClient None w)).
  assert (Hauth : getAuthClient w1 = (Return (setCredentials (client_of app) token), w1)).
  { rewrite getAuthClient_run.
    change (oauth_app w1) with (oauth_app w). rewrite Happ.
    change (files w1 !! tokenFile w1 ≫= file_json)
      with (files w !! tokenFile w ≫= file_json). rewrite Htok. cbv zeta.
    change (clock w1) with (clock w).
    unfold needs_refresh, truthy_number.
    destruct (expiry_date token) as [e|]; [| reflexivity].
    destruct (Hdate e eq_refl) as [-> | Hle]; [reflexivity |].
    rewrite (proj2 (Z.ltb_ge e (clock w)) Hle). now rewrite andb_false_r. }
  assert (Hrun : getLabels false w1 =
            (Return (default [] reply),
             set_labelCache (Some (default [] reply))
               (add_event LabelsList
                  (set_gmailClient (Some (setCredentials (client_of app) token)) w1)))).
  { rewrite getLabels_run, getGmailClient_run, Hauth.
    change (labelCache w1) with (@None (list Label)).
    change (gmailClient w1) with (@None OAuth2Client). cbv beta iota.
    change (labels_reply (set_gmailClient (Some (setCredentials (client_of app) token)) w1))
      with (labels_reply w).
    now rewrite Hreply. }
  split; [exact Hrun |]. split; [reflexivity |]. split; [reflexivity |].
  change (calls is_labels_list (add_event LabelsList w) = S (calls is_labels_list w)).
  rewrite calls_add_event. cbn. lia.
Qed.

(** X26. Nothing is attempted without a session: with no client yet and
    no token that can be read, [sendEmail], [replyToEmail] and [getLabels]
    throw [NotAuthenticatedError] and leave the world as it is. No
    attachment is looked at, no message is fetched or composed, and no
    call is made. *)
Theorem not_authenticated_stops_all (options : Options) (refresh : bool)
    (w : World) app :
  gmailClient w = None →
  oauth_app w = Return app →
  files w !! tokenFile w ≫= file_json = None →
  sendEmail options w = (Throw NotAuthenticatedError, w) ∧
  replyToEmail options w = (Throw NotAuthenticatedError, w) ∧
  (labelCache w = None ∨ refresh = true →
   getLabels refresh w = (Throw NotAuthenticatedError, w)).
Proof.
  intros Hnone Happ Htok.
  assert (Hclient : getGmailClient w = (Throw NotAuthenticatedError, w)).
  { rewrite getGmailClient_run, Hnone, getAuthClient_run, Happ, Htok. reflexivity. }
  split; [| split].
  - now rewrite sendEmail_run, Hclient.
  - unfold replyToEmail. unfold bind at 1. now rewrite Hclient.
  - intros Hfetch. rewrite getLabels_run, Hclient.
    destruct (labelCache w) as [cached|]; [| reflexivity].
    destruct Hfetch as [? | ->]; [discriminate | reflexivity].
Qed.

(** X27. Quoting reads the body of the original, so it fails where the
    body cannot be read: on an original with a Message-ID and a text part
    that has no [body], [replyToEmail] with [quote] throws the TypeError
    after the fetch and composes nothing. *)
Theorem replyToEmail_quote_unreadable (options : Options) (w w0 : World) gmail
    message (mid : string) :
  getGmailClient w = (Return gmail, w0) →
  message_reply w0 (messageId options) = Return message →
  getHeader message "Message-ID" = Some mid → mid ≠ EmptyString →
  Exists lacks_body (descendants (payload message)) →
  quote options = true →
  replyToEmail options w =
    (Throw CannotReadData, add_event (MessagesGet (messageId options)) w0).
Proof.
  intros Hclient Hmsg Hid Hne Hlacks Hquote.
  rewrite (replyToEmail_fetch _ _ _ _ _ Hclient Hmsg). cbv zeta.
  unfold replyOptions. rewrite Hid, (when_truthy_Some _ Hne). cbv zeta.
  now rewrite Hquote, (getMessageBody_lacks _ Hlacks).
Qed.


End Platform.

(** ** The statements on the sample worlds *)

Lemma logout_spec_witness :
  (∃ w', logout sample_home posix_join world_logged_out = (Return tt, w') ∧
         files w' = files world_logged_out ∧
         events w' = [ConsoleLog "Not currently logged in"]) ∧
  (∃ w', logout sample_home posix_join world_valid = (Return tt, w') ∧
         files w' = delete sample_token_path (files world_valid) ∧
         events w' = [Unlink sample_token_path;
                      ConsoleLog "✓ Logged out successfully"]).
Proof.
  split.
  - apply (proj1 (logout_spec sample_home posix_join world_logged_out)).
    vm_compute. reflexivity.
  - apply (proj2 (logout_spec sample_home posix_join world_valid)).
    vm_compute. eauto.
Defined.

Lemma getAuthClient_refresh_witness :
  (∃ w', getAuthClient sample_home posix_join sample_json_size world_expired =
           (Return (setCredentials (setCredentials (client_of sample_app) expired_token)
                      fresh_token), w') ∧
         calls is_refresh w' = 1%nat ∧
         files w' = <[sample_token_path := saved_token sample_json_size fresh_token]>
                      (files world_expired) ∧
         (files w' !! tokenFile sample_home posix_join w' ≫= file_json) = Some fresh_token) ∧
  getAuthClient sample_home posix_join sample_json_size world_valid =
    (Return (setCredentials (client_of sample_app) valid_token), world_valid) ∧
  (∃ w', getAuthClient sample_home posix_join sample_json_size world_revoked =
           (Throw TokenRefreshError, w') ∧
         TokenRefreshError ≠ NotAuthenticatedError ∧
         calls is_refresh w' = 1%nat ∧
         calls is_write w' = 0%nat ∧
         files w' = files world_revoked).
Proof.
  split; [| split].
  - apply (proj1 (getAuthClient_refresh_spec sample_home posix_join sample_json_size
                    world_expired sample_app expired_token 1700000000000
                    eq_refl eq_refl eq_refl));
      [discriminate | reflexivity | reflexivity].
  - apply (proj1 (proj2 (getAuthClient_refresh_spec sample_home posix_join sample_json_size
                    world_valid sample_app valid_token 2000000000000
                    eq_refl eq_refl eq_refl))).
    reflexivity.
  - apply (proj2 (proj2 (getAuthClient_refresh_spec sample_home posix_join sample_json_size
                    world_revoked sample_app expired_token 1700000000000
                    eq_refl eq_refl eq_refl))) with (err := Error "invalid_grant");
      [discriminate | reflexivity | reflexivity].
Defined.

(** C1 as it is stated fails on a token whose [expiry_date] is 0, the
    epoch: the date is strictly before the clock, and [getAuthClient]
    returns the client without asking for a refresh. *)
Lemma getAuthClient_epoch_token_not_refreshed :
  expiry_date epoch_token = Some 0 ∧ 0 < clock world_epoch ∧
  getAuthClient sample_home posix_join sample_json_size world_epoch =
    (Return (setCredentials (client_of sample_app) epoch_token), world_epoch) ∧
  calls is_refresh
    (snd (getAuthClient sample_home posix_join sample_json_size world_epoch)) = 0%nat.
Proof.
  assert (Hrun : getAuthClient sample_home posix_join sample_json_size world_epoch =
    (Return (setCredentials (client_of sample_app) epoch_token), world_epoch)).
  { rewrite (getAuthClient_unfold sample_home posix_join sample_json_size
               world_epoch sample_app epoch_token eq_refl eq_refl).
    reflexivity. }
  split; [reflexivity | split; [reflexivity | split; [exact Hrun |]]].
  rewrite Hrun. reflexivity.
Qed.

Lemma buildMimeMessage_attachments_witness :
  buildMimeMessage sample_mailer (send_with ["/tmp/a.bin"; "/tmp/missing.txt"; "/tmp/huge.iso"])
      world_files =
    (Throw (AttachmentNotFoundError "/tmp/missing.txt"), world_files) ∧
  buildMimeMessage sample_mailer (send_with ["/tmp/a.bin"; "/tmp/huge.iso"; "/tmp/b.bin"])
      world_files =
    (Throw (AttachmentTooLargeError "/tmp/huge.iso" 41943040), world_files) ∧
  buildMimeMessage sample_mailer (send_with ["/tmp/a.bin"; "/tmp/b.bin"]) world_files =
    (Throw (MessageTooLargeError 41943040), world_files) ∧
  buildMimeMessage sample_mailer (send_with ["/tmp/a.bin"]) world_files =
    (Return (encodeBase64Url (Buffer_toString_utf8
       (sample_render (messageConfig (send_with ["/tmp/a.bin"]) (Some ["/tmp/a.bin"]))))),
     add_event (SendMail (messageConfig (send_with ["/tmp/a.bin"]) (Some ["/tmp/a.bin"])))
       world_files) ∧
  buildMimeMessage directory_mailer (send_with ["/tmp/a.bin"]) world_files =
    (Throw DirectoryError,
     add_event (SendMail (messageConfig (send_with ["/tmp/a.bin"]) (Some ["/tmp/a.bin"])))
       world_files).
Proof.
  assert (Ha : passes world_files "/tmp/a.bin").
  { eexists. split; [reflexivity | vm_compute; discriminate]. }
  assert (Hb : passes world_files "/tmp/b.bin").
  { eexists. split; [reflexivity | vm_compute; discriminate]. }
  split; [| split; [| split; [| split]]].
  - refine (proj1 (proj1 (proj2 (buildMimeMessage_attachments sample_mailer
        (send_with ["/tmp/a.bin"; "/tmp/missing.txt"; "/tmp/huge.iso"]) world_files
        ["/tmp/a.bin"; "/tmp/missing.txt"; "/tmp/huge.iso"] eq_refl _))
      ["/tmp/a.bin"] "/tmp/missing.txt" ["/tmp/huge.iso"] eq_refl _) eq_refl);
      [discriminate | repeat constructor; exact Ha].
  - refine (proj2 (proj1 (proj2 (buildMimeMessage_attachments sample_mailer
        (send_with ["/tmp/a.bin"; "/tmp/huge.iso"; "/tmp/b.bin"]) world_files
        ["/tmp/a.bin"; "/tmp/huge.iso"; "/tmp/b.bin"] eq_refl _))
      ["/tmp/a.bin"] "/tmp/huge.iso" ["/tmp/b.bin"] eq_refl _)
      {| file_size := 41943040; file_json := None |} eq_refl eq_refl);
      [discriminate | repeat constructor; exact Ha].
  - refine (proj1 (proj1 (proj2 (proj2 (buildMimeMessage_attachments sample_mailer
        (send_with ["/tmp/a.bin"; "/tmp/b.bin"]) world_files
        ["/tmp/a.bin"; "/tmp/b.bin"] eq_refl _))) _) eq_refl);
      [discriminate | repeat constructor; [exact Ha | exact Hb]].
  - refine (proj2 (proj1 (proj2 (proj2 (buildMimeMessage_attachments sample_mailer
        (send_with ["/tmp/a.bin"]) world_files ["/tmp/a.bin"] eq_refl _))) _) _);
      [discriminate | repeat constructor; exact Ha | vm_compute; discriminate].
  - refine (proj2 (proj1 (proj2 (proj2 (buildMimeMessage_attachments directory_mailer
        (send_with ["/tmp/a.bin"]) world_files ["/tmp/a.bin"] eq_refl _))) _) _);
      [discriminate | repeat constructor; exact Ha | vm_compute; discriminate].
Defined.

(** The second half is the input on which the code leaves C4: the claim
    gives the text [first] and an empty HTML body there. *)
Lemma getMessageBody_last_wins_witness :
  getMessageBody nested_message =
    Return {| text := "second"; html := "<b>x</b>" |} ∧
  getMessageBody bodyless_html_message = Throw CannotReadData ∧
  last_body "text/plain" (preorder (payload bodyless_html_message)) = "first" ∧
  last_body "text/html" (preorder (payload bodyless_html_message)) = EmptyString.
Proof.
  split; [| split; [| split; reflexivity]].
  - refine (eq_trans (proj1 (proj2 (getMessageBody_last_wins nested_message)) _) _).
    + repeat constructor; intros _; discriminate.
    + vm_compute. reflexivity.
  - apply (proj1 (proj2 (proj2 (getMessageBody_last_wins bodyless_html_message)))).
    apply Exists_cons_tl, Exists_cons_hd. split; [right |]; reflexivity.
Defined.

Lemma getLabelIdByName_spec_witness :
  getLabelIdByName sample_home posix_join sample_json_size "Work" world_cached =
    (Return "Label_2", world_cached) ∧
  getLabelIdByName sample_home posix_join sample_json_size "wor" world_cached =
    (Throw (LabelNotFoundError "wor" ["work"; "Work"; "Workshop"; "Work"]),
     world_cached) ∧
  (∃ w', getLabelIdByName sample_home posix_join sample_json_size "Workshop"
           world_uncached = (Return "Label_3", w') ∧
         labelCache w' = Some sample_labels ∧
         calls is_labels_list w' = 1%nat).
Proof.
  pose proof (getLabelIdByName_spec sample_home posix_join sample_json_size) as Spec.
  split; [| split].
  - destruct (proj1 (Spec "Work" world_cached) sample_labels eq_refl)
      as (result & Hrun & Hfirst & _).
    rewrite Hrun. f_equal.
    apply (Hfirst [ {| label_id := "Label_1"; label_name := "work" |} ]
             {| label_id := "Label_2"; label_name := "Work" |}
             [ {| label_id := "Label_3"; label_name := "Workshop" |};
               {| label_id := "Label_4"; label_name := "Work" |} ]);
      [reflexivity | reflexivity | repeat constructor; discriminate].
  - destruct (proj1 (Spec "wor" world_cached) sample_labels eq_refl)
      as (result & Hrun & _ & Hnone).
    rewrite Hrun. f_equal. apply Hnone. repeat constructor; discriminate.
  - destruct (proj2 (Spec "Workshop" world_uncached) eq_refl
                sample_client world_uncached (Some sample_labels) eq_refl eq_refl)
      as (result & w' & Hrun & Hcache & Hcalls & Hfirst & _).
    exists w'. rewrite Hrun. split; [| split; [exact Hcache | exact Hcalls]].
    f_equal.
    apply (Hfirst [ {| label_id := "Label_1"; label_name := "work" |};
                    {| label_id := "Label_2"; label_name := "Work" |} ]
             {| label_id := "Label_3"; label_name := "Workshop" |}
             [ {| label_id := "Label_4"; label_name := "Work" |} ]);
      [reflexivity | reflexivity | repeat constructor; discriminate].
Defined.


(** [replyToEmail] on the sample platform, in the world that holds one
    original. *)
Local Abbreviation replied options message :=
  (replyToEmail sample_home posix_join sample_json_size sample_mailer options
     (mail_world message None ∅)).

(** With nothing attached, the reply composed for a sample is handed to
    nodemailer. *)
Lemma sample_reply_sent (options : Options) (message : Message) reply :
  messageId options = "m1" →
  attachments options = None →
  replyOptions options message = Return reply →
  hands_over (mail_world message None ∅) (replied options message).2
    (messageConfig reply None).
Proof.
  intros Hid Hatt Hreply. split; [| intros []].
  apply (replyToEmail_sends sample_home posix_join sample_json_size sample_mailer
           options (mail_world message None ∅) (mail_world message None ∅)
           sample_client message reply eq_refl); [| exact Hreply | exact Hatt].
  rewrite Hid. reflexivity.
Qed.

Lemma replyToEmail_threading_witness :
  replied thanks anonymous_message =
    (Throw MissingMessageIdError,
     add_event (MessagesGet "m1") (mail_world anonymous_message None ∅)) ∧
  (∃ cfg,
     hands_over (mail_world first_message None ∅)
       (replied thanks first_message).2 cfg ∧
     mc_headers cfg = [("In-Reply-To", "<abc@x>"); ("References", "<abc@x>")]) ∧
  (∃ cfg,
     hands_over (mail_world threaded_message None ∅)
       (replied thanks threaded_message).2 cfg ∧
     mc_headers cfg =
       [("In-Reply-To", "<abc@x>"); ("References", "<a@x> <b@x> <abc@x>")]).
Proof.
  pose proof (replyToEmail_threading sample_home posix_join sample_json_size
                sample_mailer thanks) as Spec.
  pose proof (sample_reply_sent thanks first_message _ eq_refl eq_refl eq_refl)
    as Hfirst.
  pose proof (sample_reply_sent thanks threaded_message _ eq_refl eq_refl eq_refl)
    as Hthreaded.
  split; [| split].
  - apply (proj1 (Spec (mail_world anonymous_message None ∅) _ sample_client
                    anonymous_message eq_refl eq_refl)).
    left. reflexivity.
  - eexists. split; [exact Hfirst |].
    apply (proj2 (Spec (mail_world first_message None ∅) _ sample_client
                    first_message eq_refl eq_refl)
                 "<abc@x>" _ eq_refl ltac:(discriminate) Hfirst).
    left. reflexivity.
  - eexists. split; [exact Hthreaded |].
    apply (proj1 (proj2 (Spec (mail_world threaded_message None ∅) _ sample_client
                           threaded_message eq_refl eq_refl)
                        "<abc@x>" _ eq_refl ltac:(discriminate) Hthreaded)
             "<a@x> <b@x>" eq_refl ltac:(discriminate)).
Defined.

(** C2 as it is stated fails on a header that is there with an empty
    value. An original whose References header is empty has such a header,
    yet the reply handed to nodemailer carries the Message-ID alone and
    not the empty value, a space and the Message-ID; an original whose
    Message-ID header is empty has such a header, yet [replyToEmail] fails
    with [MissingMessageIdError]. *)
Lemma replyToEmail_empty_header_values :
  (getHeader blank_references_message "References" = Some EmptyString ∧
   getHeader blank_references_message "Message-ID" = Some "<abc@x>" ∧
   ∃ cfg,
     hands_over (mail_world blank_references_message None ∅)
       (replied thanks blank_references_message).2 cfg ∧
     mc_headers cfg = [("In-Reply-To", "<abc@x>"); ("References", "<abc@x>")] ∧
     mc_headers cfg ≠
       [("In-Reply-To", "<abc@x>");
        ("References", EmptyString +:+ " " +:+ "<abc@x>")]) ∧
  (getHeader blank_id_message "Message-ID" = Some EmptyString ∧
   (replied thanks blank_id_message).1 = Throw MissingMessageIdError).
Proof.
  split; [split; [reflexivity | split; [reflexivity |]] | split; reflexivity].
  eexists. split; [| split].
  - apply (sample_reply_sent thanks blank_references_message _
             eq_refl eq_refl eq_refl).
  - reflexivity.
  - vm_compute. discriminate.
Qed.

Lemma replyToEmail_subject_witness :
  (∃ cfg,
     hands_over (mail_world first_message None ∅)
       (replied thanks first_message).2 cfg ∧
     mc_subject cfg = Some "Re: Report") ∧
  (∃ cfg,
     hands_over (mail_world threaded_message None ∅)
       (replied thanks threaded_message).2 cfg ∧
     mc_subject cfg = Some "Re: Report") ∧
  (∃ cfg,
     hands_over (mail_world shouted_message None ∅)
       (replied thanks shouted_message).2 cfg ∧
     mc_subject cfg = Some "Re: RE: Report").
Proof.
  pose proof (replyToEmail_subject sample_home posix_join sample_json_size
                sample_mailer thanks) as Spec.
  pose proof (sample_reply_sent thanks first_message _ eq_refl eq_refl eq_refl)
    as Hfirst.
  pose proof (sample_reply_sent thanks threaded_message _ eq_refl eq_refl eq_refl)
    as Hthreaded.
  pose proof (sample_reply_sent thanks shouted_message _ eq_refl eq_refl eq_refl)
    as Hshouted.
  split; [| split]; eexists.
  - split; [exact Hfirst |].
    apply (proj2 (Spec (mail_world first_message None ∅) _ sample_client
                    first_message "Report" _ eq_refl eq_refl eq_refl Hfirst)).
    intros rest. discriminate.
  - split; [exact Hthreaded |].
    apply (proj1 (Spec (mail_world threaded_message None ∅) _ sample_client
                    threaded_message "Re: Report" _ eq_refl eq_refl eq_refl
                    Hthreaded)).
    exists " Report". reflexivity.
  - split; [exact Hshouted |].
    apply (proj2 (Spec (mail_world shouted_message None ∅) _ sample_client
                    shouted_message "RE: Report" _ eq_refl eq_refl eq_refl
                    Hshouted)).
    intros rest. discriminate.
Defined.

Lemma replyToEmail_quote_witness :
  ∃ cfg,
    hands_over (mail_world first_message None ∅)
      (replied thanks_both first_message).2 cfg ∧
    mc_text cfg =
      Some ("Thanks" +:+ nl +:+ nl +:+
            "On Mon, 1 Jan 2024 10:00:00 +0000, Bob <bob@example.org> wrote:" +:+ nl +:+
            "> a" +:+ nl +:+ "> b") ∧
    mc_html cfg =
      Some "<p>Thanks</p><br><br><blockquote><p>a</p></blockquote>".
Proof.
  pose proof (sample_reply_sent thanks_both first_message _ eq_refl eq_refl eq_refl)
    as Hsent.
  eexists. split; [exact Hsent |].
  pose proof (replyToEmail_quote sample_home posix_join sample_json_size sample_mailer
                thanks_both (mail_world first_message None ∅) _ sample_client
                first_message {| text := "a" +:+ nl +:+ "b"; html := "<p>a</p>" |} _
                eq_refl eq_refl eq_refl eq_refl Hsent)
    as (Htxt & Hhtml & _).
  split.
  - apply (Htxt "Thanks" ["a"; "b"] eq_refl);
      [discriminate | discriminate | repeat constructor | reflexivity | discriminate].
  - apply (Hhtml "<p>Thanks</p>" eq_refl); discriminate.
Defined.

Lemma replyToEmail_quote_needs_body_witness :
  ∃ cfg,
    hands_over (mail_world first_message None ∅)
      (replied thanks_html first_message).2 cfg ∧
    mc_text cfg = None ∧
    mc_html cfg = Some "<p>Thanks</p><br><br><blockquote><p>a</p></blockquote>".
Proof.
  pose proof (sample_reply_sent thanks_html first_message _ eq_refl eq_refl eq_refl)
    as Hsent.
  eexists. split; [exact Hsent |].
  split; [| reflexivity].
  apply (proj1 (replyToEmail_quote_needs_body sample_home posix_join sample_json_size
                  sample_mailer thanks_html (mail_world first_message None ∅) _
                  sample_client first_message _ eq_refl eq_refl eq_refl Hsent)).
  reflexivity.
Defined.

(** ** More statements on the sample worlds *)

Lemma getAuthClient_not_authenticated_witness :
  getAuthClient sample_home posix_join sample_json_size world_logged_out =
    (Throw NotAuthenticatedError, world_logged_out) ∧
  getAuthClient sample_home posix_join sample_json_size world_garbled =
    (Throw NotAuthenticatedError, world_garbled).
Proof.
  split.
  - apply (getAuthClient_not_authenticated sample_home posix_join sample_json_size
             world_logged_out sample_app eq_refl).
    left. vm_compute. reflexivity.
  - apply (getAuthClient_not_authenticated sample_home posix_join sample_json_size
             world_garbled sample_app eq_refl).
    right. eexists. split; [vm_compute; reflexivity | reflexivity].
Defined.

Lemma getAuthClient_config_error_witness :
  getAuthClient sample_home posix_join sample_json_size world_unconfigured =
    (Throw ConfigNotFoundError, world_unconfigured).
Proof.
  apply (getAuthClient_config_error sample_home posix_join sample_json_size
           world_unconfigured ConfigNotFoundError).
  reflexivity.
Defined.

Lemma getAuthClient_token_as_is_witness :
  getAuthClient sample_home posix_join sample_json_size world_undated =
    (Return (setCredentials (client_of sample_app) undated_token), world_undated) ∧
  getAuthClient sample_home posix_join sample_json_size world_valid =
    (Return (setCredentials (client_of sample_app) valid_token), world_valid).
Proof.
  split.
  - apply (getAuthClient_token_as_is sample_home posix_join sample_json_size
             world_undated sample_app undated_token eq_refl eq_refl).
    intros e He. discriminate.
  - apply (getAuthClient_token_as_is sample_home posix_join sample_json_size
             world_valid sample_app valid_token eq_refl eq_refl).
    intros e He. injection He as <-. right. vm_compute. discriminate.
Defined.

Lemma saveToken_other_profile_witness :
  ∃ w1,
    (let* _ := setProfile "work" in
     saveToken sample_home posix_join sample_json_size fresh_token) world_valid =
      (Return tt, w1) ∧
    (let* _ := setProfile "default" in loadToken sample_home posix_join) w1 =
      (Return (Some valid_token), set_currentProfile "default" w1) ∧
    (let* _ := setProfile "work" in loadToken sample_home posix_join) w1 =
      (Return (Some fresh_token), w1).
Proof.
  destruct (saveToken_other_profile sample_home posix_join sample_json_size
              world_valid "work" "default" fresh_token)
    as (w1 & Hsave & Hother & Hsame).
  - vm_compute. discriminate.
  - exists w1. split; [exact Hsave | split; [exact Hother | exact Hsame]].
Defined.

Lemma getGmailClient_once_witness :
  (∃ w1,
     getGmailClient sample_home posix_join sample_json_size world_valid =
       (Return (setCredentials (client_of sample_app) valid_token), w1) ∧
     gmailClient w1 = Some (setCredentials (client_of sample_app) valid_token) ∧
     getGmailClient sample_home posix_join sample_json_size w1 =
       (Return (setCredentials (client_of sample_app) valid_token), w1)) ∧
  gmailClient
    (getGmailClient sample_home posix_join sample_json_size world_logged_out).2 = None.
Proof.
  split.
  - exists (set_gmailClient (Some (setCredentials (client_of sample_app) valid_token))
              world_valid).
    assert (Hrun :
      getGmailClient sample_home posix_join sample_json_size world_valid =
        (Return (setCredentials (client_of sample_app) valid_token),
         set_gmailClient (Some (setCredentials (client_of sample_app) valid_token))
           world_valid)) by reflexivity.
    split; [exact Hrun |].
    exact (proj1 (getGmailClient_once sample_home posix_join sample_json_size
                    world_valid _) _ Hrun).
  - refine (proj1 (proj2 (proj2 (getGmailClient_once sample_home posix_join
              sample_json_size world_logged_out _) NotAuthenticatedError _))).
    reflexivity.
Defined.

Lemma getLabels_memo_witness :
  ∃ w1,
    getLabels sample_home posix_join sample_json_size false world_uncached =
      (Return sample_labels, w1) ∧
    labelCache w1 = Some sample_labels ∧
    getLabels sample_home posix_join sample_json_size false w1 =
      (Return sample_labels, w1).
Proof.
  exists (set_labelCache (Some sample_labels) (add_event LabelsList world_uncached)).
  assert (Hrun :
    getLabels sample_home posix_join sample_json_size false world_uncached =
      (Return sample_labels,
       set_labelCache (Some sample_labels) (add_event LabelsList world_uncached)))
    by reflexivity.
  split; [exact Hrun |].
  exact (getLabels_memo sample_home posix_join sample_json_size false
           world_uncached _ sample_labels Hrun).
Defined.

Lemma getLabels_forced_witness :
  ∃ w1,
    getLabels sample_home posix_join sample_json_size true world_cached =
      (Return sample_labels, w1) ∧
    labelCache w1 = Some sample_labels ∧
    calls is_labels_list w1 = 1%nat.
Proof.
  exact (proj1 (getLabels_forced sample_home posix_join sample_json_size
                  world_cached sample_client eq_refl)
           (Some sample_labels) eq_refl).
Defined.

Lemma sendEmail_delivery_witness :
  calls is_send
    (sendEmail sample_home posix_join sample_json_size sample_mailer sample_draft
       world_uncached).2 = 0%nat ∧
  calls is_draft
    (sendEmail sample_home posix_join sample_json_size sample_mailer sample_send
       world_uncached).2 = 0%nat ∧
  deliveries
    (sendEmail sample_home posix_join sample_json_size sample_mailer sample_draft
       world_uncached).2 = 1%nat ∧
  deliveries
    (sendEmail sample_home posix_join sample_json_size sample_mailer sample_send
       world_uncached).2 = 1%nat.
Proof.
  pose proof (sendEmail_delivery sample_home posix_join sample_json_size sample_mailer
                sample_draft world_uncached _ _ (surjective_pairing _))
    as (Hdraft & _ & _ & Hdrafted).
  pose proof (sendEmail_delivery sample_home posix_join sample_json_size sample_mailer
                sample_send world_uncached _ _ (surjective_pairing _))
    as (_ & Hsend & _ & Hsent).
  split; [exact (Hdraft eq_refl) |]. split; [exact (Hsend eq_refl) |].
  split.
  - refine (proj1 (Hdrafted (Drafted {| draft_id := "d1"; draft_thread := None |}
              "https://mail.google.com/mail/u/0/#drafts?compose=d1") _)).
    vm_compute. reflexivity.
  - refine (proj1 (Hsent (Sent {| sent_id := "s1"; sent_thread := None |}) _)).
    vm_compute. reflexivity.
Defined.

Lemma sendEmail_checks_first_witness :
  ∃ e,
    sendEmail sample_home posix_join sample_json_size sample_mailer
      (send_with ["/tmp/a.bin"; "/tmp/missing.txt"]) world_files =
      (Throw e, world_files).
Proof.
  apply (sendEmail_checks_first sample_home posix_join sample_json_size sample_mailer
           (send_with ["/tmp/a.bin"; "/tmp/missing.txt"]) world_files world_files
           sample_client ["/tmp/a.bin"; "/tmp/missing.txt"] eq_refl eq_refl).
  intros [Hall _].
  apply Forall_cons_1 in Hall as [_ Hall].
  apply Forall_cons_1 in Hall as [(f & Hf & _) _].
  vm_compute in Hf. discriminate.
Defined.

Lemma replyToEmail_thread_witness :
  (∃ cfg raw stream,
     events (replied thanks first_message).2 =
       [MessagesGet "m1"; SendMail cfg; MessagesSend raw (Some "t1")] ∧
     sample_mailer
       (add_event (SendMail cfg)
          (add_event (MessagesGet "m1") (mail_world first_message None ∅))) cfg =
       Return stream ∧
     decodeBase64Url raw = Buffer_toString_utf8 stream) ∧
  (∃ cfg raw stream,
     events (replied thanks_draft first_message).2 =
       [MessagesGet "m1"; SendMail cfg; DraftsCreate raw (Some "t1")] ∧
     sample_mailer
       (add_event (SendMail cfg)
          (add_event (MessagesGet "m1") (mail_world first_message None ∅))) cfg =
       Return stream ∧
     decodeBase64Url raw = Buffer_toString_utf8 stream).
Proof.
  split.
  - refine (replyToEmail_thread sample_home posix_join sample_json_size sample_mailer
              thanks (mail_world first_message None ∅) (mail_world first_message None ∅)
              _ sample_client first_message
              (Sent {| sent_id := "s1"; sent_thread := Some "t1" |})
              eq_refl eq_refl _).
    vm_compute. reflexivity.
  - refine (replyToEmail_thread sample_home posix_join sample_json_size sample_mailer
              thanks_draft (mail_world first_message None ∅)
              (mail_world first_message None ∅)
              _ sample_client first_message
              (Drafted {| draft_id := "d1"; draft_thread := Some "t1" |}
                 "https://mail.google.com/mail/u/0/#drafts?compose=d1")
              eq_refl eq_refl _).
    vm_compute. reflexivity.
Defined.

Lemma replyToEmail_checks_first_witness :
  ∃ e,
    replyToEmail sample_home posix_join sample_json_size sample_mailer
      (thanks_with ["/tmp/huge.iso"]) world_files =
      (Throw e, add_event (MessagesGet "m1") world_files).
Proof.
  apply (replyToEmail_checks_first sample_home posix_join sample_json_size sample_mailer
           (thanks_with ["/tmp/huge.iso"]) world_files world_files
           sample_client first_message ["/tmp/huge.iso"] eq_refl eq_refl eq_refl).
  intros [Hall _].
  apply Forall_cons_1 in Hall as [(f & Hf & Hsize) _].
  vm_compute in Hf. injection Hf as <-. vm_compute in Hsize. now apply Hsize.
Defined.

Lemma replyToEmail_recipient_witness :
  (∃ cfg,
     hands_over (mail_world first_message None ∅)
       (replied thanks first_message).2 cfg ∧
     mc_to cfg = Some "bob@example.org") ∧
  (∃ cfg,
     hands_over (mail_world threaded_message None ∅)
       (replied thanks threaded_message).2 cfg ∧
     mc_to cfg = Some "bob@example.org") ∧
  (∃ cfg,
     hands_over (mail_world shouted_message None ∅)
       (replied thanks shouted_message).2 cfg ∧
     mc_to cfg = None).
Proof.
  pose proof (replyToEmail_recipient sample_home posix_join sample_json_size
                sample_mailer thanks) as Spec.
  pose proof (sample_reply_sent thanks first_message _ eq_refl eq_refl eq_refl)
    as Hfirst.
  pose proof (sample_reply_sent thanks threaded_message _ eq_refl eq_refl eq_refl)
    as Hthreaded.
  pose proof (sample_reply_sent thanks shouted_message _ eq_refl eq_refl eq_refl)
    as Hshouted.
  split; [| split]; eexists.
  - split; [exact Hfirst |].
    apply (proj1 (Spec (mail_world first_message None ∅) _ sample_client
                    first_message _ eq_refl eq_refl Hfirst)
             "Bob " "bob@example.org" EmptyString eq_refl eq_refl);
      [discriminate | reflexivity].
  - split; [exact Hthreaded |].
    apply (proj1 (proj2 (Spec (mail_world threaded_message None ∅) _ sample_client
                           threaded_message _ eq_refl eq_refl Hthreaded))
             "bob@example.org" eq_refl eq_refl).
  - split; [exact Hshouted |].
    apply (proj2 (proj2 (Spec (mail_world shouted_message None ∅) _ sample_client
                           shouted_message _ eq_refl eq_refl Hshouted))).
    reflexivity.
Defined.

Lemma getHeader_first_ignoring_case_witness :
  getHeader threaded_message "Message-ID" = Some "<abc@x>" ∧
  getHeader threaded_message "MESSAGE-ID" = Some "<abc@x>" ∧
  getHeader threaded_message "Date" = None.
Proof.
  assert (Hascii : Forall (λ h, is_ascii (name h) = true)
                     (part_headers (payload threaded_message)))
    by (repeat constructor).
  split; [| split].
  - apply (proj1 (getHeader_first_ignoring_case threaded_message "Message-ID"
                    Hascii eq_refl)
             [] {| name := "Message-Id"; value := "<abc@x>" |}
             [ {| name := "References"; value := "<a@x> <b@x>" |};
               {| name := "Subject"; value := "Re: Report" |};
               {| name := "From"; value := "bob@example.org" |} ]
             eq_refl eq_refl).
    constructor.
  - apply (proj1 (getHeader_first_ignoring_case threaded_message "MESSAGE-ID"
                    Hascii eq_refl)
             [] {| name := "Message-Id"; value := "<abc@x>" |}
             [ {| name := "References"; value := "<a@x> <b@x>" |};
               {| name := "Subject"; value := "Re: Report" |};
               {| name := "From"; value := "bob@example.org" |} ]
             eq_refl eq_refl).
    constructor.
  - apply (proj2 (getHeader_first_ignoring_case threaded_message "Date"
                    Hascii eq_refl)).
    repeat constructor.
Defined.

Lemma getMessageBody_part_without_body_witness :
  getMessageBody hollow_message = Throw CannotReadData ∧
  getMessageBody bare_message = Return {| text := EmptyString; html := EmptyString |}.
Proof.
  split.
  - apply (proj1 (getMessageBody_part_without_body hollow_message)).
    apply Exists_cons_tl, Exists_cons_hd. split; [left |]; reflexivity.
  - apply (proj2 (getMessageBody_part_without_body bare_message)); reflexivity.
Defined.

(** [checkStatus] on the sample platform. *)
Local Abbreviation status info w :=
  (checkStatus sample_home posix_join sample_json_size sample_profile info
     sample_locale w).

Lemma checkStatus_not_authenticated_witness :
  status sample_token_info world_logged_out =
    (Return tt,
     logged ["Status: Not authenticated";
             "Run " +:+ dq +:+ "gmail auth login" +:+ dq +:+ " to authenticate"]
       world_logged_out) ∧
  status sample_token_info world_garbled =
    (Return tt, logged ["Status: Not authenticated"; login_hint] world_garbled).
Proof.
  split.
  - apply (checkStatus_not_authenticated sample_home posix_join sample_json_size
             sample_profile sample_token_info sample_locale world_logged_out).
    left. vm_compute. reflexivity.
  - apply (checkStatus_not_authenticated sample_home posix_join sample_json_size
             sample_profile sample_token_info sample_locale world_garbled).
    right. eexists. split; [vm_compute; reflexivity | reflexivity].
Defined.

Lemma checkStatus_reports_failure_witness :
  events (status sample_token_info world_unconfigured).2 =
    map ConsoleLog ["Status: Token expired or invalid"; relogin_hint] ∧
  events (status sample_token_info world_revoked).2 =
    RefreshAccessToken (setCredentials (client_of sample_app) expired_token) ::
    map ConsoleLog ["Status: Token expired or invalid"; relogin_hint] ∧
  events (status no_token_info world_valid).2 =
    map ConsoleLog ["Status: Authenticated"; "Email: alice@example.org";
                    "Status: Token expired or invalid"; relogin_hint].
Proof.
  split; [| split].
  - rewrite (proj1 (checkStatus_reports_failure sample_home posix_join sample_json_size
               sample_profile sample_token_info sample_locale world_unconfigured
               valid_token eq_refl) ConfigNotFoundError world_unconfigured eq_refl).
    reflexivity.
  - rewrite (proj1 (checkStatus_reports_failure sample_home posix_join sample_json_size
               sample_profile sample_token_info sample_locale world_revoked
               expired_token eq_refl) TokenRefreshError
               (add_event (RefreshAccessToken
                  (setCredentials (client_of sample_app) expired_token)) world_revoked)
               eq_refl).
    reflexivity.
  - rewrite (proj2 (checkStatus_reports_failure sample_home posix_join sample_json_size
               sample_profile no_token_info sample_locale world_valid
               valid_token eq_refl)
               (setCredentials (client_of sample_app) valid_token) world_valid
               "alice@example.org" (Error "invalid_token") eq_refl eq_refl
               (λ _ _, eq_refl)).
    reflexivity.
Defined.

Lemma checkStatus_authenticated_witness :
  events (status sample_token_info world_valid).2 =
    map ConsoleLog
      ["Status: Authenticated"; "Email: alice@example.org"; "Scopes:";
       " - https://www.googleapis.com/auth/gmail.send";
       " - https://www.googleapis.com/auth/gmail.readonly";
       "Token expires: ms 2000000000000"] ∧
  events (status sample_token_info world_undated).2 =
    map ConsoleLog
      ["Status: Authenticated"; "Email: alice@example.org"; "Scopes:";
       " - https://www.googleapis.com/auth/gmail.send";
       " - https://www.googleapis.com/auth/gmail.readonly"].
Proof.
  split.
  - rewrite (checkStatus_authenticated sample_home posix_join sample_json_size
               sample_profile sample_token_info sample_locale world_valid
               sample_app valid_token "alice@example.org" (Some sample_scopes)
               eq_refl eq_refl).
    + vm_compute. reflexivity.
    + intros e He. injection He as <-. right. vm_compute. discriminate.
    + reflexivity.
    + intros w'. reflexivity.
  - rewrite (checkStatus_authenticated sample_home posix_join sample_json_size
               sample_profile sample_token_info sample_locale world_undated
               sample_app undated_token "alice@example.org" (Some sample_scopes)
               eq_refl eq_refl).
    + vm_compute. reflexivity.
    + intros e He. discriminate.
    + reflexivity.
    + intros w'. reflexivity.
Defined.

Lemma checkStatus_refreshes_witness :
  ∃ w',
    status sample_token_info world_expired = (Return tt, w') ∧
    files w' !! sample_token_path ≫= file_json = Some fresh_token ∧
    events w' =
      [RefreshAccessToken (setCredentials (client_of sample_app) expired_token);
       WriteFile sample_token_path (saved_token sample_json_size fresh_token);
       ConsoleLog "Status: Authenticated"; ConsoleLog "Email: alice@example.org";
       ConsoleLog "Scopes:";
       ConsoleLog " - https://www.googleapis.com/auth/gmail.send";
       ConsoleLog " - https://www.googleapis.com/auth/gmail.readonly";
       ConsoleLog "Token expires: ms 1800003600000"].
Proof.
  destruct (checkStatus_refreshes sample_home posix_join sample_json_size
              sample_profile sample_token_info sample_locale world_expired
              sample_app expired_token fresh_token 1700000000000 1800003600000
              "alice@example.org" (Some sample_scopes)
              eq_refl eq_refl eq_refl ltac:(discriminate) eq_refl
              eq_refl eq_refl ltac:(discriminate) (λ _, eq_refl) (λ _, eq_refl))
    as (w' & Hrun & Hfile & Hevents).
  exists w'. split; [exact Hrun |]. split; [exact Hfile |].
  rewrite Hevents. vm_compute. reflexivity.
Defined.

Lemma resetGmailClient_starts_over_witness :
  ∃ w1 w2,
    resetGmailClient world_session = (Return tt, w1) ∧
    getLabels sample_home posix_join sample_json_size false w1 =
      (Return sample_labels, w2) ∧
    calls is_labels_list w2 = 1%nat.
Proof.
  destruct (resetGmailClient_starts_over sample_home posix_join sample_json_size
              world_session sample_app valid_token (Some sample_labels) eq_refl)
    as (w1 & w2 & Hreset & _ & _ & Hlabels & _ & _ & Hcalls).
  - vm_compute. reflexivity.
  - intros e He. injection He as <-. right. vm_compute. discriminate.
  - reflexivity.
  - exists w1, w2. split; [exact Hreset |]. split; [exact Hlabels | exact Hcalls].
Defined.

Lemma not_authenticated_stops_all_witness :
  sendEmail sample_home posix_join sample_json_size sample_mailer
      (send_with ["/tmp/missing.txt"]) world_logged_out =
    (Throw NotAuthenticatedError, world_logged_out) ∧
  replyToEmail sample_home posix_join sample_json_size sample_mailer thanks
      world_logged_out =
    (Throw NotAuthenticatedError, world_logged_out) ∧
  getLabels sample_home posix_join sample_json_size false world_logged_out =
    (Throw NotAuthenticatedError, world_logged_out).
Proof.
  split; [| split].
  - apply (not_authenticated_stops_all sample_home posix_join sample_json_size
             sample_mailer (send_with ["/tmp/missing.txt"]) false world_logged_out
             sample_app eq_refl eq_refl eq_refl).
  - apply (not_authenticated_stops_all sample_home posix_join sample_json_size
             sample_mailer thanks false world_logged_out
             sample_app eq_refl eq_refl eq_refl).
  - apply (not_authenticated_stops_all sample_home posix_join sample_json_size
             sample_mailer thanks false world_logged_out
             sample_app eq_refl eq_refl eq_refl).
    left. reflexivity.
Defined.

Lemma replyToEmail_quote_unreadable_witness :
  replied thanks_both hollow_message =
    (Throw CannotReadData,
     add_event (MessagesGet "m1") (mail_world hollow_message None ∅)) ∧
  (∃ d, (replied thanks hollow_message).1 = Return d).
Proof.
  split.
  - apply (replyToEmail_quote_unreadable sample_home posix_join sample_json_size
             sample_mailer thanks_both (mail_world hollow_message None ∅)
             (mail_world hollow_message None ∅) sample_client hollow_message "<h@x>"
             eq_refl eq_refl eq_refl);
      [discriminate | | reflexivity].
    apply Exists_cons_tl, Exists_cons_hd. split; [left |]; reflexivity.
  - eexists. vm_compute. reflexivity.
Defined.
